(** * hvc.features.extract: the feature aggregation engine

    A shallow embedding of [FeatureExtractor._from_file] (the per-file
    feature builder), of [FeatureExtractor.extract] (with its aggregation
    loop and its sample-count block as parts of their own) and of
    [FeatureExtractor.__init__], from [src/hvc/features/extract.py].

    Python exceptions are values of [exn]; the calls to external
    collaborators and the warning are recorded in a trace of [event]s; the
    "is this local bound yet" tests ([... in locals()]) are options. *)

From Stdlib Require Import String Ascii ZArith Bool Arith Lia List Sorted.
Import ListNotations.
Local Open Scope string_scope.
Local Open Scope list_scope.

(* ------------------------------------------------------------------ *)
(** ** Exceptions, events and the builder monad *)

Inductive exn : Type :=
| AttributeError          (* [labels.shape] on a [str] *)
| IndexError              (* bad index / boolean mask of the wrong length *)
| ValueError              (* numpy: shapes or dimensions do not fit *)
| UnboundLocalError (var : string)
| KeyError (key : string)
| AssertionError (msg : string)
| ValueError_num_samples. (* "can't determine number of samples ..." *)

Inductive event : Type :=
| ev_warn (filename labels_to_use : string)   (* warnings.warn(...) *)
| ev_make_syls                                (* make_syls(...) *)
| ev_single (feature : string) (ind : nat)    (* single_syl_...[feature](syl) *)
| ev_multiple (feature : string)              (* multiple_syl_...[feature](...) *)
| ev_neuralnet (feature : string).            (* neural_net_...[feature](...) *)

Definition M (A : Type) : Type := (list event * (exn + A))%type.

Definition ret {A} (a : A) : M A := ([], inr a).
Definition raise {A} (e : exn) : M A := ([], inl e).
Definition emit (ev : event) : M unit := ([ev], inr tt).
Definition bind {A B} (m : M A) (k : A -> M B) : M B :=
  match m with
  | (t, inl e) => (t, inl e)
  | (t, inr a) => let (t', r) := k a in (t ++ t', r)
  end.

Arguments bind {A B} m k : simpl never.

Notation "x <- m ;; k" := (bind m (fun x => k))
  (at level 61, m at next level, right associativity).
Notation "m ;;; k" := (bind m (fun _ => k))
  (at level 61, right associativity).

Definition trace {A} (m : M A) : list event := fst m.
Definition outcome {A} (m : M A) : exn + A := snd m.

(** A local that may not be bound yet: reading it raises. *)
Definition read_local {A} (var : string) (x : option A) : M A :=
  match x with
  | Some a => ret a
  | None => raise (UnboundLocalError var)
  end.

(* ------------------------------------------------------------------ *)
(** ** numpy arrays of floats, as far as the builder uses them *)

(** A float64 entry: not-a-number, or a number given by its bits. *)
Inductive cell : Type :=
| NaN
| Num (bits : Z).

(** What a single-syllable feature function returns: a scalar, of which
    [np.isscalar] holds, or a 1-d array. *)
Inductive Ftr : Type :=
| scalar (c : cell)
| vector (v : list cell).

(** 1-d arrays of shape [(n,)] and 2-d arrays of shape [(rows, ncols)]. *)
Inductive ndarray : Type :=
| arr1 (v : list cell)
| arr2 (ncols : nat) (rows : list (list cell)).

(** [a.shape[0]] *)
Definition shape0 (a : ndarray) : nat :=
  match a with
  | arr1 v => length v
  | arr2 _ rows => length rows
  end.

(** Number of columns of a 2-d array; a 1-d array has none. *)
Definition ncolumns (a : ndarray) : option nat :=
  match a with
  | arr1 _ => None
  | arr2 n _ => Some n
  end.

Fixpoint list_set {A} (l : list A) (i : nat) (x : A) : option (list A) :=
  match l, i with
  | [], _ => None
  | _ :: t, O => Some (x :: t)
  | h :: t, S j => option_map (cons h) (list_set t j x)
  end.

(** [np.full((n), np.nan)] and [np.full((n, w), np.nan)] *)
Definition full_nan1 (n : nat) : ndarray := arr1 (repeat NaN n).
Definition full_nan2 (n w : nat) : ndarray := arr2 w (repeat (repeat NaN w) n).

(** [a[ind] = c] for a scalar [c]: one entry of a 1-d array, a whole row of
    a 2-d array (broadcast). *)
Definition setitem_scalar (a : ndarray) (ind : nat) (c : cell) : M ndarray :=
  match a with
  | arr1 v =>
      match list_set v ind c with
      | Some v' => ret (arr1 v')
      | None => raise IndexError
      end
  | arr2 w rows =>
      match list_set rows ind (repeat c w) with
      | Some rows' => ret (arr2 w rows')
      | None => raise IndexError
      end
  end.

(** [a[ind, :] = v[np.newaxis, :]] for a 1-d [v]: a 1-d [a] has too few
    dimensions; a row of width [w] takes a [v] of length [w], or of length 1
    by broadcasting. *)
Definition setitem_row (a : ndarray) (ind : nat) (v : list cell) : M ndarray :=
  match a with
  | arr1 _ => raise IndexError
  | arr2 w rows =>
      if Nat.ltb ind (length rows) then
        if Nat.eqb (length v) w then
          match list_set rows ind v with
          | Some rows' => ret (arr2 w rows')
          | None => raise IndexError
          end
        else
          match v with
          | [c] =>
              match list_set rows ind (repeat c w) with
              | Some rows' => ret (arr2 w rows')
              | None => raise IndexError
              end
          | _ => raise ValueError
          end
      else raise IndexError
  end.

(** [v[:, np.newaxis]], and equally [v[np.newaxis, :].T], of a 1-d [v]:
    shape [(n, 1)]. *)
Definition as_column (v : list cell) : ndarray :=
  arr2 1 (map (fun c => [c]) v).

(** [a[np.newaxis, :].T]: a column for a 1-d [a]; for a 2-d [a] the result
    has three dimensions. *)
Inductive newaxis_T_result : Type :=
| column_2d (a : ndarray)
| three_dims.

Definition newaxis_T (a : ndarray) : newaxis_T_result :=
  match a with
  | arr1 v => column_2d (as_column v)
  | arr2 _ _ => three_dims
  end.

Fixpoint zip_app (r1 r2 : list (list cell)) : list (list cell) :=
  match r1, r2 with
  | x :: t1, y :: t2 => (x ++ y) :: zip_app t1 t2
  | _, _ => []
  end.

(** [np.concatenate((a, b), axis=1)]: both 2-d with the same number of rows. *)
Definition concatenate_axis1 (a b : ndarray) : M ndarray :=
  match a, b with
  | arr2 n1 r1, arr2 n2 r2 =>
      if Nat.eqb (length r1) (length r2)
      then ret (arr2 (n1 + n2) (zip_app r1 r2))
      else raise ValueError
  | _, _ => raise ValueError
  end.

(** [np.concatenate((a, b), axis=0)]: same number of dimensions, and for
    2-d arrays the same number of columns. *)
Definition concatenate_axis0 (a b : ndarray) : M ndarray :=
  match a, b with
  | arr1 v1, arr1 v2 => ret (arr1 (v1 ++ v2))
  | arr2 n1 r1, arr2 n2 r2 =>
      if Nat.eqb n1 n2 then ret (arr2 n1 (r1 ++ r2)) else raise ValueError
  | _, _ => raise ValueError
  end.

(** [a[mask]] with a boolean [mask]: the lengths must agree. *)
Fixpoint select {A} (a : list A) (mask : list bool) : list A :=
  match a, mask with
  | x :: a', b :: mask' => if b then x :: select a' mask' else select a' mask'
  | _, _ => []
  end.

Definition mask_index {A} (a : list A) (mask : list bool) : M (list A) :=
  if Nat.eqb (length a) (length mask) then ret (select a mask)
  else raise IndexError.

(** [np.any(mask)] *)
Definition np_any (mask : list bool) : bool := existsb (fun b => b) mask.

(** [np.array_equal(a, b)] on 1-d integer arrays *)
Definition array_equal (a b : list nat) : bool :=
  if list_eq_dec Nat.eq_dec a b then true else false.

(* ------------------------------------------------------------------ *)
(** ** Labels and the label mask (lines 486-492) *)

(** The [labels] argument: an array of single characters (the documented
    type), or a plain [str], which line 491 converts. *)
Inductive labels_arg : Type :=
| labels_arr (l : list ascii)
| labels_str (s : string).

(** Iterating over [labels], and [np.asarray(list(labels))]. *)
Definition labels_iter (labels : labels_arg) : list ascii :=
  match labels with
  | labels_arr l => l
  | labels_str s => list_ascii_of_string s
  end.

(** [label in labels_to_use] for a one-character [label]. *)
Definition label_in (label : ascii) (labels_to_use : string) : bool :=
  existsb (Ascii.eqb label) (list_ascii_of_string labels_to_use).

Definition use_these_labels_bool (labels : labels_arg) (labels_to_use : string)
  : M (list bool) :=
  if String.eqb labels_to_use "all" then
    match labels with
    | labels_arr l => ret (repeat true (length l))   (* np.ones(labels.shape) *)
    | labels_str _ => raise AttributeError           (* str has no .shape *)
    end
  else
    ret (map (fun label => label_in label labels_to_use) (labels_iter labels)).

(** [s.endswith(suffix)] *)
Definition endswith (s suffix : string) : bool :=
  let n := String.length suffix in
  let m := String.length s in
  Nat.leb n m && String.eqb (substring (m - n) n s) suffix.

(* ------------------------------------------------------------------ *)
(** ** The external collaborators

    Audio decoding, [make_syls], the three feature registries of
    [feature_dicts] and numpy on the model-input tensors are not part of
    [extract.py]; the builder is stated over any choice of them.  The
    spectrogram maker of the extractor is part of the functions that take it. *)

Record Collaborators : Type := {
  Audio : Type;
  Syl : Type;
  Tensor : Type;
  (** [evfuncs.load_cbin(filename)] gives [(raw_audio, samp_freq)] *)
  load_cbin : string -> Audio * Z;
  (** [wavfile.read(filename)] gives [(samp_freq, raw_audio)] *)
  wavfile_read : string -> Z * Audio;
  (** [make_syls(raw_audio, samp_freq, spectrogram_maker, labels, onsets, offsets)] *)
  make_syls : Audio -> Z -> list ascii -> list Z -> list Z -> list Syl;
  (** [syl.spect is np.nan] *)
  spect_is_nan : Syl -> bool;
  single_syl_features_switch_case_dict : string -> option (Syl -> Ftr);
  (** called on the whole [onsets_Hz], [offsets_Hz] and the mask; gives a 1-d array *)
  multiple_syl_features_switch_case_dict :
    string -> option (list Z -> list Z -> list bool -> list cell);
  neural_net_features_switch_case_dict :
    string -> option (Audio -> Z -> list ascii -> list Z -> list Z -> Tensor);
  (** [type(t) is np.ndarray] *)
  is_ndarray : Tensor -> bool;
  (** [np.concatenate((a, b), axis=-1)] *)
  concatenate_last : Tensor -> Tensor -> exn + Tensor;
  (** [np.concatenate(list_of_tensors)] *)
  concatenate_list : list Tensor -> exn + Tensor;
  (** [t.shape[0]] *)
  tensor_shape0 : Tensor -> nat
}.

(** A Python [dict] with [str] keys, in insertion order. *)
Definition dict (V : Type) : Type := list (string * V).

Fixpoint dict_get {V} (d : dict V) (k : string) : option V :=
  match d with
  | [] => None
  | (k', v) :: d' => if String.eqb k k' then Some v else dict_get d' k
  end.

(** [d[k] = v] *)
Fixpoint dict_set {V} (d : dict V) (k : string) (v : V) : dict V :=
  match d with
  | [] => [(k, v)]
  | (k', v') :: d' =>
      if String.eqb k k' then (k', v) :: d' else (k', v') :: dict_set d' k v
  end.

Definition lift_exn {A} (r : exn + A) : M A := ([], r).

(** [enumerate(l)] *)
Fixpoint enumerate_from {A} (i : nat) (l : list A) : list (nat * A) :=
  match l with
  | [] => []
  | x :: l' => (i, x) :: enumerate_from (S i) l'
  end.
Definition enumerate {A} (l : list A) : list (nat * A) := enumerate_from 0 l.

Section Builder.

Variable E : Collaborators.

(** The [extract_dict] that [_from_file] returns; an absent key is [None]. *)
Record extract_dict : Type := {
  ed_labels : list ascii;
  ed_onsets_Hz : list Z;
  ed_offsets_Hz : list Z;
  ed_features_arr : option ndarray;
  ed_feature_inds : option (list nat);
  ed_neuralnet_inputs_dict : option (dict (Tensor E));
  ed_samp_freq : Z
}.

(** The locals of [_from_file] that the feature loop binds and tests with
    [in locals()]. *)
Record locals : Type := {
  feature_inds : list nat;
  syls : option (list (Syl E));
  ftr : option Ftr;
  curr_feature_arr : option ndarray;
  features_arr : option ndarray;
  neuralnet_inputs_dict : option (dict (Tensor E))
}.

Definition locals0 : locals :=
  {| feature_inds := []; syls := None; ftr := None; curr_feature_arr := None;
     features_arr := None; neuralnet_inputs_dict := None |}.

(** Lines 481-484: [raw_audio] and [samp_freq] are bound only for the two
    known extensions. *)
Definition decode (filename : string) : option (Audio E * Z) :=
  if endswith filename ".cbin" then Some (load_cbin E filename)
  else if endswith filename ".wav" then
    let (samp_freq, raw_audio) := wavfile_read E filename in
    Some (raw_audio, samp_freq)
  else None.

Definition read_raw_audio (dec : option (Audio E * Z)) : M (Audio E) :=
  option_rect (fun _ => M (Audio E)) (fun d => ret (fst d))
              (raise (UnboundLocalError "raw_audio")) dec.

Definition read_samp_freq (dec : option (Audio E * Z)) : M Z :=
  option_rect (fun _ => M Z) (fun d => ret (snd d))
              (raise (UnboundLocalError "samp_freq")) dec.

(** Lines 526-559: the loop over the syllables for one single-syllable
    feature.  [ftr] and [curr_feature_arr] are the locals on entry. *)
Fixpoint syl_loop (current_feature : string) (f : Syl E -> Ftr) (len_syls : nat)
    (isyls : list (nat * Syl E)) (ftr : option Ftr) (curr : option ndarray)
  : M (option Ftr * option ndarray) :=
  match isyls with
  | [] => ret (ftr, curr)
  | (ind, syl) :: rest =>
      if spect_is_nan E syl then
        (* can't extract feature so leave as nan *)
        syl_loop current_feature f len_syls rest ftr curr
      else
        emit (ev_single current_feature ind) ;;;
        let ftr' := f syl in
        curr' <-
          match curr with
          | Some a =>
              match ftr' with
              | scalar c => setitem_scalar a ind c
              | vector v => setitem_row a ind v
              end
          | None =>
              match ftr' with
              | scalar c => setitem_scalar (full_nan1 len_syls) ind c
              | vector v => setitem_row (full_nan2 len_syls (length v)) ind v
              end
          end ;;
        syl_loop current_feature f len_syls rest (Some ftr') (Some curr')
  end.

Section PerFile.

(** What the feature loop reads: the decoded file (if any), [labels] after
    line 492, [onsets_Hz], [offsets_Hz] and the mask. *)
Variable dec : option (Audio E * Z).
Variable labels : list ascii.
Variable onsets_Hz offsets_Hz : list Z.
Variable mask : list bool.

(** Lines 516-522: [syls] is made on first use and kept. *)
Definition get_syls (st : locals) : M (list (Syl E)) :=
  match syls st with
  | Some s => ret s
  | None =>
      raw_audio <- read_raw_audio dec ;;
      samp_freq <- read_samp_freq dec ;;
      l <- mask_index labels mask ;;
      on <- mask_index onsets_Hz mask ;;
      off <- mask_index offsets_Hz mask ;;
      emit ev_make_syls ;;;
      ret (make_syls E raw_audio samp_freq l on off)
  end.

(** Lines 562-583: appending the columns of a single-syllable feature. *)
Definition append_single (ftr_ind : nat) (st : locals) (the_syls : list (Syl E))
    (ftr' : option Ftr) (curr' : option ndarray) : M locals :=
  match features_arr st with
  | Some fa =>
      last <- read_local "ftr" ftr' ;;
      match last with
      | scalar _ =>
          curr <- read_local "curr_feature_arr" curr' ;;
          fa' <- match newaxis_T curr with
                 | column_2d col => concatenate_axis1 fa col
                 | three_dims => raise ValueError
                 end ;;
          ret {| feature_inds := feature_inds st ++ [ftr_ind];
                 syls := Some the_syls; ftr := ftr'; curr_feature_arr := curr';
                 features_arr := Some fa';
                 neuralnet_inputs_dict := neuralnet_inputs_dict st |}
      | vector v =>
          curr <- read_local "curr_feature_arr" curr' ;;
          fa' <- concatenate_axis1 fa curr ;;
          ret {| feature_inds := feature_inds st ++ repeat ftr_ind (length v);
                 syls := Some the_syls; ftr := ftr'; curr_feature_arr := curr';
                 features_arr := Some fa';
                 neuralnet_inputs_dict := neuralnet_inputs_dict st |}
      end
  | None =>
      last <- read_local "ftr" ftr' ;;
      let inds := match last with
                  | scalar _ => [ftr_ind]
                  | vector v => repeat ftr_ind (length v)
                  end in
      curr <- read_local "curr_feature_arr" curr' ;;
      ret {| feature_inds := feature_inds st ++ inds;
             syls := Some the_syls; ftr := ftr'; curr_feature_arr := curr';
             features_arr := Some curr;
             neuralnet_inputs_dict := neuralnet_inputs_dict st |}
  end.

(** Lines 515-583. *)
Definition single_syl_case (ftr_ind : nat) (current_feature : string)
    (f : Syl E -> Ftr) (st : locals) : M locals :=
  the_syls <- get_syls st ;;
  (* del curr_feature_arr *)
  r <- syl_loop current_feature f (length the_syls) (enumerate the_syls)
                (ftr st) None ;;
  append_single ftr_ind st the_syls (fst r) (snd r).

(** Lines 585-595. *)
Definition multiple_syl_case (ftr_ind : nat) (current_feature : string)
    (g : list Z -> list Z -> list bool -> list cell) (st : locals) : M locals :=
  emit (ev_multiple current_feature) ;;;
  let curr := g onsets_Hz offsets_Hz mask in
  fa' <- match features_arr st with
         | Some fa => concatenate_axis1 fa (as_column curr)
         | None => ret (as_column curr)
         end ;;
  ret {| feature_inds := feature_inds st ++ [ftr_ind];
         syls := syls st; ftr := ftr st; curr_feature_arr := Some (arr1 curr);
         features_arr := Some fa';
         neuralnet_inputs_dict := neuralnet_inputs_dict st |}.

(** Lines 596-616. *)
Definition neural_net_case (current_feature : string)
    (h : Audio E -> Z -> list ascii -> list Z -> list Z -> Tensor E)
    (st : locals) : M locals :=
  raw_audio <- read_raw_audio dec ;;
  samp_freq <- read_samp_freq dec ;;
  l <- mask_index labels mask ;;
  on <- mask_index onsets_Hz mask ;;
  off <- mask_index offsets_Hz mask ;;
  emit (ev_neuralnet current_feature) ;;;
  let curr_neuralnet_input := h raw_audio samp_freq l on off in
  d' <- match neuralnet_inputs_dict st with
        | Some d =>
            match dict_get d current_feature with
            | Some old =>
                if is_ndarray E old then
                  t <- lift_exn (concatenate_last E old curr_neuralnet_input) ;;
                  ret (dict_set d current_feature t)
                else ret d
            | None => ret (dict_set d current_feature curr_neuralnet_input)
            end
        | None => ret [(current_feature, curr_neuralnet_input)]
        end ;;
  ret {| feature_inds := feature_inds st;
         syls := syls st; ftr := ftr st; curr_feature_arr := curr_feature_arr st;
         features_arr := features_arr st;
         neuralnet_inputs_dict := Some d' |}.

(** One round of the loop of line 512: the registries are tried in the order
    single, multiple, neural net; a name in none of them does nothing. *)
Definition feature_step (ftr_ind : nat) (current_feature : string) (st : locals)
  : M locals :=
  match single_syl_features_switch_case_dict E current_feature with
  | Some f => single_syl_case ftr_ind current_feature f st
  | None =>
      match multiple_syl_features_switch_case_dict E current_feature with
      | Some g => multiple_syl_case ftr_ind current_feature g st
      | None =>
          match neural_net_features_switch_case_dict E current_feature with
          | Some h => neural_net_case current_feature h st
          | None => ret st
          end
      end
  end.

Fixpoint feature_loop (ifeatures : list (nat * string)) (st : locals) : M locals :=
  match ifeatures with
  | [] => ret st
  | (ftr_ind, current_feature) :: rest =>
      st' <- feature_step ftr_ind current_feature st ;;
      feature_loop rest st'
  end.

End PerFile.

(** [FeatureExtractor._from_file]; [None] is the value returned when no
    label matched. *)
Definition _from_file (feature_list : list string) (filename : string)
    (labels : labels_arg) (onsets_Hz offsets_Hz : list Z) (labels_to_use : string)
  : M (option extract_dict) :=
  let dec := decode filename in
  use_these_labels_bool <- use_these_labels_bool labels labels_to_use ;;
  let labels := labels_iter labels in
  if negb (np_any use_these_labels_bool) then
    emit (ev_warn filename labels_to_use) ;;;
    ret None
  else
    st <- feature_loop dec labels onsets_Hz offsets_Hz use_these_labels_bool
                       (enumerate feature_list) locals0 ;;
    l <- mask_index labels use_these_labels_bool ;;
    on <- mask_index onsets_Hz use_these_labels_bool ;;
    off <- mask_index offsets_Hz use_these_labels_bool ;;
    samp_freq <- read_samp_freq dec ;;
    ret (Some {| ed_labels := l; ed_onsets_Hz := on; ed_offsets_Hz := off;
                 ed_features_arr := features_arr st;
                 ed_feature_inds :=
                   match features_arr st with
                   | Some _ => Some (feature_inds st)
                   | None => None
                   end;
                 ed_neuralnet_inputs_dict := neuralnet_inputs_dict st;
                 ed_samp_freq := samp_freq |}).

End Builder.

Arguments ed_labels {E} _.
Arguments ed_onsets_Hz {E} _.
Arguments ed_offsets_Hz {E} _.
Arguments ed_features_arr {E} _.
Arguments ed_feature_inds {E} _.
Arguments ed_neuralnet_inputs_dict {E} _.
Arguments ed_samp_freq {E} _.
Arguments feature_inds {E} _.
Arguments syls {E} _.
Arguments ftr {E} _.
Arguments curr_feature_arr {E} _.
Arguments features_arr {E} _.
Arguments neuralnet_inputs_dict {E} _.

(* ------------------------------------------------------------------ *)
(** ** A concrete choice of collaborators, for running the builder

    A syllable is its label, onset and offset; its spectrogram cannot be
    made when it is shorter than 4 samples.  ["amplitude"] and
    ["spectral_vec3"] are single-syllable features (a scalar and a vector of
    width 3), ["gapdur"] is a multiple-syllable feature, ["flatwindow"] and
    ["windows"] are neural-net inputs.  ["duration"] is a scalar
    single-syllable feature when [duration_single] holds, and a
    multiple-syllable feature otherwise.  A tensor is the list of its
    entries along the first axis. *)

Module Demo.

Definition syl : Type := (ascii * (Z * Z))%type.
Definition onset (s : syl) : Z := fst (snd s).
Definition offset (s : syl) : Z := snd (snd s).

Fixpoint zip3 (l : list ascii) (on off : list Z) : list syl :=
  match l, on, off with
  | a :: l', x :: on', y :: off' => (a, (x, y)) :: zip3 l' on' off'
  | _, _, _ => []
  end.

Definition too_short (s : syl) : bool := Z.ltb (offset s - onset s) 4.

Definition single (duration_single : bool) (name : string) : option (syl -> Ftr) :=
  if String.eqb name "amplitude" then
    Some (fun s => scalar (Num (onset s + offset s)))
  else if String.eqb name "spectral_vec3" then
    Some (fun s => vector [Num (onset s); Num (offset s); Num (offset s - onset s)])
  else if String.eqb name "duration" && duration_single then
    Some (fun s => scalar (Num (offset s - onset s)))
  else None.

Definition durations (on off : list Z) (mask : list bool) : list cell :=
  select (map (fun p => Num (snd p - fst p)) (combine on off)) mask.

Definition multiple (name : string)
  : option (list Z -> list Z -> list bool -> list cell) :=
  if String.eqb name "duration" then Some durations
  else if String.eqb name "gapdur" then
    Some (fun on off mask => select (map (fun x => Num (x - 1)) on) mask)
  else None.

Definition neural (name : string)
  : option (unit -> Z -> list ascii -> list Z -> list Z -> list Z) :=
  if String.eqb name "flatwindow" then Some (fun _ _ _ on _ => on)
  else if String.eqb name "windows" then Some (fun _ _ _ _ off => off)
  else None.

Definition env (duration_single : bool) : Collaborators :=
  {| Audio := unit; Syl := syl; Tensor := list Z;
     load_cbin := fun _ => (tt, 32000%Z);
     wavfile_read := fun _ => (44100%Z, tt);
     make_syls := fun _ _ l on off => zip3 l on off;
     spect_is_nan := too_short;
     single_syl_features_switch_case_dict := single duration_single;
     multiple_syl_features_switch_case_dict := multiple;
     neural_net_features_switch_case_dict := neural;
     is_ndarray := fun _ => true;
     concatenate_last := fun a b => inr (a ++ b);
     concatenate_list := fun l => inr (concat l);
     tensor_shape0 := @length Z |}.

End Demo.

(* ------------------------------------------------------------------ *)
(** ** The aggregation loop of [extract] (lines 287-340) *)

(** An entry of [annotation_list]. *)
Record annotation_dict : Type := {
  ann_filename : string;
  ann_labels : labels_arg;
  ann_onsets_Hz : list Z;
  ann_offsets_Hz : list Z
}.

Section Aggregator.

Variable E : Collaborators.

(** The locals of [extract] that the loop over the files updates; the three
    that are bound on first use are options.  [feature_inds_ref] is the
    local [feature_inds] of [extract]. *)
Record aggregate : Type := {
  all_labels : list ascii;
  all_onsets_Hz : list Z;
  all_offsets_Hz : list Z;
  all_sampfreqs : list Z;
  songfiles : list string;
  songfile_IDs : list nat;
  songfile_ID_counter : nat;
  feature_inds_ref : option (list nat);
  features_from_all_files : option ndarray;
  neuralnet_inputs_all_files : option (dict (list (Tensor E)))
}.

Definition aggregate0 : aggregate :=
  {| all_labels := []; all_onsets_Hz := []; all_offsets_Hz := [];
     all_sampfreqs := []; songfiles := []; songfile_IDs := [];
     songfile_ID_counter := 0; feature_inds_ref := None;
     features_from_all_files := None; neuralnet_inputs_all_files := None |}.

Definition ftr_inds_err_msg : string := "feature indices changed between files".

(** Lines 309-314. *)
Definition check_feature_inds (ref : option (list nat)) (ed : extract_dict E)
  : M (option (list nat)) :=
  match ed_feature_inds ed with
  | Some inds =>
      match ref with
      | None => ret (Some inds)
      | Some feature_inds =>
          if array_equal feature_inds inds then ret (Some feature_inds)
          else raise (AssertionError ftr_inds_err_msg)
      end
  | None => ret ref
  end.

(** Lines 325-331. *)
Definition add_features (all : option ndarray) (ed : extract_dict E)
  : M (option ndarray) :=
  match ed_features_arr ed with
  | Some fa =>
      match all with
      | Some features_from_all_files =>
          a <- concatenate_axis0 features_from_all_files fa ;;
          ret (Some a)
      | None => ret (Some fa)
      end
  | None => ret all
  end.

(** Lines 335-336: every list of the accumulated dict gets the input of the
    same name of this file. *)
Fixpoint append_inputs (acc : dict (list (Tensor E))) (d : dict (Tensor E))
  : M (dict (list (Tensor E))) :=
  match acc with
  | [] => ret []
  | (input_type, list_of_input_arr) :: acc' =>
      match dict_get d input_type with
      | Some input_arr =>
          rest <- append_inputs acc' d ;;
          ret ((input_type, list_of_input_arr ++ [input_arr]) :: rest)
      | None => raise (KeyError input_type)
      end
  end.

(** Lines 333-340. *)
Definition add_neuralnet_inputs (all : option (dict (list (Tensor E))))
    (ed : extract_dict E) : M (option (dict (list (Tensor E)))) :=
  match ed_neuralnet_inputs_dict ed with
  | Some d =>
      match all with
      | Some acc => acc' <- append_inputs acc d ;; ret (Some acc')
      | None => ret (Some (map (fun kv => (fst kv, [snd kv])) d))
      end
  | None => ret all
  end.

(** Lines 305-340: the body of the loop, given what [_from_file] returned. *)
Definition extract_body (st : aggregate) (filename : string)
    (r : option (extract_dict E)) : M aggregate :=
  match r with
  | None => ret st  (* continue *)
  | Some ed =>
      ref <- check_feature_inds (feature_inds_ref st) ed ;;
      feats <- add_features (features_from_all_files st) ed ;;
      nn <- add_neuralnet_inputs (neuralnet_inputs_all_files st) ed ;;
      ret {| all_labels := all_labels st ++ ed_labels ed;
             all_onsets_Hz := all_onsets_Hz st ++ ed_onsets_Hz ed;
             all_offsets_Hz := all_offsets_Hz st ++ ed_offsets_Hz ed;
             all_sampfreqs := all_sampfreqs st ++ [ed_samp_freq ed];
             songfiles := songfiles st ++ [filename];
             songfile_IDs :=
               songfile_IDs st
               ++ repeat (songfile_ID_counter st) (length (ed_onsets_Hz ed));
             songfile_ID_counter := S (songfile_ID_counter st);
             feature_inds_ref := ref;
             features_from_all_files := feats;
             neuralnet_inputs_all_files := nn |}
  end.

(** The loop over per-file results that are already there. *)
Fixpoint aggregate_results (results : list (string * option (extract_dict E)))
    (st : aggregate) : M aggregate :=
  match results with
  | [] => ret st
  | (filename, r) :: rest =>
      st' <- extract_body st filename r ;;
      aggregate_results rest st'
  end.

(** Lines 295-340: the loop of [extract] over [annotation_list]. *)
Fixpoint extract_loop (feature_list : list string) (labels_to_use : string)
    (annotation_list : list annotation_dict) (st : aggregate) : M aggregate :=
  match annotation_list with
  | [] => ret st
  | a :: rest =>
      r <- _from_file E feature_list (ann_filename a) (ann_labels a)
                      (ann_onsets_Hz a) (ann_offsets_Hz a) labels_to_use ;;
      st' <- extract_body st (ann_filename a) r ;;
      extract_loop feature_list labels_to_use rest st'
  end.

(* ------------------------------------------------------------------ *)
(** ** The sample count of the summary file (lines 361-404) *)

(** The keys of [feature_file_dict] that this block sets. *)
Record feature_file_dict : Type := {
  ff_features : option ndarray;
  ff_features_arr_column_IDs : option (list nat);
  ff_num_samples : option nat;
  ff_neuralnet_inputs : option (dict (Tensor E))
}.

(** Lines 372-374. *)
Fixpoint concatenate_inputs (d : dict (list (Tensor E))) : M (dict (Tensor E)) :=
  match d with
  | [] => ret []
  | (input_type, input_list) :: d' =>
      concatenated <- lift_exn (concatenate_list E input_list) ;;
      rest <- concatenate_inputs d' ;;
      ret ((input_type, concatenated) :: rest)
  end.

(** Lines 380-389 and 395-404: the count from the only tensor. *)
Definition num_samples_of_inputs (d : dict (Tensor E)) : M nat :=
  match d with
  | [(key, t)] => ret (tensor_shape0 E t)
  | _ => raise ValueError_num_samples
  end.

Definition num_samples_block (st : aggregate) : M feature_file_dict :=
  (* lines 361-365 *)
  d1 <- match features_from_all_files st with
        | Some features =>
            feature_inds <- read_local "feature_inds" (feature_inds_ref st) ;;
            ret {| ff_features := Some features;
                   ff_features_arr_column_IDs := Some feature_inds;
                   ff_num_samples := Some (shape0 features);
                   ff_neuralnet_inputs := None |}
        | None =>
            ret {| ff_features := None; ff_features_arr_column_IDs := None;
                   ff_num_samples := None; ff_neuralnet_inputs := None |}
        end ;;
  (* lines 371-389 *)
  d2 <- match neuralnet_inputs_all_files st with
        | Some all =>
            inputs <- concatenate_inputs all ;;
            n <- match ff_num_samples d1 with
                 | Some n => ret n
                 | None => num_samples_of_inputs inputs
                 end ;;
            ret {| ff_features := ff_features d1;
                   ff_features_arr_column_IDs := ff_features_arr_column_IDs d1;
                   ff_num_samples := Some n;
                   ff_neuralnet_inputs := Some inputs |}
        | None => ret d1
        end ;;
  (* lines 391-404 *)
  match ff_features d2 with
  | Some features =>
      ret {| ff_features := ff_features d2;
             ff_features_arr_column_IDs := ff_features_arr_column_IDs d2;
             ff_num_samples := Some (shape0 features);
             ff_neuralnet_inputs := ff_neuralnet_inputs d2 |}
  | None =>
      match ff_neuralnet_inputs d2 with
      | Some inputs =>
          n <- num_samples_of_inputs inputs ;;
          ret {| ff_features := ff_features d2;
                 ff_features_arr_column_IDs := ff_features_arr_column_IDs d2;
                 ff_num_samples := Some n;
                 ff_neuralnet_inputs := ff_neuralnet_inputs d2 |}
      | None => ret d2
      end
  end.

End Aggregator.

Arguments all_labels {E} _.
Arguments all_onsets_Hz {E} _.
Arguments all_offsets_Hz {E} _.
Arguments all_sampfreqs {E} _.
Arguments songfiles {E} _.
Arguments songfile_IDs {E} _.
Arguments songfile_ID_counter {E} _.
Arguments feature_inds_ref {E} _.
Arguments features_from_all_files {E} _.
Arguments neuralnet_inputs_all_files {E} _.
Arguments ff_features {E} _.
Arguments ff_features_arr_column_IDs {E} _.
Arguments ff_num_samples {E} _.
Arguments ff_neuralnet_inputs {E} _.
Arguments extract_body {E} st filename r.
Arguments aggregate_results {E} results st.
Arguments check_feature_inds {E} ref ed.
Arguments add_features {E} all ed.
Arguments add_neuralnet_inputs {E} all ed.
Arguments num_samples_block {E} st.

(* ------------------------------------------------------------------ *)
(** ** Vocabulary for stating the properties *)

(** The column map of the first result that has one. *)
Fixpoint first_feature_inds {E} (results : list (string * option (extract_dict E)))
  : option (list nat) :=
  match results with
  | [] => None
  | (_, Some ed) :: rest =>
      match ed_feature_inds ed with
      | Some inds => Some inds
      | None => first_feature_inds rest
      end
  | (_, None) :: rest => first_feature_inds rest
  end.

(** The files that were not skipped, with their results, in order. *)
Fixpoint kept {E} (results : list (string * option (extract_dict E)))
  : list (string * extract_dict E) :=
  match results with
  | [] => []
  | (filename, Some ed) :: rest => (filename, ed) :: kept rest
  | (_, None) :: rest => kept rest
  end.

(** The rows of a feature array; an entry of a 1-d array is a row of its own. *)
Definition rows_of (a : ndarray) : list (list cell) :=
  match a with
  | arr1 v => map (fun c => [c]) v
  | arr2 _ rows => rows
  end.

(** The rows that the files with a feature array contribute. *)
Definition feature_rows {E} (files : list (string * extract_dict E))
  : list (list cell) :=
  flat_map (fun fe => match ed_features_arr (snd fe) with
                      | Some a => rows_of a
                      | None => []
                      end) files.

(** Identifier [i] for every segment of the [i]-th file, counting from [i0]. *)
Fixpoint file_ids {E} (i0 : nat) (files : list (string * extract_dict E))
  : list nat :=
  match files with
  | [] => []
  | (_, ed) :: rest => repeat i0 (length (ed_onsets_Hz ed)) ++ file_ids (S i0) rest
  end.

(** The file that each accumulated segment came from, through its identifier. *)
Definition provenance {E} (st : aggregate E) : list string :=
  map (fun id => nth id (songfiles st) "") (songfile_IDs st).

Definition rows_opt (a : option ndarray) : list (list cell) :=
  match a with
  | Some a => rows_of a
  | None => []
  end.

(** The segments of each kept file, tagged with the file's name. *)
Definition file_of_each_segment {E} (files : list (string * extract_dict E))
  : list string :=
  flat_map (fun fe => repeat (fst fe) (length (ed_onsets_Hz (snd fe)))) files.

(** The results of [_from_file] on the entries of [annotation_list]. *)
Definition results_of {E} (feature_list : list string) (labels_to_use : string)
    (annotation_list : list annotation_dict)
    (results : list (option (extract_dict E))) : Prop :=
  Forall2 (fun a r =>
             outcome (_from_file E feature_list (ann_filename a) (ann_labels a)
                                 (ann_onsets_Hz a) (ann_offsets_Hz a) labels_to_use)
             = inr r)
          annotation_list results.

(** ** Two files for the end-to-end scenario

    File A has the segments "aabc", file B the segments "cba"; with the
    label set "ab", three segments of A and two of B are retained.  The
    features are ["duration"] (here a multiple-syllable feature) and
    ["amplitude"]. *)
Module Scenario.

Definition E : Collaborators := Demo.env false.

Definition file_A : annotation_dict :=
  {| ann_filename := "A.cbin"; ann_labels := labels_str "aabc";
     ann_onsets_Hz := [0; 10; 20; 30]%Z; ann_offsets_Hz := [5; 15; 25; 35]%Z |}.

Definition file_B : annotation_dict :=
  {| ann_filename := "B.cbin"; ann_labels := labels_str "cba";
     ann_onsets_Hz := [0; 10; 20]%Z; ann_offsets_Hz := [6; 17; 28]%Z |}.

Definition feature_list : list string := ["duration"; "amplitude"].

(** A result of one segment whose only feature is a vector of width [w]. *)
Definition ed_width (w : nat) : extract_dict E :=
  {| ed_labels := ["a"%char]; ed_onsets_Hz := [0%Z]; ed_offsets_Hz := [5%Z];
     ed_features_arr := Some (arr2 w [repeat (Num 1) w]);
     ed_feature_inds := Some (repeat 0 w);
     ed_neuralnet_inputs_dict := None;
     ed_samp_freq := 32000%Z |}.

End Scenario.

(** The accumulators after the two files of the scenario. *)
Definition scenario_run : M (aggregate Scenario.E) :=
  extract_loop Scenario.E Scenario.feature_list "ab"
               [Scenario.file_A; Scenario.file_B] (aggregate0 Scenario.E).

Definition scenario_state : aggregate Scenario.E :=
  match outcome scenario_run with
  | inr st => st
  | inl _ => aggregate0 Scenario.E
  end.

(** Accumulators with given feature rows and tensors, for the sample count. *)
Definition with_outputs {E} (feature_inds : option (list nat))
    (features : option ndarray) (inputs : option (dict (list (Tensor E))))
  : aggregate E :=
  {| all_labels := []; all_onsets_Hz := []; all_offsets_Hz := [];
     all_sampfreqs := []; songfiles := []; songfile_IDs := [];
     songfile_ID_counter := 0; feature_inds_ref := feature_inds;
     features_from_all_files := features;
     neuralnet_inputs_all_files := inputs |}.

(** The tensors of the summary file, when [np.concatenate] accepts them all
    (lines 371-375); [None] when there are no tensors. *)
Definition concatenated_inputs {E} (st : aggregate E)
    (inputs : option (dict (Tensor E))) : Prop :=
  match neuralnet_inputs_all_files st with
  | None => inputs = None
  | Some all =>
      exists d, concatenate_inputs E all = ret d /\ inputs = Some d
  end.

(** ** Vocabulary for traces *)

Definition is_make_syls (ev : event) : bool :=
  match ev with ev_make_syls => true | _ => false end.

Definition is_single (ev : event) : bool :=
  match ev with ev_single _ _ => true | _ => false end.

(** Calls that need no spectrogram: multiple-syllable and neural-net
    features. *)
Definition is_other_feature (ev : event) : bool :=
  match ev with ev_multiple _ | ev_neuralnet _ => true | _ => false end.

Definition no_make_syls (ev : event) : bool := negb (is_make_syls ev).

Definition no_syls_event (ev : event) : bool :=
  negb (is_make_syls ev) && negb (is_single ev).

(** All events of [m] satisfy [p]. *)
Definition only {A} (p : event -> bool) (m : M A) : Prop :=
  forallb p (trace m) = true.

(** [make_syls] is called at most once, not before the first
    single-syllable feature is reached, and before any single-syllable
    feature function is called. *)
Definition syls_made_once (t : list event) : Prop :=
  forallb no_syls_event t = true
  \/ exists pre post,
       t = pre ++ ev_make_syls :: post
       /\ forallb is_other_feature pre = true
       /\ forallb no_make_syls post = true.

Definition is_single_syl_feature (E : Collaborators) (name : string) : bool :=
  match single_syl_features_switch_case_dict E name with
  | Some _ => true
  | None => false
  end.

(** ** Vocabulary for the columns of the feature array *)

(** The columns of a feature array, left to right; a 1-d array is one
    column. *)
Definition columns (a : ndarray) : list (list cell) :=
  match a with
  | arr1 v => [v]
  | arr2 w rows => map (fun j => map (fun r => nth j r NaN) rows) (seq 0 w)
  end.

Definition columns_opt (a : option ndarray) : list (list cell) :=
  match a with
  | Some a => columns a
  | None => []
  end.

(** Every row of a 2-d array has as many entries as the array has columns. *)
Definition well_shaped (a : ndarray) : Prop :=
  match a with
  | arr1 _ => True
  | arr2 w rows => Forall (fun r => length r = w) rows
  end.

Definition well_shaped_opt (a : option ndarray) : Prop :=
  match a with
  | Some a => well_shaped a
  | None => True
  end.

(** The builder run on one feature alone, for the same file. *)
Definition alone (E : Collaborators) (filename : string) (labels : labels_arg)
    (onsets_Hz offsets_Hz : list Z) (labels_to_use : string) (name : string)
  : option (extract_dict E) :=
  match outcome (_from_file E [name] filename labels onsets_Hz offsets_Hz
                            labels_to_use) with
  | inr r => r
  | inl _ => None
  end.

Definition columns_alone (E : Collaborators) (filename : string)
    (labels : labels_arg) (onsets_Hz offsets_Hz : list Z) (labels_to_use : string)
    (name : string) : list (list cell) :=
  match alone E filename labels onsets_Hz offsets_Hz labels_to_use name with
  | Some ed => columns_opt (ed_features_arr ed)
  | None => []
  end.

Definition width_alone (E : Collaborators) (filename : string)
    (labels : labels_arg) (onsets_Hz offsets_Hz : list Z) (labels_to_use : string)
    (name : string) : nat :=
  match alone E filename labels onsets_Hz offsets_Hz labels_to_use name with
  | Some ed =>
      match ed_feature_inds ed with
      | Some inds => length inds
      | None => 0
      end
  | None => 0
  end.

(** The syllables that [make_syls] gives for this file. *)
Definition syls_made (E : Collaborators) (dec : option (Audio E * Z))
    (labels : list ascii) (onsets_Hz offsets_Hz : list Z) (mask : list bool)
    (s : list (Syl E)) : Prop :=
  get_syls E dec labels onsets_Hz offsets_Hz mask (locals0 E)
  = ([ev_make_syls], inr s).

(** What holds of the locals between two rounds of the feature loop. *)
Definition locals_ok (E : Collaborators) (dec : option (Audio E * Z))
    (labels : list ascii) (onsets_Hz offsets_Hz : list Z) (mask : list bool)
    (st : locals E) : Prop :=
  well_shaped_opt (features_arr st)
  /\ (features_arr st = None -> feature_inds st = [])
  /\ forall s, syls st = Some s ->
               syls_made E dec labels onsets_Hz offsets_Hz mask s.

(** One round of the feature loop from fresh locals. *)
Definition step_alone (E : Collaborators) (dec : option (Audio E * Z))
    (labels : list ascii) (onsets_Hz offsets_Hz : list Z) (mask : list bool)
    (name : string) : M (locals E) :=
  feature_step E dec labels onsets_Hz offsets_Hz mask 0 name (locals0 E).

Definition step_columns (E : Collaborators) (dec : option (Audio E * Z))
    (labels : list ascii) (onsets_Hz offsets_Hz : list Z) (mask : list bool)
    (name : string) : list (list cell) :=
  match outcome (step_alone E dec labels onsets_Hz offsets_Hz mask name) with
  | inr st0 => columns_opt (features_arr st0)
  | inl _ => []
  end.

Definition step_width (E : Collaborators) (dec : option (Audio E * Z))
    (labels : list ascii) (onsets_Hz offsets_Hz : list Z) (mask : list bool)
    (name : string) : nat :=
  match outcome (step_alone E dec labels onsets_Hz offsets_Hz mask name) with
  | inr st0 => length (feature_inds st0)
  | inl _ => 0
  end.

(** The number of columns that a value of a single-syllable feature stands
    for in the column map. *)
Definition ftr_width (x : Ftr) : nat :=
  match x with
  | scalar _ => 1
  | vector v => length v
  end.

(** What a round of the loop adds is what the same round adds to fresh
    locals: the columns of the feature alone go after the columns that are
    there, and the column map gets the index of the feature once per column
    of its value. *)
Definition step_adds_alone (E : Collaborators) (dec : option (Audio E * Z))
    (labels : list ascii) (onsets_Hz offsets_Hz : list Z) (mask : list bool)
    (ftr_ind : nat) (name : string) (st st' : locals E) : Prop :=
  exists t0 st0,
    step_alone E dec labels onsets_Hz offsets_Hz mask name = (t0, inr st0)
    /\ columns_opt (features_arr st')
       = columns_opt (features_arr st) ++ columns_opt (features_arr st0)
    /\ feature_inds st'
       = feature_inds st ++ repeat ftr_ind (length (feature_inds st0))
    /\ (features_arr st0 = None -> feature_inds st0 = [])
    /\ locals_ok E dec labels onsets_Hz offsets_Hz mask st'.

(** Row [k] of a feature array holds not-a-number only. *)
Definition row_is_nan (a : ndarray) (k : nat) : Prop :=
  match a with
  | arr1 v => nth_error v k = Some NaN
  | arr2 w rows => nth_error rows k = Some (repeat NaN w)
  end.

(** The tensor under [name] in a dict that may not be bound. *)
Definition tensor_of {V} (d : option (dict V)) (name : string) : option V :=
  match d with
  | Some d => dict_get d name
  | None => None
  end.

Definition tensor_alone (E : Collaborators) (filename : string)
    (labels : labels_arg) (onsets_Hz offsets_Hz : list Z) (labels_to_use : string)
    (name : string) : option (Tensor E) :=
  match alone E filename labels onsets_Hz offsets_Hz labels_to_use name with
  | Some ed => tensor_of (ed_neuralnet_inputs_dict ed) name
  | None => None
  end.

(** ** Vocabulary for the shape of the feature array *)

(** Two values of a feature have one shape: both scalars, or vectors of one
    length. *)
Definition same_shape (x y : Ftr) : Prop :=
  match x, y with
  | scalar _, scalar _ => True
  | vector v, vector v' => length v = length v'
  | _, _ => False
  end.

(** Every single-syllable feature of the registry gives values of one shape. *)
Definition uniform_features (E : Collaborators) : Prop :=
  forall name f,
    single_syl_features_switch_case_dict E name = Some f ->
    forall s s', same_shape (f s) (f s').

(** The array of one feature has the shape of the feature's value: 1-d for
    a scalar, as many columns as the vector has entries. *)
Definition fits (x : Ftr) (c : ndarray) : Prop :=
  ncolumns c = match x with
               | scalar _ => None
               | vector v => Some (length v)
               end.

(** The number of entries that the column map should have for an array: one
    per column, and one for a 1-d array. *)
Definition map_length (a : ndarray) : nat :=
  match ncolumns a with
  | Some n => n
  | None => 1
  end.

Definition map_fits (a : option ndarray) (inds : list nat) : Prop :=
  match a with
  | None => inds = []
  | Some a => length inds = map_length a
  end.

(** [make_syls] gives one syllable per onset that it is given. *)
Definition one_syl_per_onset (E : Collaborators) : Prop :=
  forall raw_audio samp_freq labels onsets offsets,
    length labels = length onsets ->
    length offsets = length onsets ->
    length (make_syls E raw_audio samp_freq labels onsets offsets) = length onsets.

(** The multiple-syllable features give one entry per retained segment. *)
Definition one_entry_per_segment (E : Collaborators) : Prop :=
  forall name g,
    multiple_syl_features_switch_case_dict E name = Some g ->
    forall onsets offsets mask,
      length onsets = length mask ->
      length offsets = length mask ->
      length (g onsets offsets mask) = length (select onsets mask).

(** The tensor under a name after [n] further rounds of the loop for its
    feature, each with the input [t] (lines 607-612): an array is
    concatenated with [t] along the last axis, anything else is kept. *)
Fixpoint tensor_after (E : Collaborators) (t : Tensor E) (n : nat)
    (old : Tensor E) : exn + Tensor E :=
  match n with
  | 0 => inr old
  | S k =>
      if is_ndarray E old then
        match concatenate_last E old t with
        | inl e => inl e
        | inr c => tensor_after E t k c
        end
      else tensor_after E t k old
  end.

(** The name is a key of one of the three registries. *)
Definition registered (E : Collaborators) (name : string) : bool :=
  match single_syl_features_switch_case_dict E name,
        multiple_syl_features_switch_case_dict E name,
        neural_net_features_switch_case_dict E name with
  | None, None, None => false
  | _, _, _ => true
  end.

(** ** Vocabulary for the accumulated tensors *)

(** The tensor dicts of the results that have one, in order. *)
Fixpoint tensor_dicts {E} (results : list (string * option (extract_dict E)))
  : list (dict (Tensor E)) :=
  match results with
  | [] => []
  | (_, Some ed) :: rest =>
      match ed_neuralnet_inputs_dict ed with
      | Some d => d :: tensor_dicts rest
      | None => tensor_dicts rest
      end
  | (_, None) :: rest => tensor_dicts rest
  end.

(** The values under [k] of the dicts, when every dict has the key. *)
Fixpoint gather {V} (k : string) (dicts : list (dict V)) : option (list V) :=
  match dicts with
  | [] => Some []
  | d :: ds =>
      match dict_get d k, gather k ds with
      | Some v, Some vs => Some (v :: vs)
      | _, _ => None
      end
  end.

(** An accumulated entry after the dicts: the same name, and the list
    extended by the values under that name. *)
Definition gathered {V} (dicts : list (dict V)) (kl kl' : string * list V) : Prop :=
  fst kl' = fst kl
  /\ exists vs, gather (fst kl) dicts = Some vs /\ snd kl' = snd kl ++ vs.

(** A result whose feature array, if any, is 2-d with one column per entry
    of its column map. *)
Definition map_per_column {E} (ed : extract_dict E) : Prop :=
  match ed_features_arr ed, ed_feature_inds ed with
  | Some (arr2 n _), Some inds => length inds = n
  | None, None => True
  | _, _ => False
  end.

(** A result of one segment that has only the given tensors. *)
Definition ed_with_tensors (d : dict (Tensor Scenario.E)) : extract_dict Scenario.E :=
  {| ed_labels := ["a"%char]; ed_onsets_Hz := [0%Z]; ed_offsets_Hz := [5%Z];
     ed_features_arr := None; ed_feature_inds := None;
     ed_neuralnet_inputs_dict := Some d;
     ed_samp_freq := 32000%Z |}.

(** The accumulators hold a 2-d feature array with one column per entry of
    the reference column map, or neither. *)
Definition reference_per_column {E} (st : aggregate E) : Prop :=
  match features_from_all_files st, feature_inds_ref st with
  | Some (arr2 n _), Some inds => length inds = n
  | None, None => True
  | _, _ => False
  end.

(** Lines 361-389 alone: the sample-count block without its last part
    (lines 391-404). *)
Definition num_samples_first {E} (st : aggregate E) : M (feature_file_dict E) :=
  (* lines 361-365 *)
  d1 <- match features_from_all_files st with
        | Some features =>
            feature_inds <- read_local "feature_inds" (feature_inds_ref st) ;;
            ret {| ff_features := Some features;
                   ff_features_arr_column_IDs := Some feature_inds;
                   ff_num_samples := Some (shape0 features);
                   ff_neuralnet_inputs := None |}
        | None =>
            ret {| ff_features := None; ff_features_arr_column_IDs := None;
                   ff_num_samples := None; ff_neuralnet_inputs := None |}
        end ;;
  (* lines 371-389 *)
  match neuralnet_inputs_all_files st with
  | Some all =>
      inputs <- concatenate_inputs E all ;;
      n <- match ff_num_samples d1 with
           | Some n => ret n
           | None => num_samples_of_inputs E inputs
           end ;;
      ret {| ff_features := ff_features d1;
             ff_features_arr_column_IDs := ff_features_arr_column_IDs d1;
             ff_num_samples := Some n;
             ff_neuralnet_inputs := Some inputs |}
  | None => ret d1
  end.

(* ------------------------------------------------------------------ *)
(** ** [FeatureExtractor.__init__] and the whole of [FeatureExtractor.extract]

    [extract] works on the file system, reads the clock and calls the
    annotation helpers and the segmenter; all of these are given by a
    [System], over a state [World] that they read and change.  The [print]
    calls are left out. *)

(** What [extract] raises: an exception of the builder monad, the type error
    of [os.path.join] on [None], or an error of the system. *)
Inductive error : Type :=
| of_exn (e : exn)
| TypeError
| OSError.

(** The [feature_list_group_ID] argument: the documented numpy array, or a
    list. *)
Inductive group_ids : Type :=
| ids_list (l : list nat)
| ids_array (a : list nat).

(** The truth value that [if feature_list_group_ID:] takes (line 86): a list
    is true when it is not empty; an array of one entry has the truth value
    of the entry, an empty array is false, and an array of more entries has
    no truth value. *)
Definition group_ids_truth (ids : group_ids) : error + bool :=
  match ids with
  | ids_list [] => inr false
  | ids_list (_ :: _) => inr true
  | ids_array [] => inr false
  | ids_array [x] => inr (negb (Nat.eqb x 0))
  | ids_array (_ :: _ :: _) => inl (of_exn ValueError)
  end.

(** What [segmenter.segment] returns: the keys [onsets_s] and [offsets_s],
    and the keys [onsets_Hz] and [offsets_Hz] when they are there. *)
Record segment_dict : Type := {
  seg_onsets_s : list cell;
  seg_offsets_s : list cell;
  seg_onsets_Hz : option (list Z);
  seg_offsets_Hz : option (list Z)
}.

(** An entry of [annotation_list] as [extract] builds or receives it: the
    keys [onsets_Hz] and [offsets_Hz] may be missing. *)
Record annot : Type := {
  an_filename : string;
  an_labels : labels_arg;
  an_onsets_s : list cell;
  an_offsets_s : list cell;
  an_onsets_Hz : option (list Z);
  an_offsets_Hz : option (list Z)
}.

Record System (E : Collaborators) : Type := {
  World : Type;
  Param : Type;         (* a value of the [segment_params] dict *)
  SpectParams : Type;
  GroupDict : Type;
  getcwd : World -> string;                        (* os.getcwd() *)
  chdir : string -> World -> error + World;        (* os.chdir(path) *)
  isdir : World -> string -> bool;                 (* os.path.isdir(path) *)
  makedirs : string -> World -> error + World;     (* os.makedirs(path) *)
  glob : World -> string -> list string;           (* glob(pattern) *)
  abspath : World -> string -> string;             (* os.path.abspath(path) *)
  normpath : string -> string;                     (* os.path.normpath(path) *)
  path_join : string -> string -> string;          (* os.path.join(a, b) *)
  dirname : string -> string;                      (* os.path.dirname(path) *)
  timestamp : World -> string;                     (* utils.timestamp() *)
  (** [self.segmenter.segment(raw_audio, method='evsonganaly',
      samp_freq=samp_freq)], the segmenter made from [segment_params] *)
  segment_audio : dict Param -> Audio E -> Z -> segment_dict;
  (** [annotation.notmat_to_annot_dict(notmat)] *)
  notmat_to_annot_dict : string -> World -> error + annot;
  (** [koumura.to_csv(annot_xml)], called on the list that [glob] gave *)
  to_csv : list string -> World -> error + (string * World);
  (** [annotation.csv_to_list(annotation_csv)] *)
  csv_to_list : string -> World -> error + list annot;
  (** [annotation.csv_to_annot_list(annotation_file)] *)
  csv_to_annot_list : string -> World -> error + list annot
}.

Arguments World {E} _.
Arguments Param {E} _.
Arguments SpectParams {E} _.
Arguments GroupDict {E} _.
Arguments getcwd {E} _ _.
Arguments chdir {E} _ _ _.
Arguments isdir {E} _ _ _.
Arguments makedirs {E} _ _ _.
Arguments glob {E} _ _ _.
Arguments abspath {E} _ _ _.
Arguments normpath {E} _ _.
Arguments path_join {E} _ _ _.
Arguments dirname {E} _ _.
Arguments timestamp {E} _ _.
Arguments segment_audio {E} _ _ _ _.
Arguments notmat_to_annot_dict {E} _ _ _.
Arguments to_csv {E} _ _ _.
Arguments csv_to_list {E} _ _ _.
Arguments csv_to_annot_list {E} _ _ _.

(** The attributes of a [FeatureExtractor]; [None] for attributes that
    [__init__] did not set.  [segment_params] stands for itself and for the
    segmenter made from it (lines 83-84); [group_attributes] for
    [feature_list_group_ID] and [feature_group_ID_dict], which are set
    together (lines 87-88).  The spectrogram maker is made from
    [spect_params]. *)
Record FeatureExtractor {E : Collaborators} (Sys : System E) : Type := {
  spect_params : SpectParams Sys;
  segment_params : option (dict (Param Sys));
  feature_list : list string;
  group_attributes : option (group_ids * GroupDict Sys)
}.

Arguments spect_params {E Sys} _.
Arguments segment_params {E Sys} _.
Arguments feature_list {E Sys} _.
Arguments group_attributes {E Sys} _.

(** The tensors that [extract] returns: the lists that the loop made, or the
    arrays that the summary put in their place (lines 372-374). *)
Inductive inputs_value (E : Collaborators) : Type :=
| as_lists (d : dict (list (Tensor E)))
| as_arrays (d : dict (Tensor E)).

Arguments as_lists {E} d.
Arguments as_arrays {E} d.

(** The dict that [extract] returns. *)
Record return_dict (E : Collaborators) : Type := {
  rd_labels : list ascii;
  rd_features : option ndarray;
  rd_neuralnet_inputs : option (inputs_value E)
}.

Arguments rd_labels {E} _.
Arguments rd_features {E} _.
Arguments rd_neuralnet_inputs {E} _.

(** The truth value of an optional list and of an optional [str]. *)
Definition truthy_list {A} (l : option (list A)) : bool :=
  match l with
  | Some (_ :: _) => true
  | _ => false
  end.

Definition truthy_str (s : option string) : bool :=
  match s with
  | Some s => negb (String.eqb s "")
  | None => false
  end.

(** [file_format == s] *)
Definition format_is (file_format : option string) (s : string) : bool :=
  match file_format with
  | Some f => String.eqb f s
  | None => false
  end.

(** [d[key]] on a key that may be missing. *)
Definition read_key {A} (key : string) (v : option A) : M A :=
  match v with
  | Some a => ret a
  | None => raise (KeyError key)
  end.

Section Extract.

Variable E : Collaborators.
Variable Sys : System E.

(** [__init__] (lines 80-88). *)
Definition __init__ (spect_params : SpectParams Sys) (feature_list : list string)
    (feature_list_group_ID : option group_ids)
    (feature_group_ID_dict : GroupDict Sys)
    (segment_params : option (dict (Param Sys)))
  : error + FeatureExtractor Sys :=
  let made (groups : option (group_ids * GroupDict Sys)) :=
    {| spect_params := spect_params;
       segment_params :=
         if truthy_list segment_params then segment_params else None;
       feature_list := feature_list;
       group_attributes := groups |} in
  match feature_list_group_ID with
  | None => inr (made None)
  | Some ids =>
      match group_ids_truth ids with
      | inl e => inl e
      | inr true => inr (made (Some (ids, feature_group_ID_dict)))
      | inr false => inr (made None)
      end
  end.

(** The keys of [feature_file_dict] (lines 345-375). *)
Record summary_dict : Type := {
  sd_labels : list ascii;
  sd_onsets_Hz : list Z;
  sd_offsets_Hz : list Z;
  sd_feature_list : list string;
  sd_spect_params : SpectParams Sys;
  sd_segment_params : dict (Param Sys);
  sd_labels_to_use : string;
  sd_file_format : option string;
  sd_songfiles : list string;
  sd_songfile_IDs : list nat;
  sd_all_sampfreqs : list Z;
  sd_annotation_list : list annot;
  sd_feature_extractor : FeatureExtractor Sys;
  (** [features], [features_arr_column_IDs], [num_samples], [neuralnet_inputs] *)
  sd_counted : feature_file_dict E;
  (** [feature_list_group_ID] and [feature_group_ID_dict] (lines 367-369) *)
  sd_groups : option (group_ids * GroupDict Sys)
}.

(** [joblib.dump(feature_file_dict, feature_file, compress=3)] *)
Variable joblib_dump : summary_dict -> string -> World Sys -> error + World Sys.

(** Computations of [extract]: they read and change the world, record the
    events of the builder, and return or raise. *)
Definition X (A : Type) : Type :=
  World Sys -> (World Sys * list event) * (error + A).

Definition xret {A} (a : A) : X A := fun w => ((w, []), inr a).
Definition xraise {A} (e : error) : X A := fun w => ((w, []), inl e).
Definition xbind {A B} (m : X A) (k : A -> X B) : X B :=
  fun w =>
    match m w with
    | (wt, inl e) => (wt, inl e)
    | ((w1, t1), inr a) =>
        match k a w1 with
        | ((w2, t2), r) => ((w2, t1 ++ t2), r)
        end
    end.

(** Reading the world, changing it, and calling a helper that may do both. *)
Definition ask {A} (f : World Sys -> A) : X A := fun w => ((w, []), inr (f w)).
Definition act (f : World Sys -> error + World Sys) : X unit :=
  fun w =>
    match f w with
    | inl e => ((w, []), inl e)
    | inr w' => ((w', []), inr tt)
    end.
Definition look {A} (f : World Sys -> error + A) : X A :=
  fun w => ((w, []), f w).
Definition call {A} (f : World Sys -> error + (A * World Sys)) : X A :=
  fun w =>
    match f w with
    | inl e => ((w, []), inl e)
    | inr (a, w') => ((w', []), inr a)
    end.

(** A computation of the builder monad inside [extract]. *)
Definition lift {A} (m : M A) : X A :=
  fun w =>
    ((w, trace m),
     match outcome m with
     | inl e => inl (of_exn e)
     | inr a => inr a
     end).

Local Notation "x <~ m ;; k" := (xbind m (fun x => k))
  (at level 61, m at next level, right associativity).
Local Notation "m ;;~ k" := (xbind m (fun _ => k))
  (at level 61, right associativity).

(** Lines 157-169: the output directory, made when it is not there. *)
Definition prepare_output_dir (output_dir : option string)
    (make_output_subdir : bool) : X (option string) :=
  match output_dir with
  | Some dir =>
      if String.eqb dir "" then xret output_dir
      else
        output_dir_with_path <~
          (if make_output_subdir then
             ts <~ ask (timestamp Sys) ;;
             let output_subdir := ("extract_output_" ++ ts)%string in
             ask (fun w => path_join Sys (abspath Sys w (normpath Sys dir))
                                     output_subdir)
           else ask (fun w => abspath Sys w (normpath Sys dir))) ;;
        there <~ ask (fun w => isdir Sys w output_dir_with_path) ;;
        (if there then xret tt else act (makedirs Sys output_dir_with_path)) ;;~
        xret (Some output_dir_with_path)
  | None => xret None
  end.

(** Lines 173-187. *)
Fixpoint validate_data_dirs (data_dirs : list string) : X (list string) :=
  match data_dirs with
  | [] => xret []
  | data_dir :: rest =>
      cwd <~ ask (getcwd Sys) ;;
      there <~ ask (fun w => isdir Sys w data_dir) ;;
      data_dir' <~
        (if there then xret data_dir
         else
           let data_dir := path_join Sys (dirname Sys cwd) (normpath Sys data_dir) in
           there <~ ask (fun w => isdir Sys w data_dir) ;;
           if there then xret data_dir else xraise (of_exn ValueError)) ;;
      validated_data_dirs <~ validate_data_dirs rest ;;
      xret (data_dir' :: validated_data_dirs)
  end.

(** Lines 190-205: the file format found in the first directory, which
    becomes the working directory.  [file_format] stays [None] when the
    directory has neither kind of file. *)
Definition discover_file_format (data_dirs : list string) : X (option string) :=
  match data_dirs with
  | [] => xraise (of_exn IndexError)
  | data_dir0 :: _ =>
      act (chdir Sys data_dir0) ;;~
      cbins <~ ask (fun w => glob Sys w "*.cbin") ;;
      wavs <~ ask (fun w => glob Sys w "*.wav") ;;
      match cbins, wavs with
      | _ :: _, _ :: _ => xraise (of_exn ValueError)
      | _ :: _, [] => xret (Some "cbin"%string)
      | [], _ :: _ => xret (Some "wav"%string)
      | [], [] => xret None
      end
  end.

(** Lines 209-212: [search_str] is bound for the two known formats only. *)
Definition search_str_of (file_format : option string) : option string :=
  if format_is file_format "cbin" then Some "*.cbin"%string
  else if format_is file_format "wav" then Some "*.wav"%string
  else None.

(** Lines 213-216. *)
Fixpoint glob_audio_files (search_str : option string) (data_dirs : list string)
  : X (list string) :=
  match data_dirs with
  | [] => xret []
  | data_dir :: rest =>
      search_str' <~ lift (read_local "search_str" search_str) ;;
      found <~ ask (fun w => glob Sys w (path_join Sys data_dir search_str')) ;;
      audio_files <~ glob_audio_files search_str rest ;;
      xret (found ++ audio_files)
  end.

(** Lines 218-238: one audio file is segmented, and every segment gets the
    label ['-']. *)
Definition segment_file (self : FeatureExtractor Sys)
    (file_format : option string) (audio_file : string) : M annot :=
  ra <- (if format_is file_format "cbin" then ret (load_cbin E audio_file)
         else if format_is file_format "wav" then
           let (samp_freq, raw_audio) := wavfile_read E audio_file in
           ret (raw_audio, samp_freq)
         else raise (UnboundLocalError "raw_audio")) ;;
  let (raw_audio, samp_freq) := ra : Audio E * Z in
  params <- match segment_params self with
            | Some params => ret params
            | None => raise AttributeError
            end ;;
  let segment_dict := segment_audio Sys params raw_audio samp_freq in
  let fake_labels :=
    labels_arr (repeat "-"%char (length (seg_onsets_s segment_dict))) in
  match seg_onsets_Hz segment_dict with
  | Some onsets_Hz =>
      offsets_Hz <- read_key "offsets_Hz" (seg_offsets_Hz segment_dict) ;;
      ret {| an_filename := audio_file;
             an_labels := fake_labels;
             an_onsets_s := seg_onsets_s segment_dict;
             an_offsets_s := seg_offsets_s segment_dict;
             an_onsets_Hz := Some onsets_Hz;
             an_offsets_Hz := Some offsets_Hz |}
  | None =>
      ret {| an_filename := audio_file;
             an_labels := fake_labels;
             an_onsets_s := seg_onsets_s segment_dict;
             an_offsets_s := seg_offsets_s segment_dict;
             an_onsets_Hz := None;
             an_offsets_Hz := None |}
  end.

Fixpoint segment_files (self : FeatureExtractor Sys)
    (file_format : option string) (audio_files : list string)
  : M (list annot) :=
  match audio_files with
  | [] => ret []
  | audio_file :: rest =>
      annotation_dict <- segment_file self file_format audio_file ;;
      annotation_list <- segment_files self file_format rest ;;
      ret (annotation_dict :: annotation_list)
  end.

(** Lines 246-268: the annotation files of every directory;
    [os.path.join(data_dir, '..', 'Annotation.xml')] is two joins. *)
Fixpoint find_annotation_files (file_format : option string)
    (data_dirs : list string) : X (list string * list (list string)) :=
  match data_dirs with
  | [] => xret ([], [])
  | data_dir :: rest =>
      let notmat_search_str := path_join Sys data_dir "*.not.mat" in
      notmats_this_dir <~ ask (fun w => glob Sys w notmat_search_str) ;;
      here <~
        match notmats_this_dir with
        | _ :: _ => xret (notmats_this_dir, [])
        | [] =>
            if format_is file_format "cbin" then xraise (of_exn ValueError)
            else if format_is file_format "wav" then
              annot_xml <~
                ask (fun w => glob Sys w
                       (path_join Sys (path_join Sys data_dir "..")
                                  "Annotation.xml")) ;;
              match annot_xml with
              | _ :: _ => xret ([], [annot_xml])
              | [] => xraise (of_exn ValueError)
              end
            else xret ([], [])
        end ;;
      more <~ find_annotation_files file_format rest ;;
      xret (fst here ++ fst more, snd here ++ snd more)
  end.

(** Lines 271-274. *)
Fixpoint read_notmats (notmats : list string) : X (list annot) :=
  match notmats with
  | [] => xret []
  | notmat :: rest =>
      annotation_dict <~ look (notmat_to_annot_dict Sys notmat) ;;
      annotation_list <~ read_notmats rest ;;
      xret (annotation_dict :: annotation_list)
  end.

(** Lines 276-279. *)
Fixpoint read_annot_xmls (annot_xmls : list (list string)) : X (list annot) :=
  match annot_xmls with
  | [] => xret []
  | annot_xml :: rest =>
      annotation_csv <~ call (to_csv Sys annot_xml) ;;
      these <~ look (csv_to_list Sys annotation_csv) ;;
      annotation_list <~ read_annot_xmls rest ;;
      xret (these ++ annotation_list)
  end.

(** Lines 171-285: the file format and [annotation_list], which stays
    unbound when neither [data_dirs] nor [annotation_file] is given. *)
Definition get_annotation_list (self : FeatureExtractor Sys)
    (data_dirs : option (list string)) (data_dirs_validated : bool)
    (file_format : option string) (annotation_file : option string)
    (segment : bool) : X (option string * option (list annot)) :=
  if truthy_list data_dirs then
    let given := match data_dirs with Some l => l | None => [] end in
    data_dirs <~ (if data_dirs_validated then xret given
                  else validate_data_dirs given) ;;
    file_format <~ match file_format with
                   | None => discover_file_format data_dirs
                   | Some _ => xret file_format
                   end ;;
    annotation_list <~
      (if segment then
         audio_files <~ glob_audio_files (search_str_of file_format) data_dirs ;;
         lift (segment_files self file_format audio_files)
       else
         found <~ find_annotation_files file_format data_dirs ;;
         from_notmats <~ read_notmats (fst found) ;;
         from_xmls <~ read_annot_xmls (snd found) ;;
         xret (from_notmats ++ from_xmls)) ;;
    xret (file_format, Some annotation_list)
  else if truthy_str annotation_file then
    annotation_list <~
      look (csv_to_annot_list Sys
              (match annotation_file with Some f => f | None => ""%string end)) ;;
    xret (file_format, Some annotation_list)
  else xret (file_format, None).

(** Lines 295-340: the loop of [extract] over [annotation_list], with the
    reads of the keys of every entry (lines 299-302). *)
Fixpoint extract_files (feature_list : list string) (labels_to_use : string)
    (annotation_list : list annot) (st : aggregate E) : M (aggregate E) :=
  match annotation_list with
  | [] => ret st
  | annotation_dict :: rest =>
      onsets_Hz <- read_key "onsets_Hz" (an_onsets_Hz annotation_dict) ;;
      offsets_Hz <- read_key "offsets_Hz" (an_offsets_Hz annotation_dict) ;;
      r <- _from_file E feature_list (an_filename annotation_dict)
                      (an_labels annotation_dict) onsets_Hz offsets_Hz
                      labels_to_use ;;
      st' <- extract_body st (an_filename annotation_dict) r ;;
      extract_files feature_list labels_to_use rest st'
  end.

(** Lines 342-408: the summary file.  [os.path.join] raises on an
    [output_dir] that is [None]. *)
Definition make_summary (self : FeatureExtractor Sys) (labels_to_use : string)
    (file_format : option string) (output_dir : option string)
    (annotation_list : list annot) (st : aggregate E)
  : X (feature_file_dict E) :=
  ts <~ ask (timestamp Sys) ;;
  feature_file <~
    match output_dir with
    | Some dir => xret (path_join Sys dir ("features_created_" ++ ts)%string)
    | None => xraise TypeError
    end ;;
  params <~ match segment_params self with
            | Some params => xret params
            | None => xraise (of_exn AttributeError)
            end ;;
  counted <~ lift (num_samples_block st) ;;
  let feature_file_dict :=
    {| sd_labels := all_labels st;
       sd_onsets_Hz := all_onsets_Hz st;
       sd_offsets_Hz := all_offsets_Hz st;
       sd_feature_list := feature_list self;
       sd_spect_params := spect_params self;
       sd_segment_params := params;
       sd_labels_to_use := labels_to_use;
       sd_file_format := file_format;
       sd_songfiles := songfiles st;
       sd_songfile_IDs := songfile_IDs st;
       sd_all_sampfreqs := all_sampfreqs st;
       sd_annotation_list := annotation_list;
       sd_feature_extractor := self;
       sd_counted := counted;
       sd_groups := match features_from_all_files st with
                    | Some _ => group_attributes self
                    | None => None
                    end |} in
  act (joblib_dump feature_file_dict feature_file) ;;~
  xret counted.

(** Lines 414-415: the tensors are the lists of the loop, or the arrays that
    the summary stored under the same keys of the same dict. *)
Definition returned_inputs (summary : option (feature_file_dict E))
    (st : aggregate E) : option (inputs_value E) :=
  match neuralnet_inputs_all_files st with
  | Some lists =>
      Some match summary with
           | Some counted =>
               match ff_neuralnet_inputs counted with
               | Some arrays => as_arrays arrays
               | None => as_lists lists
               end
           | None => as_lists lists
           end
  | None => None
  end.

(** [extract] (lines 142-416); [None] is the return value without a
    [return] statement. *)
Definition extract (self : FeatureExtractor Sys) (labels_to_use : string)
    (data_dirs : option (list string)) (data_dirs_validated : bool)
    (file_format : option string) (annotation_file : option string)
    (segment : bool) (output_dir : option string)
    (make_output_subdir make_summary_file return_extract_dict : bool)
  : X (option (return_dict E)) :=
  (* lines 142-145 *)
  (if truthy_list data_dirs && truthy_str annotation_file
   then xraise (of_exn ValueError) else xret tt) ;;~
  (* lines 147-151 *)
  (if segment then
     match segment_params self with
     | None => xraise (of_exn ValueError)
     | Some _ => xret tt
     end
   else xret tt) ;;~
  output_dir <~ prepare_output_dir output_dir make_output_subdir ;;
  found <~ get_annotation_list self data_dirs data_dirs_validated file_format
                               annotation_file segment ;;
  let file_format := fst found in
  (* line 287 *)
  annotation_list <~ lift (read_local "annotation_list" (snd found)) ;;
  st <~ lift (extract_files (feature_list self) labels_to_use annotation_list
                            (aggregate0 E)) ;;
  summary <~
    (if make_summary_file then
       counted <~ make_summary self labels_to_use file_format output_dir
                               annotation_list st ;;
       xret (Some counted)
     else xret None) ;;
  (* lines 410-416 *)
  xret (if return_extract_dict then
          Some {| rd_labels := all_labels st;
                  rd_features := features_from_all_files st;
                  rd_neuralnet_inputs := returned_inputs summary st |}
        else None).

End Extract.

Arguments X {E} Sys A.
Arguments xret {E Sys A} a.
Arguments xraise {E Sys A} e.
Arguments xbind {E Sys A B} m k : simpl never.
Arguments ask {E Sys A} f.
Arguments act {E Sys} f.
Arguments look {E Sys A} f.
Arguments call {E Sys A} f.
Arguments lift {E Sys A} m.
Arguments __init__ {E Sys}.
Arguments prepare_output_dir {E} Sys output_dir make_output_subdir.
Arguments validate_data_dirs {E} Sys data_dirs.
Arguments discover_file_format {E} Sys data_dirs.
Arguments glob_audio_files {E} Sys search_str data_dirs.
Arguments segment_file {E Sys} self file_format audio_file.
Arguments segment_files {E Sys} self file_format audio_files.
Arguments find_annotation_files {E} Sys file_format data_dirs.
Arguments read_notmats {E} Sys notmats.
Arguments read_annot_xmls {E} Sys annot_xmls.
Arguments get_annotation_list {E Sys} self data_dirs data_dirs_validated
  file_format annotation_file segment.
Arguments make_summary {E Sys} joblib_dump self labels_to_use file_format
  output_dir annotation_list st.
Arguments returned_inputs {E} summary st.
Arguments extract {E Sys} joblib_dump self labels_to_use data_dirs
  data_dirs_validated file_format annotation_file segment output_dir
  make_output_subdir make_summary_file return_extract_dict.

Notation "x <~ m ;; k" := (xbind m (fun x => k))
  (at level 61, m at next level, right associativity).
Notation "m ;;~ k" := (xbind m (fun _ => k))
  (at level 61, right associativity).

(** What a run of [extract] leaves, records and gives. *)
Definition world_after {W A} (r : (W * list event) * (error + A)) : W :=
  fst (fst r).
Definition events_of {W A} (r : (W * list event) * (error + A)) : list event :=
  snd (fst r).
Definition result_of {W A} (r : (W * list event) * (error + A)) : error + A :=
  snd r.

(** An entry of [annotation_list] that has both sample keys, as the loop of
    the claims takes it. *)
Definition complete (a : annot) : option annotation_dict :=
  match an_onsets_Hz a, an_offsets_Hz a with
  | Some onsets_Hz, Some offsets_Hz =>
      Some {| ann_filename := an_filename a; ann_labels := an_labels a;
              ann_onsets_Hz := onsets_Hz; ann_offsets_Hz := offsets_Hz |}
  | _, _ => None
  end.

(** Every label of the entry is ['-'], as for a segmented file. *)
Definition fake_labelled (a : annot) : Prop :=
  exists n, an_labels a = labels_arr (repeat "-"%char n).

(* ------------------------------------------------------------------ *)
(** ** A concrete system, for running [extract]

    The world is the working directory, the directories that exist, what
    [glob] finds for a pattern (by its absolute form) and the files that
    [joblib.dump] wrote.  The segmenter finds two segments in every file,
    and gives no sample positions when [segment_params] has the key
    ["amp"]; every annotation file annotates three segments [a], [b], [c]. *)

Module DemoSystem.

Record world : Type := {
  cwd : string;
  directories : list string;
  listing : dict (list string);
  saved : list string
}.

Definition absolute (w : world) (path : string) : string :=
  if prefix "/" path then path else (cwd w ++ "/" ++ path)%string.

Definition is_dir (w : world) (path : string) : bool :=
  existsb (String.eqb (absolute w path)) (directories w).

Definition find (w : world) (pattern : string) : list string :=
  match dict_get (listing w) (absolute w pattern) with
  | Some l => l
  | None => []
  end.

Definition join (a b : string) : string :=
  if prefix "/" b then b
  else if String.eqb a "" then b
  else (a ++ "/" ++ b)%string.

Fixpoint last_slash (s : string) (i best : nat) : nat :=
  match s with
  | EmptyString => best
  | String c s' => last_slash s' (S i) (if Ascii.eqb c "/" then i else best)
  end.

Definition parent (path : string) : string :=
  substring 0 (last_slash path 0 0) path.

Definition segments (params : dict Z) : segment_dict :=
  let with_Hz (l : list Z) :=
    match dict_get params "amp" with
    | Some _ => None
    | None => Some l
    end in
  {| seg_onsets_s := [Num 0; Num 1];
     seg_offsets_s := [Num 1; Num 2];
     seg_onsets_Hz := with_Hz [0; 32000]%Z;
     seg_offsets_Hz := with_Hz [16000; 48000]%Z |}.

Definition annotated (filename : string) : annot :=
  {| an_filename := filename;
     an_labels := labels_arr ["a"; "b"; "c"]%char;
     an_onsets_s := [Num 0; Num 1; Num 2];
     an_offsets_s := [Num 1; Num 2; Num 3];
     an_onsets_Hz := Some [0; 10; 20]%Z;
     an_offsets_Hz := Some [5; 15; 25]%Z |}.

Definition E : Collaborators := Demo.env false.

Definition sys : System E :=
  {| World := world;
     Param := Z;
     SpectParams := unit;
     GroupDict := list (nat * string);
     getcwd := cwd;
     chdir := fun path w =>
       if is_dir w path then
         inr {| cwd := absolute w path; directories := directories w;
                listing := listing w; saved := saved w |}
       else inl OSError;
     isdir := is_dir;
     makedirs := fun path w =>
       inr {| cwd := cwd w; directories := absolute w path :: directories w;
              listing := listing w; saved := saved w |};
     glob := find;
     abspath := absolute;
     normpath := fun path => path;
     path_join := join;
     dirname := parent;
     timestamp := fun _ => "170101_120000"%string;
     segment_audio := fun params _ _ => segments params;
     notmat_to_annot_dict := fun notmat _ =>
       inr (annotated (substring 0 (String.length notmat - 8) notmat));
     to_csv := fun _ w => inr ("annotation.csv"%string, w);
     csv_to_list := fun _ _ => inr [];
     csv_to_annot_list := fun _ _ => inr [annotated "/data/bird1/a.cbin"] |}.

Definition dump (d : summary_dict E sys) (feature_file : string) (w : world)
  : error + world :=
  inr {| cwd := cwd w; directories := directories w; listing := listing w;
         saved := feature_file :: saved w |}.

(** A world with one directory of one [.cbin] file and its annotation, and
    one directory of nothing. *)
Definition world0 : world :=
  {| cwd := "/home/user";
     directories := ["/data/bird1"; "/data/empty"]%string;
     listing := [("/data/bird1/*.cbin", ["/data/bird1/a.cbin"]);
                 ("/data/bird1/*.not.mat", ["/data/bird1/a.cbin.not.mat"])]%string;
     saved := [] |}.

(** An extractor with segmenting parameters, and one without. *)
Definition segmenting : FeatureExtractor sys :=
  @Build_FeatureExtractor E sys tt (Some [("threshold", 1500%Z)]%string)
                          ["duration"; "amplitude"]%string None.

Definition plain : FeatureExtractor sys :=
  @Build_FeatureExtractor E sys tt None ["duration"; "amplitude"]%string None.

End DemoSystem.

(* ------------------------------------------------------------------ *)
(** ** Vocabulary for the calls of one run of [_from_file] *)

(** The call of a feature that needs no spectrogram: one call of its
    function, for a name of the multiple-syllable or of the neural-net
    registry that is not a single-syllable feature. *)
Definition other_events (E : Collaborators) (name : string) : list event :=
  match single_syl_features_switch_case_dict E name with
  | Some _ => []
  | None =>
      match multiple_syl_features_switch_case_dict E name with
      | Some _ => [ev_multiple name]
      | None =>
          match neural_net_features_switch_case_dict E name with
          | Some _ => [ev_neuralnet name]
          | None => []
          end
      end
  end.

(** The positions of the syllables of a collection that have a spectrogram. *)
Definition with_spect (E : Collaborators) (c : list (Syl E)) : list nat :=
  map fst (filter (fun p => negb (spect_is_nan E (snd p))) (enumerate c)).

(** The calls of a feature when its round works on the collection [c]: a
    single-syllable feature is called on every syllable of [c] that has a
    spectrogram, in their order. *)
Definition feature_events (E : Collaborators) (c : list (Syl E)) (name : string)
  : list event :=
  match single_syl_features_switch_case_dict E name with
  | Some _ => map (ev_single name) (with_spect E c)
  | None => other_events E name
  end.

(** [s] is the first single-syllable feature of [feature_list]. *)
Definition first_single (E : Collaborators) (feature_list pre : list string)
    (s : string) (post : list string) : Prop :=
  feature_list = pre ++ s :: post
  /\ forallb (fun name => negb (is_single_syl_feature E name)) pre = true
  /\ is_single_syl_feature E s = true.

(** What [make_syls] gives on the decoded file [d] and the retained
    segments (lines 517-522). *)
Definition collection (E : Collaborators) (d : Audio E * Z) (labels : list ascii)
    (onsets_Hz offsets_Hz : list Z) (mask : list bool) : list (Syl E) :=
  make_syls E (fst d) (snd d) (select labels mask) (select onsets_Hz mask)
            (select offsets_Hz mask).

(** The local [syls] when the feature loop has gone through the features
    [before], the first rounds of the loop over any list that starts with
    them: [Some None] when it is not bound, [None] when the rounds raised. *)
Definition syls_after (E : Collaborators) (dec : option (Audio E * Z))
    (labels : list ascii) (onsets_Hz offsets_Hz : list Z) (mask : list bool)
    (before : list string) : option (option (list (Syl E))) :=
  match outcome (feature_loop E dec labels onsets_Hz offsets_Hz mask
                              (enumerate before) (locals0 E)) with
  | inr st => Some (syls st)
  | inl _ => None
  end.

(* ------------------------------------------------------------------ *)
(** ** Laws of the builder monad *)

Lemma bind_ret_l {A B} (a : A) (k : A -> M B) : bind (ret a) k = k a.
Proof. unfold bind, ret. destruct (k a); reflexivity. Qed.

Lemma bind_raise {A B} (e : exn) (k : A -> M B) : bind (raise e) k = raise e.
Proof. reflexivity. Qed.

Lemma bind_outcome_inl {A B} (m : M A) (k : A -> M B) e :
  outcome m = inl e -> outcome (bind m k) = inl e.
Proof. destruct m as [t [e'|a]]; unfold bind; simpl; intros H; [congruence | discriminate]. Qed.

Lemma bind_inr {A B} (m : M A) (k : A -> M B) t a :
  m = (t, inr a) -> bind m k = (t ++ fst (k a), snd (k a)).
Proof. intros ->. unfold bind. destruct (k a); reflexivity. Qed.

Lemma bind_pair_inr {A B} t (a : A) (k : A -> M B) :
  bind (t, inr a) k = (t ++ fst (k a), snd (k a)).
Proof. now apply bind_inr. Qed.

Lemma bind_inl {A B} (m : M A) (k : A -> M B) t e :
  m = (t, inl e) -> bind m k = (t, inl e).
Proof. intros ->. reflexivity. Qed.

Lemma bind_ext {A B} (m : M A) (k k' : A -> M B) :
  (forall a, k a = k' a) -> bind m k = bind m k'.
Proof. intros H. destruct m as [t [e|a]]; unfold bind; [reflexivity|]. now rewrite H. Qed.

Lemma bind_assoc {A B C} (m : M A) (k : A -> M B) (k' : B -> M C) :
  bind (bind m k) k' = bind m (fun a => bind (k a) k').
Proof.
  destruct m as [t [e|a]]; unfold bind; [reflexivity|].
  destruct (k a) as [t1 [e|b]]; [reflexivity|].
  destruct (k' b) as [t2 r]. now rewrite app_assoc.
Qed.

Lemma outcome_bind {A B} (m : M A) (k : A -> M B) :
  outcome (bind m k) =
  match outcome m with
  | inl e => inl e
  | inr a => outcome (k a)
  end.
Proof. destruct m as [t [e|a]]; unfold bind; simpl; [reflexivity|]. destruct (k a); reflexivity. Qed.

Lemma trace_bind {A B} (m : M A) (k : A -> M B) :
  trace (bind m k) =
  match outcome m with
  | inl _ => trace m
  | inr a => trace m ++ trace (k a)
  end.
Proof. destruct m as [t [e|a]]; unfold bind; simpl; [reflexivity|]. destruct (k a); reflexivity. Qed.

(* ------------------------------------------------------------------ *)
(** ** The label mask *)

Lemma mask_all_array (l : list ascii) :
  use_these_labels_bool (labels_arr l) "all" = ret (repeat true (length l)).
Proof. reflexivity. Qed.

Lemma mask_label_set (labels : labels_arg) (labels_to_use : string) :
  labels_to_use <> "all" ->
  use_these_labels_bool labels labels_to_use
  = ret (map (fun label => label_in label labels_to_use) (labels_iter labels)).
Proof.
  intros H. unfold use_these_labels_bool.
  destruct (String.eqb_spec labels_to_use "all") as [Heq|_]; [contradiction|reflexivity].
Qed.

Lemma select_repeat_true {A} (a : list A) : select a (repeat true (length a)) = a.
Proof. induction a as [|x a IH]; simpl; [reflexivity|now rewrite IH]. Qed.

Lemma select_map_filter {A} (p : A -> bool) (a : list A) :
  select a (map p a) = filter p a.
Proof.
  induction a as [|x a IH]; simpl; [reflexivity|].
  destruct (p x); now rewrite IH.
Qed.

Lemma mask_index_same_length {A B} (a : list A) (b : list B) (mask : list bool) :
  length a = length mask -> mask_index a mask = ret (select a mask).
Proof. intros H. unfold mask_index. now rewrite H, Nat.eqb_refl. Qed.

(** C10: in [_from_file] the mask is computed (lines 486-490) before a
    plain-string [labels] is turned into an array (lines 491-492).  With
    [labels_to_use = "all"] the mask comes from [labels.shape]: an array of
    labels gets the all-true mask, a plain string makes the builder fail
    with an attribute error, whatever the file and the features.  With a
    label set the mask is computed character by character and the builder
    does on the plain string what it does on the array of its characters. *)
Theorem from_file_mask_before_conversion :
  forall (E : Collaborators) (feature_list : list string) (filename : string)
         (s : string) (onsets_Hz offsets_Hz : list Z) (labels_to_use : string),
    use_these_labels_bool (labels_arr (list_ascii_of_string s)) "all"
      = ret (repeat true (String.length s))
    /\ _from_file E feature_list filename (labels_str s) onsets_Hz offsets_Hz "all"
       = raise AttributeError
    /\ (labels_to_use <> "all" ->
        use_these_labels_bool (labels_str s) labels_to_use
          = ret (map (fun label => label_in label labels_to_use)
                     (list_ascii_of_string s))
        /\ _from_file E feature_list filename (labels_str s)
                      onsets_Hz offsets_Hz labels_to_use
           = _from_file E feature_list filename
                        (labels_arr (list_ascii_of_string s))
                        onsets_Hz offsets_Hz labels_to_use).
Proof.
  intros E fl filename s on off ltu. split; [|split].
  - rewrite mask_all_array. f_equal. f_equal.
    clear. induction s as [|c s IH]; simpl; [reflexivity|now rewrite IH].
  - reflexivity.
  - intros Hne. split.
    + now rewrite mask_label_set.
    + unfold _from_file. now rewrite !mask_label_set.
Qed.

Lemma from_file_mask_before_conversion_witness :
  "ab" <> "all"
  /\ _from_file (Demo.env true) ["amplitude"] "bird.cbin" (labels_str "aabc")
                [0; 10; 20; 30]%Z [5; 15; 25; 35]%Z "all"
     = raise AttributeError
  /\ _from_file (Demo.env true) ["amplitude"] "bird.cbin" (labels_str "aabc")
                [0; 10; 20; 30]%Z [5; 15; 25; 35]%Z "ab"
     = _from_file (Demo.env true) ["amplitude"] "bird.cbin"
                  (labels_arr ["a"; "a"; "b"; "c"]%char)
                  [0; 10; 20; 30]%Z [5; 15; 25; 35]%Z "ab".
Proof.
  assert (Hne : "ab" <> "all") by discriminate.
  split; [exact Hne|].
  destruct (from_file_mask_before_conversion (Demo.env true) ["amplitude"]
              "bird.cbin" "aabc" [0; 10; 20; 30]%Z [5; 15; 25; 35]%Z "ab")
    as [_ [Hall Hset]].
  split; [exact Hall|].
  exact (proj2 (Hset Hne)).
Defined.

Lemma bind_inv {A B} (m : M A) (k : A -> M B) t b :
  bind m k = (t, inr b) ->
  exists t1 a t2, m = (t1, inr a) /\ k a = (t2, inr b) /\ t = t1 ++ t2.
Proof.
  destruct m as [t1 [e|a]]; unfold bind; [discriminate|].
  destruct (k a) as [t2 r] eqn:Hk. intros H. inversion H; subst.
  exists t1, a, t2. repeat split; assumption.
Qed.

Lemma mask_index_inv {A} (a : list A) (mask : list bool) t r :
  mask_index a mask = (t, inr r) ->
  t = [] /\ r = select a mask /\ length a = length mask.
Proof.
  unfold mask_index. destruct (Nat.eqb_spec (length a) (length mask)) as [Hl|Hl].
  - intros H. inversion H. auto.
  - discriminate.
Qed.

(** What a returned [extract_dict] holds of the segments: the entries of
    [labels], [onsets_Hz] and [offsets_Hz] that the mask selects, in their
    order. *)
Lemma from_file_retained_segments :
  forall (E : Collaborators) feature_list filename labels onsets_Hz offsets_Hz
         labels_to_use t ed,
    _from_file E feature_list filename labels onsets_Hz offsets_Hz labels_to_use
      = (t, inr (Some ed)) ->
    exists mask,
      use_these_labels_bool labels labels_to_use = ret mask
      /\ ed_labels ed = select (labels_iter labels) mask
      /\ ed_onsets_Hz ed = select onsets_Hz mask
      /\ ed_offsets_Hz ed = select offsets_Hz mask
      /\ length onsets_Hz = length mask
      /\ length offsets_Hz = length mask.
Proof.
  intros E fl filename labels on off ltu t ed H.
  unfold _from_file in H.
  apply bind_inv in H. destruct H as (t1 & mask & t2 & Hm & H & _).
  assert (Hmask : use_these_labels_bool labels ltu = ret mask).
  { revert Hm. unfold use_these_labels_bool.
    destruct (String.eqb ltu "all"); [destruct labels|]; intros Hm;
      inversion Hm; reflexivity. }
  exists mask. split; [exact Hmask|].
  destruct (np_any mask); simpl in H.
  - apply bind_inv in H. destruct H as (? & st & ? & _ & H & _).
    apply bind_inv in H. destruct H as (? & l & ? & Hl & H & _).
    apply bind_inv in H. destruct H as (? & o1 & ? & Ho1 & H & _).
    apply bind_inv in H. destruct H as (? & o2 & ? & Ho2 & H & _).
    apply bind_inv in H. destruct H as (? & sf & ? & _ & H & _).
    apply mask_index_inv in Hl, Ho1, Ho2.
    destruct Hl as (_ & -> & _), Ho1 as (_ & -> & L1), Ho2 as (_ & -> & L2).
    inversion H; subst; simpl. auto.
  - inversion H.
Qed.

(** With an array of labels and ["all"] every segment is retained; with a
    label set the retained segments are those whose label is in the set, in
    their order. *)
Lemma from_file_label_filter :
  forall (E : Collaborators) feature_list filename labels onsets_Hz offsets_Hz
         labels_to_use t ed,
    _from_file E feature_list filename labels onsets_Hz offsets_Hz labels_to_use
      = (t, inr (Some ed)) ->
    (forall l, labels = labels_arr l -> labels_to_use = "all" ->
       ed_labels ed = l /\ ed_onsets_Hz ed = onsets_Hz
       /\ ed_offsets_Hz ed = offsets_Hz)
    /\ (labels_to_use <> "all" ->
        let keep := fun label => label_in label labels_to_use in
        ed_labels ed = filter keep (labels_iter labels)
        /\ ed_onsets_Hz ed = select onsets_Hz (map keep (labels_iter labels))
        /\ ed_offsets_Hz ed = select offsets_Hz (map keep (labels_iter labels))).
Proof.
  intros E fl filename labels on off ltu t ed H.
  destruct (from_file_retained_segments _ _ _ _ _ _ _ _ _ H)
    as (mask & Hm & Hl & Ho1 & Ho2 & L1 & L2).
  split.
  - intros l -> ->. rewrite mask_all_array in Hm. inversion Hm; subst mask.
    simpl in Hl. rewrite select_repeat_true in Hl.
    rewrite repeat_length in L1, L2.
    rewrite <- L1 in Ho1. rewrite <- L2 in Ho2.
    rewrite select_repeat_true in Ho1, Ho2. auto.
  - intros Hne keep. rewrite (mask_label_set _ _ Hne) in Hm.
    inversion Hm; subst mask. rewrite select_map_filter in Hl. auto.
Qed.

(** C3, at the input where the code departs from it: the segments labeled
    "aabc", given as a plain string, with [labels_to_use = "all"].  No
    segment is retained: the builder fails with an attribute error, for any
    collaborators, feature list, file name, onsets and offsets. *)
Theorem from_file_all_on_plain_string :
  forall (E : Collaborators) (feature_list : list string) (filename : string)
         (onsets_Hz offsets_Hz : list Z),
    _from_file E feature_list filename (labels_str "aabc") onsets_Hz offsets_Hz
               "all"
    = raise AttributeError.
Proof. reflexivity. Qed.

(** The two cases of the specification's label-filtering example, run. *)
Example label_filter_aabc :
  option_map (fun ed => (ed_labels ed, ed_onsets_Hz ed, ed_offsets_Hz ed))
    (match outcome (_from_file (Demo.env true) ["amplitude"] "bird.cbin"
                      (labels_str "aabc")
                      [0; 10; 20; 30]%Z [5; 15; 25; 35]%Z "ab") with
     | inr r => r
     | inl _ => None
     end)
  = Some (["a"; "a"; "b"]%char, [0; 10; 20]%Z, [5; 15; 25]%Z).
Proof. reflexivity. Qed.

Example label_filter_ccc :
  _from_file (Demo.env true) ["amplitude"] "bird.cbin" (labels_str "ccc")
             [0; 10; 20]%Z [5; 15; 25]%Z "ab"
  = ([ev_warn "bird.cbin" "ab"], inr None).
Proof. reflexivity. Qed.

(* ------------------------------------------------------------------ *)
(** ** Files without a matching label *)

Lemma np_any_false_iff (mask : list bool) :
  np_any mask = false <-> forall b, In b mask -> b = false.
Proof.
  unfold np_any. induction mask as [|b mask IH]; simpl.
  - split; [intros _ b []|reflexivity].
  - rewrite orb_false_iff, IH. split.
    + intros [Hb H] b' [<-|Hin]; auto.
    + intros H. split; [apply H; now left|]. intros b' Hin. apply H. now right.
Qed.

(** With a label set, the mask has no true entry exactly when no label of
    the file is in the set. *)
Lemma no_match_mask (labels : labels_arg) (labels_to_use : string) :
  labels_to_use <> "all" ->
  (forall label, In label (labels_iter labels) -> label_in label labels_to_use = false) ->
  exists mask, use_these_labels_bool labels labels_to_use = ret mask
               /\ np_any mask = false.
Proof.
  intros Hne Hno. eexists. split; [apply mask_label_set, Hne|].
  apply np_any_false_iff. intros b Hin. apply in_map_iff in Hin.
  destruct Hin as (label & <- & Hin). now apply Hno.
Qed.

(** C4: when the label mask of a file has no true entry, [_from_file]
    issues its warning and returns [None], without raising; the loop of
    [extract] leaves every accumulator as it was (labels, onsets, offsets,
    sample rates, file names, file identifiers and their counter, feature
    rows, tensors) and goes on with the remaining files. *)
Theorem no_match_file_is_skipped :
  forall (E : Collaborators) (feature_list : list string) (a : annotation_dict)
         (labels_to_use : string) (mask : list bool),
    use_these_labels_bool (ann_labels a) labels_to_use = ret mask ->
    np_any mask = false ->
    _from_file E feature_list (ann_filename a) (ann_labels a) (ann_onsets_Hz a)
               (ann_offsets_Hz a) labels_to_use
      = ([ev_warn (ann_filename a) labels_to_use], inr None)
    /\ (forall st : aggregate E, extract_body st (ann_filename a) None = ret st)
    /\ (forall (rest : list annotation_dict) (st : aggregate E),
          extract_loop E feature_list labels_to_use (a :: rest) st
          = (ev_warn (ann_filename a) labels_to_use
               :: trace (extract_loop E feature_list labels_to_use rest st),
             outcome (extract_loop E feature_list labels_to_use rest st))).
Proof.
  intros E fl a ltu mask Hm Hany.
  assert (Hfile : _from_file E fl (ann_filename a) (ann_labels a) (ann_onsets_Hz a)
                    (ann_offsets_Hz a) ltu
                  = ([ev_warn (ann_filename a) ltu], inr None)).
  { unfold _from_file. rewrite Hm, bind_ret_l, Hany. reflexivity. }
  split; [exact Hfile|]. split; [reflexivity|].
  intros rest st. simpl extract_loop. rewrite Hfile.
  unfold bind at 1. simpl extract_body. rewrite bind_ret_l.
  destruct (extract_loop E fl ltu rest st) as [t r]. reflexivity.
Qed.

Lemma no_match_file_is_skipped_witness :
  let a := {| ann_filename := "bird1.cbin"; ann_labels := labels_str "ccc";
              ann_onsets_Hz := [0; 10; 20]%Z; ann_offsets_Hz := [5; 15; 25]%Z |} in
  _from_file (Demo.env true) ["amplitude"] (ann_filename a) (ann_labels a)
             (ann_onsets_Hz a) (ann_offsets_Hz a) "ab"
  = ([ev_warn "bird1.cbin" "ab"], inr None).
Proof.
  intros a.
  exact (proj1 (no_match_file_is_skipped (Demo.env true) ["amplitude"] a "ab"
                  [false; false; false] eq_refl eq_refl)).
Defined.

(* ------------------------------------------------------------------ *)
(** ** The aggregation loop *)

Lemma trace_bind_nil {A B} (m : M A) (k : A -> M B) :
  trace m = [] -> (forall a, trace (k a) = []) -> trace (bind m k) = [].
Proof.
  intros Hm Hk. rewrite trace_bind, Hm. destruct (outcome m); [reflexivity|].
  apply Hk.
Qed.

Lemma concatenate_axis0_trace a b : trace (concatenate_axis0 a b) = [].
Proof.
  destruct a, b; simpl; try reflexivity. destruct (Nat.eqb ncols ncols0); reflexivity.
Qed.

Lemma append_inputs_trace {E} (acc : dict (list (Tensor E))) d :
  trace (append_inputs E acc d) = [].
Proof.
  induction acc as [|[k l] acc IH]; simpl; [reflexivity|].
  destruct (dict_get d k); [|reflexivity].
  apply trace_bind_nil; [exact IH|reflexivity].
Qed.

Lemma extract_body_trace {E} (st : aggregate E) filename r :
  trace (extract_body st filename r) = [].
Proof.
  destruct r as [ed|]; [|reflexivity]. unfold extract_body.
  apply trace_bind_nil.
  { unfold check_feature_inds. destruct (ed_feature_inds ed); [|reflexivity].
    destruct (feature_inds_ref st); [|reflexivity].
    destruct (array_equal l0 l); reflexivity. }
  intros ref. apply trace_bind_nil.
  { unfold add_features. destruct (ed_features_arr ed); [|reflexivity].
    destruct (features_from_all_files st); [|reflexivity].
    apply trace_bind_nil; [apply concatenate_axis0_trace|reflexivity]. }
  intros feats. apply trace_bind_nil; [|reflexivity].
  unfold add_neuralnet_inputs. destruct (ed_neuralnet_inputs_dict ed); [|reflexivity].
  destruct (neuralnet_inputs_all_files st); [|reflexivity].
  apply trace_bind_nil; [apply append_inputs_trace|reflexivity].
Qed.

Lemma aggregate_results_trace {E} (results : list (string * option (extract_dict E))) st :
  trace (aggregate_results results st) = [].
Proof.
  revert st. induction results as [|[fn r] rest IH]; intros st; simpl; [reflexivity|].
  apply trace_bind_nil; [apply extract_body_trace|apply IH].
Qed.

Lemma aggregate_results_app {E} (pre post : list (string * option (extract_dict E))) st :
  aggregate_results (pre ++ post) st
  = bind (aggregate_results pre st) (aggregate_results post).
Proof.
  revert st. induction pre as [|[fn r] pre IH]; intros st; simpl.
  - now rewrite bind_ret_l.
  - rewrite bind_assoc. apply bind_ext. intros st1. apply IH.
Qed.

Lemma array_equal_iff (a b : list nat) : array_equal a b = true <-> a = b.
Proof.
  unfold array_equal. destruct (list_eq_dec Nat.eq_dec a b); split; auto; discriminate.
Qed.

(** What one round of the loop does to the reference column map. *)
Lemma extract_body_ref {E} (st : aggregate E) filename ed t st' :
  extract_body st filename (Some ed) = (t, inr st') ->
  feature_inds_ref st' =
    match feature_inds_ref st with
    | Some ref => Some ref
    | None => ed_feature_inds ed
    end
  /\ (forall ref inds, feature_inds_ref st = Some ref ->
                       ed_feature_inds ed = Some inds -> inds = ref).
Proof.
  unfold extract_body. intros H.
  apply bind_inv in H. destruct H as (? & ref & ? & Hc & H & _).
  apply bind_inv in H. destruct H as (? & feats & ? & _ & H & _).
  apply bind_inv in H. destruct H as (? & nn & ? & _ & H & _).
  inversion H; subst; simpl. clear H.
  unfold check_feature_inds in Hc.
  destruct (ed_feature_inds ed) as [inds|], (feature_inds_ref st) as [r|];
    simpl in Hc.
  - destruct (array_equal r inds) eqn:Heq; inversion Hc; subst.
    apply array_equal_iff in Heq. split; [reflexivity|].
    intros ? ? [= <-] [= <-]. now symmetry.
  - inversion Hc. split; [reflexivity|discriminate].
  - inversion Hc. split; [reflexivity|discriminate].
  - inversion Hc. split; [reflexivity|discriminate].
Qed.

Lemma aggregate_results_ref {E} (results : list (string * option (extract_dict E))) :
  forall st t st',
    aggregate_results results st = (t, inr st') ->
    feature_inds_ref st' =
      match feature_inds_ref st with
      | Some ref => Some ref
      | None => first_feature_inds results
      end.
Proof.
  induction results as [|[fn [ed|]] rest IH]; intros st t st' H; simpl in H.
  - inversion H; subst. now destruct (feature_inds_ref st').
  - apply bind_inv in H. destruct H as (t1 & st1 & t2 & Hb & H & _).
    apply extract_body_ref in Hb. destruct Hb as [Hb _].
    rewrite (IH _ _ _ H), Hb. simpl.
    destruct (feature_inds_ref st); [reflexivity|].
    now destruct (ed_feature_inds ed).
  - rewrite bind_ret_l in H. rewrite (IH _ _ _ H). reflexivity.
Qed.

(** C2: in the loop of [extract], the column map of the first file whose
    result has one is the reference [feature_inds]; a later result whose map
    differs from it (in length or in an entry) fails the assertion "feature
    indices changed between files", which ends the whole run whatever files
    follow; a later result with the same map passes the check, and the
    reference stays. *)
Theorem feature_inds_reference_check :
  forall (E : Collaborators) (pre : list (string * option (extract_dict E)))
         (t : list event) (st : aggregate E),
    aggregate_results pre (aggregate0 E) = (t, inr st) ->
    feature_inds_ref st = first_feature_inds pre
    /\ forall (filename : string) (ed : extract_dict E) (ref inds : list nat),
         first_feature_inds pre = Some ref ->
         ed_feature_inds ed = Some inds ->
         (inds <> ref ->
          forall post,
            aggregate_results (pre ++ (filename, Some ed) :: post) (aggregate0 E)
            = (t, inl (AssertionError ftr_inds_err_msg)))
         /\ (inds = ref ->
             check_feature_inds (feature_inds_ref st) ed = ret (Some ref)
             /\ forall msg, outcome (extract_body st filename (Some ed))
                            <> inl (AssertionError msg)).
Proof.
  intros E pre t st Hpre.
  assert (Href : feature_inds_ref st = first_feature_inds pre).
  { now rewrite (aggregate_results_ref _ _ _ _ Hpre). }
  split; [exact Href|].
  intros filename ed ref inds Hfirst Hinds. rewrite Hfirst in Href.
  assert (Hcheck : check_feature_inds (feature_inds_ref st) ed
                   = if array_equal ref inds then ret (Some ref)
                     else raise (AssertionError ftr_inds_err_msg)).
  { unfold check_feature_inds. now rewrite Hinds, Href. }
  split.
  - intros Hne post. rewrite aggregate_results_app, Hpre, bind_pair_inr.
    simpl aggregate_results. unfold extract_body. rewrite Hcheck.
    destruct (array_equal ref inds) eqn:Heq.
    + apply array_equal_iff in Heq. congruence.
    + rewrite !bind_raise. simpl. now rewrite app_nil_r.
  - intros ->. rewrite Hcheck.
    assert (Heq : array_equal ref ref = true) by now apply array_equal_iff.
    rewrite Heq. split; [reflexivity|].
    intros msg. unfold extract_body. rewrite Hcheck, Heq, bind_ret_l.
    rewrite outcome_bind.
    assert (Hf : forall e, outcome (add_features (features_from_all_files st) ed) = inl e
                           -> e = ValueError).
    { unfold add_features. destruct (ed_features_arr ed) as [fa|]; [|discriminate].
      destruct (features_from_all_files st) as [all|]; [|discriminate].
      destruct all, fa; simpl; try (intros e [= <-]; reflexivity).
      destruct (Nat.eqb ncols ncols0); simpl; [discriminate|].
      intros e [= <-]; reflexivity. }
    destruct (outcome (add_features (features_from_all_files st) ed)) as [e|feats] eqn:Hof.
    { specialize (Hf e eq_refl). subst e. discriminate. }
    rewrite outcome_bind.
    destruct (outcome (add_neuralnet_inputs (neuralnet_inputs_all_files st) ed))
      as [e|nn] eqn:Hon; [|discriminate].
    unfold add_neuralnet_inputs in Hon.
    destruct (ed_neuralnet_inputs_dict ed) as [d|]; [|discriminate].
    destruct (neuralnet_inputs_all_files st) as [acc|]; [|discriminate].
    rewrite outcome_bind in Hon.
    destruct (outcome (append_inputs E acc d)) as [e'|acc'] eqn:Ha; [|discriminate].
    injection Hon as <-. clear - Ha. revert e' Ha.
    induction acc as [|[k l] acc IH]; simpl; [discriminate|].
    intros e'. destruct (dict_get d k).
    + rewrite outcome_bind. destruct (outcome (append_inputs E acc d)) eqn:Hr.
      * intros [= <-]. now apply IH.
      * discriminate.
    + intros [= <-]. discriminate.
Qed.

Lemma feature_inds_reference_check_witness :
  aggregate_results [("A.cbin", Some (Scenario.ed_width 2))] (aggregate0 Scenario.E)
    = ([], inr {| all_labels := ["a"%char]; all_onsets_Hz := [0%Z];
                  all_offsets_Hz := [5%Z]; all_sampfreqs := [32000%Z];
                  songfiles := ["A.cbin"]; songfile_IDs := [0];
                  songfile_ID_counter := 1; feature_inds_ref := Some [0; 0];
                  features_from_all_files := Some (arr2 2 [[Num 1; Num 1]]);
                  neuralnet_inputs_all_files := None |})
  /\ [0; 0; 0] <> [0; 0]
  /\ aggregate_results
       ([("A.cbin", Some (Scenario.ed_width 2))]
          ++ ("B.cbin", Some (Scenario.ed_width 3))
          :: [("C.cbin", Some (Scenario.ed_width 2))])
       (aggregate0 Scenario.E)
     = ([], inl (AssertionError ftr_inds_err_msg))
  /\ check_feature_inds (Some [0; 0]) (Scenario.ed_width 2) = ret (Some [0; 0]).
Proof.
  assert (Hpre : aggregate_results [("A.cbin", Some (Scenario.ed_width 2))]
                   (aggregate0 Scenario.E)
                 = ([], inr {| all_labels := ["a"%char]; all_onsets_Hz := [0%Z];
                      all_offsets_Hz := [5%Z]; all_sampfreqs := [32000%Z];
                      songfiles := ["A.cbin"]; songfile_IDs := [0];
                      songfile_ID_counter := 1; feature_inds_ref := Some [0; 0];
                      features_from_all_files := Some (arr2 2 [[Num 1; Num 1]]);
                      neuralnet_inputs_all_files := None |}))
    by reflexivity.
  assert (Hne : [0; 0; 0] <> [0; 0]) by discriminate.
  split; [exact Hpre|]. split; [exact Hne|].
  destruct (feature_inds_reference_check Scenario.E _ _ _ Hpre) as [_ Hcheck].
  split.
  - exact (proj1 (Hcheck "B.cbin" (Scenario.ed_width 3) [0; 0] [0; 0; 0]
                    eq_refl eq_refl) Hne [("C.cbin", Some (Scenario.ed_width 2))]).
  - exact (proj1 (proj2 (Hcheck "C.cbin" (Scenario.ed_width 2) [0; 0] [0; 0]
                           eq_refl eq_refl) eq_refl)).
Defined.

(** The loop of [extract] is the loop over the results of [_from_file]. *)
Lemma extract_loop_results {E} feature_list labels_to_use annotation_list :
  forall (st : aggregate E) t st',
    extract_loop E feature_list labels_to_use annotation_list st = (t, inr st') ->
    exists results,
      results_of feature_list labels_to_use annotation_list results
      /\ aggregate_results (combine (map ann_filename annotation_list) results) st
         = ([], inr st').
Proof.
  induction annotation_list as [|a rest IH]; intros st t st' H; simpl in H.
  - inversion H; subst. exists []. split; [constructor|reflexivity].
  - apply bind_inv in H. destruct H as (t1 & r & t2 & Hr & H & _).
    apply bind_inv in H. destruct H as (t3 & st1 & t4 & Hb & H & _).
    destruct (IH _ _ _ H) as (results & Hres & Hagg).
    exists (r :: results). split.
    + constructor; [now rewrite Hr|exact Hres].
    + simpl. pose proof (extract_body_trace st (ann_filename a) r) as Ht.
      rewrite Hb in Ht. simpl in Ht. subst t3.
      now rewrite Hb, bind_pair_inr, Hagg.
Qed.

Lemma rows_of_concatenate_axis0 a b t c :
  concatenate_axis0 a b = (t, inr c) -> rows_of c = rows_of a ++ rows_of b.
Proof.
  destruct a, b; simpl; try discriminate.
  - intros [= <- <-]. simpl. now rewrite map_app.
  - destruct (Nat.eqb ncols ncols0); [|discriminate]. now intros [= <- <-].
Qed.

(** What one kept file adds to the accumulators. *)
Lemma extract_body_accumulates {E} (st : aggregate E) filename ed t st' :
  extract_body st filename (Some ed) = (t, inr st') ->
  all_labels st' = all_labels st ++ ed_labels ed
  /\ all_onsets_Hz st' = all_onsets_Hz st ++ ed_onsets_Hz ed
  /\ all_offsets_Hz st' = all_offsets_Hz st ++ ed_offsets_Hz ed
  /\ all_sampfreqs st' = all_sampfreqs st ++ [ed_samp_freq ed]
  /\ songfiles st' = songfiles st ++ [filename]
  /\ songfile_IDs st' = songfile_IDs st
                        ++ repeat (songfile_ID_counter st) (length (ed_onsets_Hz ed))
  /\ songfile_ID_counter st' = S (songfile_ID_counter st)
  /\ rows_opt (features_from_all_files st')
     = rows_opt (features_from_all_files st) ++ rows_opt (ed_features_arr ed).
Proof.
  unfold extract_body. intros H.
  apply bind_inv in H. destruct H as (? & ref & ? & _ & H & _).
  apply bind_inv in H. destruct H as (? & feats & ? & Hf & H & _).
  apply bind_inv in H. destruct H as (? & nn & ? & _ & H & _).
  inversion H; subst; simpl. clear H.
  repeat (split; [reflexivity|]).
  unfold add_features in Hf.
  destruct (ed_features_arr ed) as [fa|]; simpl.
  - destruct (features_from_all_files st) as [all|]; simpl.
    + apply bind_inv in Hf. destruct Hf as (? & c & ? & Hc & Hf & _).
      inversion Hf; subst. simpl. eapply rows_of_concatenate_axis0, Hc.
    + now inversion Hf.
  - inversion Hf. now rewrite app_nil_r.
Qed.

Lemma aggregate_results_accumulates {E}
    (results : list (string * option (extract_dict E))) :
  forall st t st',
    aggregate_results results st = (t, inr st') ->
    let files := kept results in
    all_labels st' = all_labels st ++ flat_map (fun fe => ed_labels (snd fe)) files
    /\ all_onsets_Hz st'
       = all_onsets_Hz st ++ flat_map (fun fe => ed_onsets_Hz (snd fe)) files
    /\ all_offsets_Hz st'
       = all_offsets_Hz st ++ flat_map (fun fe => ed_offsets_Hz (snd fe)) files
    /\ all_sampfreqs st'
       = all_sampfreqs st ++ map (fun fe => ed_samp_freq (snd fe)) files
    /\ songfiles st' = songfiles st ++ map fst files
    /\ songfile_IDs st' = songfile_IDs st ++ file_ids (songfile_ID_counter st) files
    /\ songfile_ID_counter st' = songfile_ID_counter st + length files
    /\ rows_opt (features_from_all_files st')
       = rows_opt (features_from_all_files st) ++ feature_rows files.
Proof.
  induction results as [|[fn [ed|]] rest IH]; intros st t st' H; simpl in H.
  - inversion H; subst. simpl. rewrite !app_nil_r, Nat.add_0_r. tauto.
  - apply bind_inv in H. destruct H as (t1 & st1 & t2 & Hb & H & _).
    apply extract_body_accumulates in Hb.
    destruct Hb as (B1 & B2 & B3 & B4 & B5 & B6 & B7 & B8).
    destruct (IH _ _ _ H) as (I1 & I2 & I3 & I4 & I5 & I6 & I7 & I8).
    cbn zeta. simpl kept. unfold feature_rows in *. simpl.
    rewrite I1, I2, I3, I4, I5, I6, I7, I8, B1, B2, B3, B4, B5, B6, B7, B8.
    rewrite <- !app_assoc. simpl.
    repeat split; try reflexivity. lia.
  - rewrite bind_ret_l in H. apply (IH _ _ _ H).
Qed.

Lemma select_length {A B} (a : list A) (b : list B) (mask : list bool) :
  length a = length mask -> length b = length mask ->
  length (select a mask) = length (select b mask).
Proof.
  revert a b. induction mask as [|m mask IH]; intros [|x a] [|y b]; simpl;
    try discriminate; try reflexivity.
  intros [= Ha] [= Hb]. destruct m; simpl; auto.
Qed.

Lemma mask_length (labels : labels_arg) labels_to_use mask :
  use_these_labels_bool labels labels_to_use = ret mask ->
  length mask = length (labels_iter labels).
Proof.
  unfold use_these_labels_bool. destruct (String.eqb labels_to_use "all").
  - destruct labels; [|discriminate]. intros [= <-]. apply repeat_length.
  - intros [= <-]. apply length_map.
Qed.

(** The three sequences of a result of [_from_file] have one length. *)
Lemma from_file_lengths :
  forall (E : Collaborators) feature_list filename labels onsets_Hz offsets_Hz
         labels_to_use ed,
    outcome (_from_file E feature_list filename labels onsets_Hz offsets_Hz
                        labels_to_use) = inr (Some ed) ->
    length (ed_labels ed) = length (ed_onsets_Hz ed)
    /\ length (ed_offsets_Hz ed) = length (ed_onsets_Hz ed).
Proof.
  intros E fl filename labels on off ltu ed H.
  destruct (_from_file E fl filename labels on off ltu) as [t r] eqn:Hrun.
  simpl in H. subst r.
  destruct (from_file_retained_segments _ _ _ _ _ _ _ _ _ Hrun)
    as (mask & Hm & -> & -> & -> & L1 & L2).
  apply mask_length in Hm.
  split; apply select_length; congruence.
Qed.

Lemma provenance_of_file_ids {E} (files : list (string * extract_dict E)) :
  forall pfx : list string,
    map (fun id => nth id (pfx ++ map fst files) "") (file_ids (length pfx) files)
    = file_of_each_segment files.
Proof.
  unfold file_of_each_segment.
  induction files as [|[fn ed] rest IH]; intros pfx; simpl; [reflexivity|].
  rewrite map_app. f_equal.
  - rewrite map_repeat. f_equal. apply nth_middle.
  - specialize (IH (pfx ++ [fn])). rewrite <- app_assoc in IH. simpl in IH.
    rewrite length_app in IH. simpl in IH. rewrite Nat.add_1_r in IH. exact IH.
Qed.

Lemma file_ids_length {E} (files : list (string * extract_dict E)) i0 :
  length (file_ids i0 files)
  = length (flat_map (fun fe => ed_onsets_Hz (snd fe)) files).
Proof.
  revert i0. induction files as [|[fn ed] rest IH]; intros i0; simpl; [reflexivity|].
  now rewrite !length_app, repeat_length, IH.
Qed.

Lemma flat_map_length_eq {A B C} (f : A -> list B) (g : A -> list C) (l : list A) :
  Forall (fun x => length (f x) = length (g x)) l ->
  length (flat_map f l) = length (flat_map g l).
Proof.
  induction 1 as [|x l Hx _ IH]; simpl; [reflexivity|].
  now rewrite !length_app, Hx, IH.
Qed.

Lemma kept_results_lengths {E} feature_list labels_to_use annotation_list
    (results : list (option (extract_dict E))) :
  results_of feature_list labels_to_use annotation_list results ->
  Forall (fun fe => length (ed_labels (snd fe)) = length (ed_onsets_Hz (snd fe))
                    /\ length (ed_offsets_Hz (snd fe)) = length (ed_onsets_Hz (snd fe)))
         (kept (combine (map ann_filename annotation_list) results)).
Proof.
  induction 1 as [|a r rest results Hr _ IH]; simpl; [constructor|].
  destruct r as [ed|]; [|exact IH].
  constructor; [|exact IH]. simpl. eapply from_file_lengths, Hr.
Qed.

(** C6: when the loop of [extract] has gone through [annotation_list], the
    accumulated labels, onsets, offsets and feature rows are those of the
    files that were not skipped, file after file in processing order and, in
    a file, segment after segment; the file identifiers name, for each
    accumulated segment, the file it came from; and the label, onset, offset
    and identifier sequences have one length. *)
Theorem aggregation_in_lockstep :
  forall (E : Collaborators) (feature_list : list string) (labels_to_use : string)
         (annotation_list : list annotation_dict) (t : list event)
         (st : aggregate E),
    extract_loop E feature_list labels_to_use annotation_list (aggregate0 E)
      = (t, inr st) ->
    exists results : list (option (extract_dict E)),
      results_of feature_list labels_to_use annotation_list results
      /\ let files := kept (combine (map ann_filename annotation_list) results) in
         all_labels st = flat_map (fun fe => ed_labels (snd fe)) files
         /\ all_onsets_Hz st = flat_map (fun fe => ed_onsets_Hz (snd fe)) files
         /\ all_offsets_Hz st = flat_map (fun fe => ed_offsets_Hz (snd fe)) files
         /\ rows_opt (features_from_all_files st) = feature_rows files
         /\ songfiles st = map fst files
         /\ songfile_IDs st = file_ids 0 files
         /\ provenance st = file_of_each_segment files
         /\ length (all_labels st) = length (songfile_IDs st)
         /\ length (all_onsets_Hz st) = length (songfile_IDs st)
         /\ length (all_offsets_Hz st) = length (songfile_IDs st).
Proof.
  intros E fl ltu annots t st H.
  destruct (extract_loop_results _ _ _ _ _ _ H) as (results & Hres & Hagg).
  exists results. split; [exact Hres|].
  pose proof (kept_results_lengths _ _ _ _ Hres) as Hlen.
  apply aggregate_results_accumulates in Hagg. cbn zeta in *.
  set (files := kept (combine (map ann_filename annots) results)) in *.
  destruct Hagg as (A1 & A2 & A3 & _ & A5 & A6 & _ & A8). simpl in *.
  assert (Lids : length (songfile_IDs st) = length (all_onsets_Hz st)).
  { rewrite A6, A2. apply file_ids_length. }
  repeat split; try assumption.
  - unfold provenance. rewrite A5, A6. apply (provenance_of_file_ids files []).
  - rewrite Lids, A1, A2. apply flat_map_length_eq.
    eapply Forall_impl; [|exact Hlen]. intros fe Hfe. apply Hfe.
  - now symmetry.
  - rewrite Lids, A3, A2. apply flat_map_length_eq.
    eapply Forall_impl; [|exact Hlen]. intros fe Hfe. apply Hfe.
Qed.

Lemma aggregation_in_lockstep_witness :
  exists results : list (option (extract_dict Scenario.E)),
    results_of Scenario.feature_list "ab" [Scenario.file_A; Scenario.file_B] results
    /\ provenance scenario_state
       = file_of_each_segment (kept (combine ["A.cbin"; "B.cbin"] results))
    /\ length (all_labels scenario_state) = length (songfile_IDs scenario_state).
Proof.
  destruct (aggregation_in_lockstep Scenario.E Scenario.feature_list "ab"
              [Scenario.file_A; Scenario.file_B] (trace scenario_run)
              scenario_state eq_refl)
    as (results & Hres & _ & _ & _ & _ & _ & _ & Hprov & Hlen & _).
  exists results. split; [exact Hres|]. split; [exact Hprov|exact Hlen].
Defined.

(** The end-to-end scenario of the specification, run: file A with three
    retained segments, then file B with two, each with a feature array of two
    columns and the same column map. *)
Example scenario_end_to_end :
  option_map (fun a => (shape0 a, ncolumns a))
             (features_from_all_files scenario_state) = Some (5, Some 2)
  /\ feature_inds_ref scenario_state = Some [0; 1]
  /\ length (all_labels scenario_state) = 5
  /\ songfile_IDs scenario_state = [0; 0; 0; 1; 1]
  /\ provenance scenario_state
     = ["A.cbin"; "A.cbin"; "A.cbin"; "B.cbin"; "B.cbin"].
Proof. repeat split. Qed.

(* ------------------------------------------------------------------ *)
(** ** The sample count *)

Lemma concatenate_inputs_length {E} (all : dict (list (Tensor E))) t d :
  concatenate_inputs E all = (t, inr d) -> length d = length all.
Proof.
  revert t d. induction all as [|[k l] all IH]; intros t d H; simpl in H.
  - now inversion H.
  - apply bind_inv in H. destruct H as (? & c & ? & _ & H & _).
    apply bind_inv in H. destruct H as (? & rest & ? & Hr & H & _).
    inversion H; subst. simpl. f_equal. eapply IH, Hr.
Qed.

Lemma concatenate_inputs_trace {E} (all : dict (list (Tensor E))) :
  trace (concatenate_inputs E all) = [].
Proof.
  induction all as [|[k l] all IH]; simpl; [reflexivity|].
  apply trace_bind_nil; [reflexivity|]. intros c.
  apply trace_bind_nil; [exact IH|reflexivity].
Qed.

Lemma num_samples_of_inputs_ambiguous {E} (d : dict (Tensor E)) :
  2 <= length d -> num_samples_of_inputs E d = raise ValueError_num_samples.
Proof. destruct d as [|[k1 t1] [|[k2 t2] d]]; simpl; try lia; reflexivity. Qed.

(** C7: the sample count of the summary file.  With a feature array the
    count is its number of rows (whether or not there are tensors, as long
    as numpy can concatenate them).  With no feature array and tensors under
    exactly one name, the count is the size of the first dimension of that
    concatenated tensor.  With no feature array and tensors under two names
    or more, the block raises: the "can't determine number of samples" error
    once the tensors are concatenated, or numpy's error if it refuses one. *)
Theorem num_samples_derivation :
  forall (E : Collaborators) (st : aggregate E),
    (forall features feature_inds inputs,
        features_from_all_files st = Some features ->
        feature_inds_ref st = Some feature_inds ->
        concatenated_inputs st inputs ->
        num_samples_block st
        = ret {| ff_features := Some features;
                 ff_features_arr_column_IDs := Some feature_inds;
                 ff_num_samples := Some (shape0 features);
                 ff_neuralnet_inputs := inputs |})
    /\ (forall key input_list concatenated,
          features_from_all_files st = None ->
          neuralnet_inputs_all_files st = Some [(key, input_list)] ->
          concatenate_list E input_list = inr concatenated ->
          num_samples_block st
          = ret {| ff_features := None;
                   ff_features_arr_column_IDs := None;
                   ff_num_samples := Some (tensor_shape0 E concatenated);
                   ff_neuralnet_inputs := Some [(key, concatenated)] |})
    /\ (forall all,
          features_from_all_files st = None ->
          neuralnet_inputs_all_files st = Some all ->
          2 <= length all ->
          (exists e, num_samples_block st = raise e)
          /\ (forall d, concatenate_inputs E all = ret d ->
                        num_samples_block st = raise ValueError_num_samples)).
Proof.
  intros E st. split; [|split].
  - intros features inds inputs Hf Hi Hc. unfold num_samples_block.
    rewrite Hf, Hi. simpl read_local. rewrite !bind_ret_l.
    unfold concatenated_inputs in Hc.
    destruct (neuralnet_inputs_all_files st) as [all|].
    + destruct Hc as (d & Hd & ->). rewrite Hd. simpl.
      now rewrite !bind_ret_l.
    + subst inputs. now rewrite bind_ret_l.
  - intros key l c Hf Hn Hc. unfold num_samples_block.
    rewrite Hf, Hn. rewrite !bind_ret_l. simpl concatenate_inputs.
    rewrite Hc. unfold lift_exn. change (([] : list event), inr c) with (ret c).
    rewrite !bind_ret_l. simpl. now rewrite !bind_ret_l.
  - intros all Hf Hn Hlen.
    assert (Hamb : forall d, concatenate_inputs E all = ret d ->
                             num_samples_block st = raise ValueError_num_samples).
    { intros d Hd. unfold num_samples_block. rewrite Hf, Hn, bind_ret_l, Hd, bind_ret_l.
      simpl. rewrite num_samples_of_inputs_ambiguous; [reflexivity|].
      now rewrite (concatenate_inputs_length _ _ _ Hd). }
    split; [|exact Hamb].
    pose proof (concatenate_inputs_trace all) as Ht.
    destruct (concatenate_inputs E all) as [t [e|d]] eqn:Hd; simpl in Ht; subst t.
    + exists e. unfold num_samples_block. now rewrite Hf, Hn, bind_ret_l, Hd.
    + exists ValueError_num_samples. now apply (Hamb d).
Qed.

Lemma num_samples_derivation_witness :
  num_samples_block
    (with_outputs (E := Scenario.E) (Some [0; 1])
       (Some (arr2 2 [[Num 1; Num 2]; [Num 3; Num 4]; [Num 5; Num 6]])) None)
  = ret (Build_feature_file_dict Scenario.E
           (Some (arr2 2 [[Num 1; Num 2]; [Num 3; Num 4]; [Num 5; Num 6]]))
           (Some [0; 1]) (Some 3) None)
  /\ num_samples_block
       (with_outputs (E := Scenario.E) None None
          (Some [("flatwindow", [[1; 2]; [3; 4; 5]]%Z)]))
     = ret (Build_feature_file_dict Scenario.E None None (Some 5)
              (Some [("flatwindow", [1; 2; 3; 4; 5]%Z)]))
  /\ num_samples_block
       (with_outputs (E := Scenario.E) None None
          (Some [("flatwindow", [[1; 2]; [3]]%Z); ("windows", [[4]; [5; 6]]%Z)]))
     = raise ValueError_num_samples.
Proof.
  split; [|split].
  - refine (proj1 (num_samples_derivation Scenario.E _) _ _ _ _ _ _);
      reflexivity.
  - refine (proj1 (proj2 (num_samples_derivation Scenario.E _))
                  "flatwindow" [[1; 2]; [3; 4; 5]]%Z [1; 2; 3; 4; 5]%Z _ _ _);
      reflexivity.
  - refine (proj2 (proj2 (proj2 (num_samples_derivation Scenario.E _))
                     _ _ _ _) [("flatwindow", [1; 2; 3]%Z); ("windows", [4; 5; 6]%Z)] _);
      reflexivity.
Defined.

(* ------------------------------------------------------------------ *)
(** ** When the syllables are made *)

Lemma only_ret {A} p (a : A) : only p (ret a).
Proof. reflexivity. Qed.

Lemma only_raise {A} p e : only p (@raise A e).
Proof. reflexivity. Qed.

Lemma only_bind {A B} p (m : M A) (k : A -> M B) :
  only p m -> (forall a, only p (k a)) -> only p (bind m k).
Proof.
  unfold only. intros Hm Hk. rewrite trace_bind.
  destruct (outcome m); [exact Hm|]. rewrite forallb_app, Hm. apply Hk.
Qed.

Lemma only_bind_returned {A B} p (m : M A) (k : A -> M B) :
  only p m -> (forall t a, m = (t, inr a) -> only p (k a)) -> only p (bind m k).
Proof.
  unfold only. intros Hm Hk. rewrite trace_bind.
  destruct m as [t [e|a]]; simpl in *; [exact Hm|].
  rewrite forallb_app, Hm. now apply (Hk t).
Qed.

Lemma only_silent {A} p (m : M A) : trace m = [] -> only p m.
Proof. unfold only. now intros ->. Qed.

Lemma only_weaken {A} (p q : event -> bool) (m : M A) :
  (forall ev, p ev = true -> q ev = true) -> only p m -> only q m.
Proof.
  unfold only. intros Hpq H. rewrite forallb_forall in *. auto.
Qed.

Lemma mask_index_trace {A} (a : list A) mask : trace (mask_index a mask) = [].
Proof. unfold mask_index. now destruct (Nat.eqb _ _). Qed.

Lemma read_local_trace {A} var (x : option A) : trace (read_local var x) = [].
Proof. now destruct x. Qed.

Lemma concatenate_axis1_trace a b : trace (concatenate_axis1 a b) = [].
Proof.
  destruct a, b; simpl; try reflexivity. now destruct (Nat.eqb _ _).
Qed.

Lemma setitem_scalar_trace a ind c : trace (setitem_scalar a ind c) = [].
Proof. destruct a; simpl; now destruct (list_set _ _ _). Qed.

Lemma setitem_row_trace a ind v : trace (setitem_row a ind v) = [].
Proof.
  destruct a; simpl; [reflexivity|].
  destruct (Nat.ltb _ _); [|reflexivity].
  destruct (Nat.eqb _ _).
  - now destruct (list_set _ _ _).
  - destruct v as [|c [|]]; try reflexivity. now destruct (list_set _ _ _).
Qed.

Section Traces.

Variable E : Collaborators.
Variable dec : option (Audio E * Z).
Variable labels : list ascii.
Variable onsets_Hz offsets_Hz : list Z.
Variable mask : list bool.

Lemma read_raw_audio_trace : trace (read_raw_audio E dec) = [].
Proof. now destruct dec. Qed.

Lemma read_samp_freq_trace : trace (read_samp_freq E dec) = [].
Proof. now destruct dec. Qed.

(** The syllables are there, or [make_syls] is called for them, or reading
    one of its arguments raises before the call. *)
Lemma get_syls_cases (st : locals E) :
  match syls st with
  | Some s => get_syls E dec labels onsets_Hz offsets_Hz mask st = ret s
  | None =>
      (exists e, get_syls E dec labels onsets_Hz offsets_Hz mask st = raise e)
      \/ (exists s, get_syls E dec labels onsets_Hz offsets_Hz mask st
                    = ([ev_make_syls], inr s))
  end.
Proof.
  unfold get_syls. destruct (syls st); [reflexivity|].
  destruct dec as [[raw sf]|]; simpl; [|left; eexists; reflexivity].
  rewrite !bind_ret_l. unfold mask_index.
  destruct (Nat.eqb _ _); [|left; eexists; reflexivity]. rewrite bind_ret_l.
  destruct (Nat.eqb _ _); [|left; eexists; reflexivity]. rewrite bind_ret_l.
  destruct (Nat.eqb _ _); [|left; eexists; reflexivity]. rewrite bind_ret_l.
  right. eexists. reflexivity.
Qed.

Lemma syl_loop_only_single name f n isyls ftr0 curr0 :
  only is_single (syl_loop E name f n isyls ftr0 curr0).
Proof.
  revert ftr0 curr0. induction isyls as [|[ind syl] rest IH]; intros ftr0 curr0;
    cbn [syl_loop]; [reflexivity|].
  destruct (spect_is_nan E syl); [apply IH|].
  apply only_bind; [reflexivity|]. intros _.
  apply only_bind; [|intros c; apply IH].
  apply only_silent.
  destruct curr0, (f syl);
    first [apply setitem_scalar_trace | apply setitem_row_trace].
Qed.

Lemma append_single_trace ftr_ind (st : locals E) the_syls ftr' curr' :
  trace (append_single E ftr_ind st the_syls ftr' curr') = [].
Proof.
  unfold append_single. destruct (features_arr st) as [fa|].
  - destruct ftr' as [[c|v]|]; simpl; [| |reflexivity]; rewrite bind_ret_l;
      (destruct curr' as [curr|]; simpl; [rewrite bind_ret_l|reflexivity]).
    + apply trace_bind_nil; [|reflexivity].
      destruct (newaxis_T curr); [apply concatenate_axis1_trace|reflexivity].
    + apply trace_bind_nil; [apply concatenate_axis1_trace|reflexivity].
  - destruct ftr' as [last|]; simpl; [|reflexivity]. rewrite bind_ret_l.
    now destruct curr'.
Qed.

Lemma append_single_syls ftr_ind (st : locals E) the_syls ftr' curr' t st' :
  append_single E ftr_ind st the_syls ftr' curr' = (t, inr st') ->
  syls st' = Some the_syls.
Proof.
  unfold append_single. intros H. destruct (features_arr st) as [fa|].
  - apply bind_inv in H. destruct H as (? & last & ? & _ & H & _).
    destruct last.
    + apply bind_inv in H. destruct H as (? & curr & ? & _ & H & _).
      apply bind_inv in H. destruct H as (? & fa' & ? & _ & H & _).
      now inversion H.
    + apply bind_inv in H. destruct H as (? & curr & ? & _ & H & _).
      apply bind_inv in H. destruct H as (? & fa' & ? & _ & H & _).
      now inversion H.
  - apply bind_inv in H. destruct H as (? & last & ? & _ & H & _).
    apply bind_inv in H. destruct H as (? & curr & ? & _ & H & _).
    now inversion H.
Qed.

Lemma multiple_syl_case_facts ftr_ind name g (st : locals E) :
  only is_other_feature
       (multiple_syl_case E onsets_Hz offsets_Hz mask ftr_ind name g st)
  /\ forall t st',
       multiple_syl_case E onsets_Hz offsets_Hz mask ftr_ind name g st = (t, inr st') ->
       syls st' = syls st.
Proof.
  unfold multiple_syl_case. split.
  - apply only_bind; [reflexivity|]. intros _. apply only_silent.
    apply trace_bind_nil; [|reflexivity].
    destruct (features_arr st); [apply concatenate_axis1_trace|reflexivity].
  - intros t st' H.
    apply bind_inv in H. destruct H as (? & ? & ? & _ & H & _).
    apply bind_inv in H. destruct H as (? & fa' & ? & _ & H & _).
    now inversion H.
Qed.

Lemma neural_net_case_facts name h (st : locals E) :
  only is_other_feature
       (neural_net_case E dec labels onsets_Hz offsets_Hz mask name h st)
  /\ forall t st',
       neural_net_case E dec labels onsets_Hz offsets_Hz mask name h st = (t, inr st') ->
       syls st' = syls st.
Proof.
  unfold neural_net_case. split.
  - apply only_bind; [apply only_silent, read_raw_audio_trace|]. intros raw.
    apply only_bind; [apply only_silent, read_samp_freq_trace|]. intros sf.
    apply only_bind; [apply only_silent, mask_index_trace|]. intros l.
    apply only_bind; [apply only_silent, mask_index_trace|]. intros on.
    apply only_bind; [apply only_silent, mask_index_trace|]. intros off.
    apply only_bind; [reflexivity|]. intros _.
    apply only_silent. apply trace_bind_nil; [|reflexivity].
    destruct (neuralnet_inputs_dict st) as [d|]; [|reflexivity].
    destruct (dict_get d name) as [old|]; [|reflexivity].
    destruct (is_ndarray E old); [|reflexivity].
    apply trace_bind_nil; reflexivity.
  - intros t st' H.
    apply bind_inv in H. destruct H as (? & raw & ? & _ & H & _).
    apply bind_inv in H. destruct H as (? & sf & ? & _ & H & _).
    apply bind_inv in H. destruct H as (? & l & ? & _ & H & _).
    apply bind_inv in H. destruct H as (? & on & ? & _ & H & _).
    apply bind_inv in H. destruct H as (? & off & ? & _ & H & _).
    apply bind_inv in H. destruct H as (? & ? & ? & _ & H & _).
    apply bind_inv in H. destruct H as (? & d' & ? & _ & H & _).
    now inversion H.
Qed.

End Traces.

Section SylsOnce.

Variable E : Collaborators.
Variable dec : option (Audio E * Z).
Variable labels : list ascii.
Variable onsets_Hz offsets_Hz : list Z.
Variable mask : list bool.

Local Abbreviation step := (feature_step E dec labels onsets_Hz offsets_Hz mask).
Local Abbreviation loop := (feature_loop E dec labels onsets_Hz offsets_Hz mask).

Lemma is_single_no_make_syls ev : is_single ev = true -> no_make_syls ev = true.
Proof. now destruct ev. Qed.

Lemma is_other_no_make_syls ev : is_other_feature ev = true -> no_make_syls ev = true.
Proof. now destruct ev. Qed.

Lemma is_other_no_syls_event ev : is_other_feature ev = true -> no_syls_event ev = true.
Proof. now destruct ev. Qed.

(** A round for a feature that is not a single-syllable feature makes no
    syllables, calls no single-syllable function and leaves [syls] alone. *)
Lemma step_other ftr_ind name (st : locals E) :
  is_single_syl_feature E name = false ->
  only is_other_feature (step ftr_ind name st)
  /\ forall t st', step ftr_ind name st = (t, inr st') -> syls st' = syls st.
Proof.
  unfold is_single_syl_feature, feature_step.
  destruct (single_syl_features_switch_case_dict E name); [discriminate|]. intros _.
  destruct (multiple_syl_features_switch_case_dict E name) as [g|].
  { apply multiple_syl_case_facts. }
  destruct (neural_net_features_switch_case_dict E name) as [h|].
  { apply neural_net_case_facts. }
  split; [reflexivity|]. now intros t st' [= _ <-].
Qed.

(** A round for a single-syllable feature when the syllables are there. *)
Lemma step_single_bound ftr_ind name (st : locals E) s :
  is_single_syl_feature E name = true ->
  syls st = Some s ->
  only is_single (step ftr_ind name st)
  /\ forall t st', step ftr_ind name st = (t, inr st') -> syls st' = Some s.
Proof.
  unfold is_single_syl_feature, feature_step.
  destruct (single_syl_features_switch_case_dict E name) as [f|]; [|discriminate].
  intros _ Hs. unfold single_syl_case.
  pose proof (get_syls_cases E dec labels onsets_Hz offsets_Hz mask st) as Hg.
  rewrite Hs in Hg. rewrite Hg, bind_ret_l. split.
  - apply only_bind; [apply syl_loop_only_single|]. intros r.
    apply only_silent, append_single_trace.
  - intros t st' H. apply bind_inv in H. destruct H as (? & r & ? & _ & H & _).
    eapply append_single_syls, H.
Qed.

(** A round for a single-syllable feature when they are not: nothing
    happens before [make_syls] is called, and a round that ends has them. *)
Lemma step_single_unbound ftr_ind name (st : locals E) :
  is_single_syl_feature E name = true ->
  syls st = None ->
  (exists e, step ftr_ind name st = raise e)
  \/ (exists post,
        trace (step ftr_ind name st) = ev_make_syls :: post
        /\ forallb is_single post = true
        /\ forall t st', step ftr_ind name st = (t, inr st') ->
                         exists s, syls st' = Some s).
Proof.
  unfold is_single_syl_feature, feature_step.
  destruct (single_syl_features_switch_case_dict E name) as [f|]; [|discriminate].
  intros _ Hs. unfold single_syl_case.
  pose proof (get_syls_cases E dec labels onsets_Hz offsets_Hz mask st) as Hg.
  rewrite Hs in Hg. destruct Hg as [[e Hg]|[s Hg]]; rewrite Hg.
  - left. exists e. reflexivity.
  - right. rewrite bind_pair_inr. simpl fst.
    eexists. split; [reflexivity|]. split.
    + pose proof (syl_loop_only_single E name f (length s) (enumerate s)
                    (ftr st) None) as Hl.
      assert (Ho : only is_single
                (r <- syl_loop E name f (length s) (enumerate s) (ftr st) None ;;
                 append_single E ftr_ind st s (fst r) (snd r))).
      { apply only_bind; [exact Hl|]. intros r.
        apply only_silent, append_single_trace. }
      exact Ho.
    + intros t st' H. injection H as _ H.
      destruct (r <- syl_loop E name f (length s) (enumerate s) (ftr st) None ;;
                append_single E ftr_ind st s (fst r) (snd r)) as [t1 o] eqn:Hrun.
      simpl in H. subst o.
      apply bind_inv in Hrun. destruct Hrun as (? & r & ? & _ & Hrun & _).
      exists s. eapply append_single_syls, Hrun.
Qed.

Lemma loop_cons ftr_ind name rest st :
  loop ((ftr_ind, name) :: rest) st = bind (step ftr_ind name st) (loop rest).
Proof. reflexivity. Qed.

(** Once the syllables are there, they are not made again. *)
Lemma loop_syls_bound ifeatures :
  forall (st : locals E) s, syls st = Some s -> only no_make_syls (loop ifeatures st).
Proof.
  induction ifeatures as [|[i name] rest IH]; intros st s Hs; [reflexivity|].
  rewrite loop_cons.
  destruct (is_single_syl_feature E name) eqn:Hk.
  - destruct (step_single_bound i name st s Hk Hs) as [Ho Hst].
    apply only_bind_returned.
    + eapply (only_weaken is_single), Ho. exact is_single_no_make_syls.
    + intros t1 st1 Hstep. apply (IH st1 s). eapply Hst, Hstep.
  - destruct (step_other i name st Hk) as [Ho Hst].
    apply only_bind_returned.
    + eapply (only_weaken is_other_feature), Ho. exact is_other_no_make_syls.
    + intros t1 st1 Hstep. apply (IH st1 s). rewrite <- Hs. eapply Hst, Hstep.
Qed.

Lemma loop_syls_unbound ifeatures :
  forall st : locals E, syls st = None -> syls_made_once (trace (loop ifeatures st)).
Proof.
  induction ifeatures as [|[i name] rest IH]; intros st Hs; [left; reflexivity|].
  rewrite loop_cons, trace_bind.
  destruct (is_single_syl_feature E name) eqn:Hk.
  - destruct (step_single_unbound i name st Hk Hs) as [[e He]|(post & Ht & Hp & Hst)].
    + rewrite He. left. reflexivity.
    + right. destruct (step i name st) as [t1 [e|st1]] eqn:Hstep; simpl in *; subst t1.
      * exists [], post. repeat split.
        rewrite forallb_forall in *. intros ev Hin.
        apply is_single_no_make_syls. auto.
      * destruct (Hst _ _ eq_refl) as [s Hs1].
        exists [], (post ++ trace (loop rest st1)). repeat split.
        rewrite forallb_app. apply andb_true_intro. split.
        -- rewrite forallb_forall in *. intros ev Hin.
           apply is_single_no_make_syls. auto.
        -- apply (loop_syls_bound rest st1 s Hs1).
  - destruct (step_other i name st Hk) as [Ho Hst]. unfold only in Ho.
    destruct (step i name st) as [t1 [e|st1]] eqn:Hstep; simpl in *.
    + left. rewrite forallb_forall in *. intros ev Hin.
      apply is_other_no_syls_event. auto.
    + assert (Hs1 : syls st1 = None) by (rewrite <- Hs; eapply Hst; reflexivity).
      destruct (IH st1 Hs1) as [Hn|(pre & post & Heq & Hpre & Hpost)].
      * left. rewrite forallb_app. apply andb_true_intro. split; [|exact Hn].
        rewrite forallb_forall in *. intros ev Hin.
        apply is_other_no_syls_event. auto.
      * right. exists (t1 ++ pre), post. rewrite Heq, <- app_assoc.
        repeat split; [|exact Hpost]. rewrite forallb_app, Ho. exact Hpre.
Qed.

(** Without a single-syllable feature in the list, only multiple-syllable
    and neural-net functions are called. *)
Lemma loop_no_single ifeatures :
  forall st : locals E,
    forallb (fun p => negb (is_single_syl_feature E (snd p))) ifeatures = true ->
    only is_other_feature (loop ifeatures st).
Proof.
  induction ifeatures as [|[i name] rest IH]; intros st H; [reflexivity|].
  simpl in H. apply andb_true_iff in H. destruct H as [Hk H].
  apply negb_true_iff in Hk. rewrite loop_cons.
  apply only_bind; [apply (step_other i name st Hk)|]. intros st1. now apply IH.
Qed.

(** A loop that ends and met a single-syllable feature has called
    [make_syls]. *)
Lemma loop_single_made ifeatures :
  forall (st : locals E) t st',
    loop ifeatures st = (t, inr st') ->
    existsb (fun p => is_single_syl_feature E (snd p)) ifeatures = true ->
    syls st = None ->
    In ev_make_syls t.
Proof.
  induction ifeatures as [|[i name] rest IH]; intros st t st' H Hex Hs;
    [discriminate|].
  rewrite loop_cons in H. apply bind_inv in H.
  destruct H as (t1 & st1 & t2 & Hstep & Hrest & ->).
  simpl in Hex. destruct (is_single_syl_feature E name) eqn:Hk.
  - destruct (step_single_unbound i name st Hk Hs) as [[e He]|(post & Ht & _)].
    + rewrite He in Hstep. discriminate.
    + rewrite Hstep in Ht. simpl in Ht. subst t1. now left.
  - simpl in Hex. apply in_or_app. right.
    apply (IH st1 t2 st' Hrest Hex).
    rewrite <- Hs. eapply (step_other i name st Hk), Hstep.
Qed.

End SylsOnce.

Lemma syls_made_once_count (t : list event) :
  syls_made_once t -> length (filter is_make_syls t) <= 1.
Proof.
  assert (Hnone : forall l, forallb no_make_syls l = true -> filter is_make_syls l = []).
  { induction l as [|ev l IH]; simpl; [reflexivity|].
    unfold no_make_syls at 1. intros H. apply andb_true_iff in H.
    destruct H as [Hev H]. apply negb_true_iff in Hev. rewrite Hev. now apply IH. }
  intros [H|(pre & post & -> & Hpre & Hpost)].
  - rewrite Hnone; [simpl; lia|].
    rewrite forallb_forall in *. intros ev Hin. specialize (H ev Hin).
    unfold no_syls_event in H. apply andb_true_iff in H. apply H.
  - rewrite filter_app. simpl. rewrite (Hnone post Hpost), Hnone; [simpl; lia|].
    rewrite forallb_forall in *. intros ev Hin.
    apply is_other_no_make_syls. auto.
Qed.

Lemma enumerate_from_snd {A} (p : A -> bool) (l : list A) i :
  forallb (fun x => p (snd x)) (enumerate_from i l) = forallb p l
  /\ existsb (fun x => p (snd x)) (enumerate_from i l) = existsb p l.
Proof.
  revert i. induction l as [|x l IH]; intros i; simpl; [auto|].
  destruct (IH (S i)) as [-> ->]. auto.
Qed.

(** The trace of [_from_file]: nothing when the mask cannot be computed,
    the warning when no label matches, the calls of the feature loop
    otherwise. *)
Lemma from_file_trace E feature_list filename labels onsets_Hz offsets_Hz
    labels_to_use :
  let run := _from_file E feature_list filename labels onsets_Hz offsets_Hz
                        labels_to_use in
  (trace run = [] /\ exists e, outcome run = inl e)
  \/ (trace run = [ev_warn filename labels_to_use] /\ outcome run = inr None)
  \/ exists mask,
       let loop := feature_loop E (decode E filename) (labels_iter labels)
                                onsets_Hz offsets_Hz mask
                                (enumerate feature_list) (locals0 E) in
       use_these_labels_bool labels labels_to_use = ret mask
       /\ trace run = trace loop
       /\ forall r, outcome run = inr r -> exists st', outcome loop = inr st'.
Proof.
  cbn zeta. unfold _from_file.
  assert (Hm : (exists e, use_these_labels_bool labels labels_to_use = raise e)
               \/ exists mask, use_these_labels_bool labels labels_to_use = ret mask).
  { unfold use_these_labels_bool. destruct (String.eqb _ _); [destruct labels|];
      eauto. }
  destruct Hm as [[e ->]|[mask Hm]]; [left; split; [reflexivity|now exists e]|].
  rewrite Hm, bind_ret_l.
  destruct (np_any mask); simpl negb; cbv iota; [|now right; left].
  right. right. exists mask. split; [reflexivity|].
  rewrite trace_bind, outcome_bind.
  destruct (outcome _) as [e|st]; [split; [reflexivity|discriminate]|].
  split; [|intros r _; now exists st].
  match goal with |- _ ++ ?x = _ => assert (Hx : x = []) end.
  { apply trace_bind_nil; [apply mask_index_trace|]. intros l.
    apply trace_bind_nil; [apply mask_index_trace|]. intros on.
    apply trace_bind_nil; [apply mask_index_trace|]. intros off.
    apply trace_bind_nil; [apply read_samp_freq_trace|reflexivity]. }
  rewrite Hx. apply app_nil_r.
Qed.

(* ------------------------------------------------------------------ *)
(** ** The collection of syllables: when it is made and who works on it *)

Lemma enumerate_from_app {A} (l1 l2 : list A) i :
  enumerate_from i (l1 ++ l2)
  = enumerate_from i l1 ++ enumerate_from (i + length l1) l2.
Proof.
  revert i. induction l1 as [|x l1 IH]; intros i; simpl.
  - now rewrite Nat.add_0_r.
  - rewrite IH. now rewrite Nat.add_succ_r.
Qed.

Lemma feature_loop_app E dec labels onsets_Hz offsets_Hz mask l1 l2 (st : locals E) :
  feature_loop E dec labels onsets_Hz offsets_Hz mask (l1 ++ l2) st
  = bind (feature_loop E dec labels onsets_Hz offsets_Hz mask l1 st)
         (feature_loop E dec labels onsets_Hz offsets_Hz mask l2).
Proof.
  revert st. induction l1 as [|[i name] l1 IH]; intros st.
  - simpl app. cbn [feature_loop]. now rewrite bind_ret_l.
  - simpl app. cbn [feature_loop]. rewrite bind_assoc.
    apply bind_ext. intros st'. apply IH.
Qed.

(** The calls of the loop over the syllables: one per syllable with a
    spectrogram, in order; the first of them is made whatever follows. *)
Lemma syl_loop_calls E name f n isyls ftr0 curr0 :
  let calls := map (ev_single name)
                   (map fst (filter (fun p => negb (spect_is_nan E (snd p))) isyls)) in
  (forall t r, syl_loop E name f n isyls ftr0 curr0 = (t, inr r) -> t = calls)
  /\ (forall ev tl, calls = ev :: tl ->
        exists tl', trace (syl_loop E name f n isyls ftr0 curr0) = ev :: tl').
Proof.
  revert ftr0 curr0. induction isyls as [|[ind syl] rest IH]; intros ftr0 curr0;
    cbn [syl_loop filter snd].
  - split; [now intros t r [= <- _]|discriminate].
  - destruct (spect_is_nan E syl); cbn [negb]; [apply IH|].
    cbn [map fst]. split.
    + intros t r H.
      apply bind_inv in H. destruct H as (t1 & [] & t2 & He & H & ->).
      injection He as <-.
      apply bind_inv in H. destruct H as (t3 & curr' & t4 & Hc & H & ->).
      assert (t3 = []) as ->.
      { change t3 with (trace (t3, inr (B := ndarray) (A := exn) curr')).
        rewrite <- Hc.
        destruct curr0, (f syl);
          first [apply setitem_scalar_trace | apply setitem_row_trace]. }
      apply (proj1 (IH _ _)) in H. now subst t4.
    + intros ev tl [= <- _]. rewrite trace_bind. cbn [outcome emit snd trace fst].
      eexists. reflexivity.
Qed.

Section SharedSyls.

Variable E : Collaborators.
Variable dec : option (Audio E * Z).
Variable labels : list ascii.
Variable onsets_Hz offsets_Hz : list Z.
Variable mask : list bool.

Local Abbreviation step := (feature_step E dec labels onsets_Hz offsets_Hz mask).
Local Abbreviation loop := (feature_loop E dec labels onsets_Hz offsets_Hz mask).

(** A call of [make_syls] has its arguments: the file is decoded and the
    mask fits, and what it gives is the collection. *)
Lemma get_syls_unbound_inv (st : locals E) t c :
  syls st = None ->
  get_syls E dec labels onsets_Hz offsets_Hz mask st = (t, inr c) ->
  exists d,
    dec = Some d
    /\ c = collection E d labels onsets_Hz offsets_Hz mask
    /\ t = [ev_make_syls].
Proof.
  unfold get_syls. intros -> H. destruct dec as [d|]; [|discriminate].
  exists d. split; [reflexivity|]. cbn [read_raw_audio read_samp_freq option_rect] in H.
  rewrite !bind_ret_l in H.
  apply bind_inv in H. destruct H as (t1 & l & t2 & Hl & H & ->).
  apply bind_inv in H. destruct H as (t3 & on & t4 & Hon & H & ->).
  apply bind_inv in H. destruct H as (t5 & off & t6 & Hoff & H & ->).
  apply mask_index_inv in Hl. destruct Hl as (-> & -> & _).
  apply mask_index_inv in Hon. destruct Hon as (-> & -> & _).
  apply mask_index_inv in Hoff. destruct Hoff as (-> & -> & _).
  injection H as <- <-. split; reflexivity.
Qed.

(** The calls of a round for a feature that needs no spectrogram. *)
Lemma step_other_returned ftr_ind name (st : locals E) t st' :
  is_single_syl_feature E name = false ->
  step ftr_ind name st = (t, inr st') ->
  t = other_events E name /\ syls st' = syls st.
Proof.
  intros Hk H. split; [|eapply (step_other E dec labels onsets_Hz offsets_Hz mask), H; exact Hk].
  revert Hk H. unfold is_single_syl_feature, feature_step, other_events.
  destruct (single_syl_features_switch_case_dict E name); [discriminate|]. intros _.
  destruct (multiple_syl_features_switch_case_dict E name) as [g|].
  { unfold multiple_syl_case. intros H.
    apply bind_inv in H. destruct H as (t1 & [] & t2 & He & H & ->).
    injection He as <-.
    apply bind_inv in H. destruct H as (t3 & fa' & t4 & Hc & H & ->).
    injection H as <- _.
    assert (t3 = []) as ->; [|reflexivity].
    change t3 with (trace (t3, inr (B := ndarray) (A := exn) fa')). rewrite <- Hc.
    destruct (features_arr st); [apply concatenate_axis1_trace|reflexivity]. }
  destruct (neural_net_features_switch_case_dict E name) as [h|].
  { unfold neural_net_case. intros H.
    apply bind_inv in H. destruct H as (t1 & raw & t2 & Hr & H & ->).
    apply bind_inv in H. destruct H as (t3 & sf & t4 & Hs & H & ->).
    apply bind_inv in H. destruct H as (t5 & l & t6 & Hl & H & ->).
    apply bind_inv in H. destruct H as (t7 & on & t8 & Hon & H & ->).
    apply bind_inv in H. destruct H as (t9 & off & t10 & Hoff & H & ->).
    apply bind_inv in H. destruct H as (t11 & [] & t12 & He & H & ->).
    apply bind_inv in H. destruct H as (t13 & d' & t14 & Hd & H & ->).
    injection He as <-. injection H as <- _.
    apply mask_index_inv in Hl. destruct Hl as (-> & _).
    apply mask_index_inv in Hon. destruct Hon as (-> & _).
    apply mask_index_inv in Hoff. destruct Hoff as (-> & _).
    assert (t1 = []) as ->.
    { change t1 with (trace (t1, inr (B := Audio E) (A := exn) raw)). rewrite <- Hr.
      apply read_raw_audio_trace. }
    assert (t3 = []) as ->.
    { change t3 with (trace (t3, inr (B := Z) (A := exn) sf)). rewrite <- Hs.
      apply read_samp_freq_trace. }
    assert (t13 = []) as ->; [|reflexivity].
    change t13 with (trace (t13, inr (B := dict (Tensor E)) (A := exn) d')).
    rewrite <- Hd.
    destruct (neuralnet_inputs_dict st) as [d0|]; [|reflexivity].
    destruct (dict_get d0 name) as [old|]; [|reflexivity].
    destruct (is_ndarray E old); [|reflexivity].
    apply trace_bind_nil; reflexivity. }
  now intros [= <- _].
Qed.

(** The round of a single-syllable feature on a collection that is there:
    the feature is called on its syllables, and the collection stays. *)
Lemma step_single_bound_returned ftr_ind name (st : locals E) c t st' :
  is_single_syl_feature E name = true ->
  syls st = Some c ->
  step ftr_ind name st = (t, inr st') ->
  t = map (ev_single name) (with_spect E c) /\ syls st' = Some c.
Proof.
  intros Hk Hs H.
  split; [|eapply (step_single_bound E dec labels onsets_Hz offsets_Hz mask), H;
           [exact Hk|exact Hs]].
  revert Hk H. unfold is_single_syl_feature, feature_step.
  destruct (single_syl_features_switch_case_dict E name) as [f|]; [|discriminate].
  intros _. unfold single_syl_case, get_syls. rewrite Hs, bind_ret_l. intros H.
  apply bind_inv in H. destruct H as (t1 & r & t2 & Hl & H & ->).
  apply (proj1 (syl_loop_calls E name f _ _ _ _)) in Hl. subst t1.
  assert (t2 = []) as ->; [|now rewrite app_nil_r].
  change t2 with (trace (t2, inr (B := locals E) (A := exn) st')). rewrite <- H.
  apply append_single_trace.
Qed.

(** The round of the first single-syllable feature: [make_syls] is called
    before anything else, and the first call of the feature follows. *)
Lemma step_single_unbound_trace ftr_ind name (st : locals E) :
  is_single_syl_feature E name = true ->
  syls st = None ->
  (exists e, step ftr_ind name st = raise e)
  \/ exists d post,
       dec = Some d
       /\ trace (step ftr_ind name st) = ev_make_syls :: post
       /\ forallb is_single post = true
       /\ (forall i tl,
             with_spect E (collection E d labels onsets_Hz offsets_Hz mask) = i :: tl ->
             exists post', post = ev_single name i :: post')
       /\ (forall t st',
             step ftr_ind name st = (t, inr st') ->
             t = ev_make_syls
                   :: map (ev_single name)
                          (with_spect E (collection E d labels onsets_Hz offsets_Hz mask))
             /\ syls st' = Some (collection E d labels onsets_Hz offsets_Hz mask)).
Proof.
  intros Hk Hs.
  destruct (step_single_unbound E dec labels onsets_Hz offsets_Hz mask ftr_ind name
              st Hk Hs) as [He|(post & Ht & Hp & _)]; [now left|right].
  revert Hk Ht. unfold is_single_syl_feature, feature_step.
  destruct (single_syl_features_switch_case_dict E name) as [f|] eqn:Hf;
    [|discriminate].
  intros _. unfold single_syl_case.
  pose proof (get_syls_cases E dec labels onsets_Hz offsets_Hz mask st) as Hg.
  rewrite Hs in Hg. destruct Hg as [[e Hg]|[c Hg]]; rewrite Hg; [discriminate|].
  destruct (get_syls_unbound_inv st _ c Hs Hg) as (d & Hd & -> & _).
  rewrite bind_pair_inr. cbn [trace fst]. intros [= <-].
  exists d. eexists. split; [exact Hd|]. split; [reflexivity|]. split; [exact Hp|].
  set (c := collection E d labels onsets_Hz offsets_Hz mask) in *.
  split.
  - intros i tl Hi.
    match goal with
    | |- context [fst (bind ?m ?k)] =>
        change (fst (bind m k)) with (trace (bind m k))
    end.
    rewrite trace_bind.
    destruct (proj2 (syl_loop_calls E name f (length c) (enumerate c) (ftr st) None)
                (ev_single name i) (map (ev_single name) tl)) as [tl' Htl].
    { fold (with_spect E c). now rewrite Hi. }
    rewrite Htl. destruct (outcome _); eexists; reflexivity.
  - intros t st' H. injection H as <- H.
    destruct (r <- syl_loop E name f (length c) (enumerate c) (ftr st) None ;;
              append_single E ftr_ind st c (fst r) (snd r)) as [t1 o] eqn:Hrun.
    cbn [snd fst] in *. subst o.
    apply bind_inv in Hrun. destruct Hrun as (t2 & r & t3 & Hl & Ha & ->).
    apply (proj1 (syl_loop_calls E name f _ _ _ _)) in Hl. subst t2.
    assert (t3 = []) as ->.
    { change t3 with (trace (t3, inr (B := locals E) (A := exn) st')). rewrite <- Ha.
      apply append_single_trace. }
    rewrite app_nil_r. split; [reflexivity|].
    eapply append_single_syls, Ha.
Qed.

Lemma feature_events_single name c :
  is_single_syl_feature E name = true ->
  feature_events E c name = map (ev_single name) (with_spect E c).
Proof.
  unfold is_single_syl_feature, feature_events.
  now destruct (single_syl_features_switch_case_dict E name).
Qed.

Lemma feature_events_other name c :
  is_single_syl_feature E name = false ->
  feature_events E c name = other_events E name.
Proof.
  unfold is_single_syl_feature, feature_events.
  now destruct (single_syl_features_switch_case_dict E name).
Qed.

(** Before the first single-syllable feature: one call per feature, and
    [syls] stays as it was. *)
Lemma loop_others_returned ifeatures :
  forall (st : locals E) t st',
    forallb (fun p => negb (is_single_syl_feature E (snd p))) ifeatures = true ->
    loop ifeatures st = (t, inr st') ->
    t = flat_map (other_events E) (map snd ifeatures) /\ syls st' = syls st.
Proof.
  induction ifeatures as [|[i name] rest IH]; intros st t st' Hall H.
  - cbn [feature_loop] in H. injection H as <- <-. auto.
  - cbn [forallb snd] in Hall. apply andb_true_iff in Hall.
    destruct Hall as [Hk Hall]. apply negb_true_iff in Hk.
    cbn [feature_loop] in H. apply bind_inv in H.
    destruct H as (t1 & st1 & t2 & Hstep & Hrest & ->).
    destruct (step_other_returned _ _ _ _ _ Hk Hstep) as [-> Hs1].
    destruct (IH _ _ _ Hall Hrest) as [-> Hs2].
    cbn [map snd flat_map]. split; [reflexivity|congruence].
Qed.

(** Once the collection is there, every round works on it and leaves it. *)
Lemma loop_bound_returned ifeatures :
  forall (st : locals E) c t st',
    syls st = Some c ->
    loop ifeatures st = (t, inr st') ->
    t = flat_map (feature_events E c) (map snd ifeatures) /\ syls st' = Some c.
Proof.
  induction ifeatures as [|[i name] rest IH]; intros st c t st' Hs H.
  - cbn [feature_loop] in H. injection H as <- <-. auto.
  - cbn [feature_loop] in H. apply bind_inv in H.
    destruct H as (t1 & st1 & t2 & Hstep & Hrest & ->).
    cbn [map snd flat_map].
    destruct (is_single_syl_feature E name) eqn:Hk.
    + destruct (step_single_bound_returned _ _ _ _ _ _ Hk Hs Hstep) as [-> Hs1].
      destruct (IH _ _ _ _ Hs1 Hrest) as [-> Hs2].
      now rewrite (feature_events_single _ _ Hk).
    + destruct (step_other_returned _ _ _ _ _ Hk Hstep) as [-> Hs1].
      rewrite Hs in Hs1.
      destruct (IH _ _ _ _ Hs1 Hrest) as [-> Hs2].
      now rewrite (feature_events_other _ _ Hk).
Qed.

(** [syls] is unbound until the round of the first single-syllable feature
    has ended, and it is the collection from then on. *)
Lemma loop_syls_state ifeatures :
  forall (st : locals E) d t st',
    dec = Some d ->
    syls st = None ->
    loop ifeatures st = (t, inr st') ->
    syls st'
    = if existsb (fun p => is_single_syl_feature E (snd p)) ifeatures
      then Some (collection E d labels onsets_Hz offsets_Hz mask)
      else None.
Proof.
  induction ifeatures as [|[i name] rest IH]; intros st d t st' Hd Hs H.
  - cbn [feature_loop] in H. injection H as _ <-. exact Hs.
  - cbn [feature_loop] in H. apply bind_inv in H.
    destruct H as (t1 & st1 & t2 & Hstep & Hrest & ->).
    cbn [existsb snd]. destruct (is_single_syl_feature E name) eqn:Hk; cbn [orb].
    + destruct (step_single_unbound_trace i name st Hk Hs)
        as [[e He]|(d' & post & Hd' & _ & _ & _ & Hret)].
      { rewrite He in Hstep. discriminate. }
      destruct (Hret _ _ Hstep) as [_ Hs1].
      assert (d' = d) as -> by congruence.
      eapply loop_bound_returned; [exact Hs1|exact Hrest].
    + destruct (step_other_returned _ _ _ _ _ Hk Hstep) as [_ Hs1].
      rewrite Hs in Hs1. apply (IH _ _ _ _ Hd Hs1 Hrest).
Qed.

(** The calls of a loop that ends, around its first single-syllable
    feature. *)
Lemma loop_first_single_returned ipre i s ipost (st : locals E) t st' :
  forallb (fun p => negb (is_single_syl_feature E (snd p))) ipre = true ->
  is_single_syl_feature E s = true ->
  syls st = None ->
  loop (ipre ++ (i, s) :: ipost) st = (t, inr st') ->
  exists d,
    dec = Some d
    /\ t = flat_map (other_events E) (map snd ipre)
           ++ ev_make_syls
           :: flat_map (feature_events E
                          (collection E d labels onsets_Hz offsets_Hz mask))
                       (s :: map snd ipost).
Proof.
  intros Hpre Hk Hs H. rewrite feature_loop_app in H.
  apply bind_inv in H. destruct H as (t1 & st1 & t2 & Hp & H & ->).
  destruct (loop_others_returned _ _ _ _ Hpre Hp) as [-> Hs1]. rewrite Hs in Hs1.
  cbn [feature_loop] in H. apply bind_inv in H.
  destruct H as (t3 & st2 & t4 & Hstep & Hrest & ->).
  destruct (step_single_unbound_trace i s st1 Hk Hs1)
    as [[e He]|(d & post & Hd & _ & _ & _ & Hret)].
  { rewrite He in Hstep. discriminate. }
  destruct (Hret _ _ Hstep) as [-> Hs2].
  destruct (loop_bound_returned _ _ _ _ _ Hs2 Hrest) as [-> _].
  exists d. split; [exact Hd|]. cbn [flat_map].
  now rewrite (feature_events_single _ _ Hk).
Qed.

(** The calls of any loop in which [make_syls] is called, up to the first
    call of the first single-syllable feature. *)
Lemma loop_first_single_trace ipre i s ipost (st : locals E) :
  forallb (fun p => negb (is_single_syl_feature E (snd p))) ipre = true ->
  is_single_syl_feature E s = true ->
  syls st = None ->
  In ev_make_syls (trace (loop (ipre ++ (i, s) :: ipost) st)) ->
  exists d rest,
    dec = Some d
    /\ trace (loop (ipre ++ (i, s) :: ipost) st)
       = flat_map (other_events E) (map snd ipre) ++ ev_make_syls :: rest
    /\ forallb no_make_syls rest = true
    /\ forall j tl,
         with_spect E (collection E d labels onsets_Hz offsets_Hz mask) = j :: tl ->
         exists rest', rest = ev_single s j :: rest'.
Proof.
  intros Hpre Hk Hs. rewrite feature_loop_app, trace_bind.
  assert (Hnot : forall l, forallb is_other_feature l = true -> ~ In ev_make_syls l).
  { intros l Hl Hin. rewrite forallb_forall in Hl. now specialize (Hl _ Hin). }
  pose proof (loop_no_single E dec labels onsets_Hz offsets_Hz mask ipre st Hpre)
    as Hothers. unfold only in Hothers.
  destruct (loop ipre st) as [t1 [e|st1]] eqn:Hp; cbn [outcome trace fst snd] in *.
  { intros Hin. now destruct (Hnot _ Hothers Hin). }
  destruct (loop_others_returned _ _ _ _ Hpre Hp) as [-> Hs1]. rewrite Hs in Hs1.
  cbn [feature_loop]. rewrite trace_bind.
  destruct (step_single_unbound_trace i s st1 Hk Hs1)
    as [[e He]|(d & post & Hd & Ht & Hpost & Hfirst & Hret)].
  { rewrite He. cbn [outcome trace raise fst snd]. rewrite app_nil_r.
    intros Hin. now destruct (Hnot _ Hothers Hin). }
  intros _. exists d.
  assert (Hsingle : forallb no_make_syls post = true).
  { rewrite forallb_forall in *. intros ev Hin.
    apply is_single_no_make_syls. auto. }
  destruct (step i s st1) as [t3 [e|st2]] eqn:Hstep; cbn [outcome trace fst snd] in *;
    subst t3.
  - exists post. repeat split; auto.
  - destruct (Hret _ _ eq_refl) as [_ Hs2].
    exists (post ++ trace (loop ipost st2)). split; [exact Hd|].
    split; [reflexivity|]. split.
    + rewrite forallb_app, Hsingle.
      apply (loop_syls_bound E dec labels onsets_Hz offsets_Hz mask ipost st2 _ Hs2).
    + intros j tl Hj. destruct (Hfirst j tl Hj) as [post' ->].
      eexists. reflexivity.
Qed.

End SharedSyls.

Lemma enumerate_from_names {A} (l : list A) i : map snd (enumerate_from i l) = l.
Proof. revert i. induction l as [|x l IH]; intros i; simpl; [reflexivity|]. now rewrite IH. Qed.

(** C9: in one run of [_from_file] the collection of syllables is made
    lazily, once, and shared.  In every run, [make_syls] is called at most
    once, and not at all (nor any single-syllable function) when
    [feature_list] has no single-syllable feature; when it is called, the
    file is decoded and the call comes exactly after the calls of all the
    features that stand before the first single-syllable feature [s] (one
    call per registered feature, so not at the start of the loop), and the
    first call after it is [s] on the first syllable of the collection that
    has a spectrogram.  In a run that returns a result, the calls are those
    of the features before [s], then [make_syls], then for every later
    feature its calls, a single-syllable feature being called on each
    syllable with a spectrogram of the one collection that [make_syls] gave
    on the retained segments; the local [syls] is unbound after any rounds
    without a single-syllable feature and is this collection after any
    rounds with one; and [make_syls] has been called exactly once when the
    list has a single-syllable feature. *)
Theorem syls_made_lazily_and_once :
  forall (E : Collaborators) (feature_list : list string) (filename : string)
         (labels : labels_arg) (onsets_Hz offsets_Hz : list Z)
         (labels_to_use : string),
    let run := _from_file E feature_list filename labels onsets_Hz offsets_Hz
                          labels_to_use in
    (forallb (fun name => negb (is_single_syl_feature E name)) feature_list = true ->
     forallb no_syls_event (trace run) = true)
    /\ length (filter is_make_syls (trace run)) <= 1
    /\ (forall pre s post,
          first_single E feature_list pre s post ->
          In ev_make_syls (trace run) ->
          exists d mask rest,
            decode E filename = Some d
            /\ use_these_labels_bool labels labels_to_use = ret mask
            /\ trace run
               = flat_map (other_events E) pre ++ ev_make_syls :: rest
            /\ forallb no_make_syls rest = true
            /\ forall i tl,
                 with_spect E (collection E d (labels_iter labels) onsets_Hz
                                          offsets_Hz mask) = i :: tl ->
                 exists rest', rest = ev_single s i :: rest')
    /\ (forall ed pre s post,
          outcome run = inr (Some ed) ->
          first_single E feature_list pre s post ->
          exists d mask,
            decode E filename = Some d
            /\ use_these_labels_bool labels labels_to_use = ret mask
            /\ trace run
               = flat_map (other_events E) pre
                 ++ ev_make_syls
                 :: flat_map (feature_events E
                                (collection E d (labels_iter labels) onsets_Hz
                                            offsets_Hz mask))
                             (s :: post)
            /\ forall before after,
                 feature_list = before ++ after ->
                 syls_after E (decode E filename) (labels_iter labels) onsets_Hz
                            offsets_Hz mask before
                 = Some (if existsb (is_single_syl_feature E) before
                         then Some (collection E d (labels_iter labels) onsets_Hz
                                               offsets_Hz mask)
                         else None))
    /\ (forall ed, outcome run = inr (Some ed) ->
                   existsb (is_single_syl_feature E) feature_list = true ->
                   length (filter is_make_syls (trace run)) = 1).
Proof.
  intros E fl filename labels on off ltu. cbn zeta.
  pose proof (from_file_trace E fl filename labels on off ltu) as Hcase.
  cbn zeta in Hcase.
  set (run := _from_file E fl filename labels on off ltu) in *.
  assert (Honce : syls_made_once (trace run)).
  { destruct Hcase as [[Ht _]|[[Ht _]|(mask & _ & Ht & _)]]; rewrite Ht.
    - now left.
    - now left.
    - now apply loop_syls_unbound. }
  split; [|split; [now apply syls_made_once_count|split; [|split]]].
  - intros Hno.
    destruct Hcase as [[Ht _]|[[Ht _]|(mask & _ & Ht & _)]]; rewrite Ht;
      try reflexivity.
    eapply (only_weaken is_other_feature); [exact is_other_no_syls_event|].
    apply loop_no_single. unfold enumerate.
    now rewrite (proj1 (enumerate_from_snd
                          (fun name => negb (is_single_syl_feature E name)) fl 0)).
  - intros pre s post (Hfl & Hpre & Hs) Hin.
    destruct Hcase as [[Ht _]|[[Ht _]|(mask & Hm & Ht & _)]]; rewrite Ht in Hin |- *.
    + destruct Hin.
    + destruct Hin as [Hin|[]]. discriminate.
    + subst fl. unfold enumerate in Hin |- *.
      rewrite enumerate_from_app in Hin |- *. cbn [enumerate_from] in Hin |- *.
      destruct (loop_first_single_trace E (decode E filename) (labels_iter labels)
                  on off mask (enumerate_from 0 pre) (0 + length pre) s
                  (enumerate_from (S (0 + length pre)) post) (locals0 E))
        as (d & rest & Hd & Htr & Hrest & Hfirst); try assumption; try reflexivity.
      { now rewrite (proj1 (enumerate_from_snd
                              (fun name => negb (is_single_syl_feature E name)) pre 0)). }
      exists d, mask, rest. rewrite enumerate_from_names in Htr. auto.
  - intros ed pre s post Hout (Hfl & Hpre & Hs).
    destruct Hcase as [[_ [e He]]|[[_ Hn]|(mask & Hm & Ht & Hret)]];
      [rewrite He in Hout; discriminate|rewrite Hn in Hout; discriminate|].
    destruct (Hret _ Hout) as [st Hst]. rewrite Ht.
    destruct (feature_loop E (decode E filename) (labels_iter labels) on off mask
                (enumerate fl) (locals0 E)) as [t o] eqn:Hloop.
    cbn [outcome snd trace fst] in *. subst o.
    subst fl. unfold enumerate in Hloop.
    pose proof Hloop as Hwhole.
    rewrite enumerate_from_app in Hloop. cbn [enumerate_from] in Hloop.
    destruct (loop_first_single_returned E (decode E filename) (labels_iter labels)
                on off mask (enumerate_from 0 pre) (0 + length pre) s
                (enumerate_from (S (0 + length pre)) post) (locals0 E) t st)
      as (d & Hd & Htr); try assumption; try reflexivity.
    { now rewrite (proj1 (enumerate_from_snd
                            (fun name => negb (is_single_syl_feature E name)) pre 0)). }
    rewrite !enumerate_from_names in Htr.
    exists d, mask. split; [exact Hd|]. split; [exact Hm|]. split; [exact Htr|].
    intros before after Hsplit. rewrite Hsplit, enumerate_from_app in Hwhole.
    rewrite feature_loop_app in Hwhole. apply bind_inv in Hwhole.
    destruct Hwhole as (t1 & stb & t2 & Hb & _).
    unfold syls_after, enumerate. rewrite Hb. cbn [outcome snd]. f_equal.
    rewrite (loop_syls_state E (decode E filename) (labels_iter labels) on off mask
               (enumerate_from 0 before) (locals0 E) d t1 stb Hd eq_refl Hb).
    now rewrite (proj2 (enumerate_from_snd (is_single_syl_feature E) before 0)).
  - intros ed Hout Hex.
    apply Nat.le_antisymm; [now apply syls_made_once_count|].
    destruct Hcase as [[_ [e He]]|[[_ Hn]|(mask & _ & Ht & Hret)]].
    + rewrite He in Hout. discriminate.
    + rewrite Hn in Hout. discriminate.
    + rewrite Ht. destruct (Hret _ Hout) as [st' Hst'].
      destruct (feature_loop _ _ _ _ _ _ _ _) as [t o] eqn:Hloop.
      simpl in Hst'. subst o. simpl trace.
      assert (Hin : In ev_make_syls t).
      { eapply loop_single_made; [exact Hloop| |reflexivity].
        unfold enumerate.
        now rewrite (proj2 (enumerate_from_snd (is_single_syl_feature E) fl 0)). }
      assert (Hf : In ev_make_syls (filter is_make_syls t))
        by (apply filter_In; split; [exact Hin|reflexivity]).
      destruct (filter is_make_syls t); [destruct Hf|simpl; lia].
Qed.

Lemma syls_made_lazily_and_once_witness :
  let E := Demo.env false in
  let feature_list := ["gapdur"; "amplitude"; "flatwindow"; "spectral_vec3"] in
  let onsets_Hz := [0; 10; 20; 30]%Z in
  let offsets_Hz := [5; 12; 25; 35]%Z in
  let run := _from_file E feature_list "bird.wav" (labels_str "aabc") onsets_Hz
                        offsets_Hz "ab" in
  let c : list (Syl E) :=
    [("a"%char, (0, 5)%Z); ("a"%char, (10, 12)%Z); ("b"%char, (20, 25)%Z)] in
  trace run
  = [ev_multiple "gapdur"; ev_make_syls;
     ev_single "amplitude" 0; ev_single "amplitude" 2;
     ev_neuralnet "flatwindow";
     ev_single "spectral_vec3" 0; ev_single "spectral_vec3" 2]
  /\ syls_after E (decode E "bird.wav") (labels_iter (labels_str "aabc"))
                onsets_Hz offsets_Hz [true; true; true; false] ["gapdur"]
     = Some None
  /\ syls_after E (decode E "bird.wav") (labels_iter (labels_str "aabc"))
                onsets_Hz offsets_Hz [true; true; true; false]
                ["gapdur"; "amplitude"; "flatwindow"]
     = Some (Some c).
Proof.
  intros E feature_list onsets_Hz offsets_Hz run c.
  destruct (proj1 (proj2 (proj2 (proj2
              (syls_made_lazily_and_once E feature_list "bird.wav"
                 (labels_str "aabc") onsets_Hz offsets_Hz "ab"))))
              _ ["gapdur"] "amplitude" ["flatwindow"; "spectral_vec3"]
              eq_refl (conj eq_refl (conj eq_refl eq_refl)))
    as (d & mask & Hd & Hm & Ht & Hs).
  vm_compute in Hd. injection Hd as <-.
  vm_compute in Hm. injection Hm as <-.
  split; [exact Ht|]. split.
  - exact (Hs ["gapdur"] ["amplitude"; "flatwindow"; "spectral_vec3"] eq_refl).
  - exact (Hs ["gapdur"; "amplitude"; "flatwindow"] ["spectral_vec3"] eq_refl).
Defined.

(* ------------------------------------------------------------------ *)
(** ** The columns that one feature contributes *)

Lemma list_set_Forall {A} (P : A -> Prop) (l : list A) i x l' :
  Forall P l -> P x -> list_set l i x = Some l' -> Forall P l'.
Proof.
  revert i l'. induction l as [|h l IH]; intros i l' Hl Hx; simpl; [discriminate|].
  inversion Hl; subst. destruct i as [|j].
  - intros [= <-]. now constructor.
  - destruct (list_set l j x) as [l1|] eqn:Hs; simpl; [|discriminate].
    intros [= <-]. constructor; [assumption|]. eapply IH; eauto.
Qed.

Lemma list_set_length {A} (l : list A) i x l' :
  list_set l i x = Some l' -> length l' = length l.
Proof.
  revert i l'. induction l as [|h l IH]; intros i l'; simpl; [discriminate|].
  destruct i as [|j].
  - now intros [= <-].
  - destruct (list_set l j x) as [l1|] eqn:Hs; simpl; [|discriminate].
    intros [= <-]. simpl. f_equal. eapply IH, Hs.
Qed.

Lemma full_nan2_well_shaped n w : well_shaped (full_nan2 n w).
Proof.
  simpl. apply Forall_forall. intros r Hin. apply repeat_spec in Hin. subst r.
  apply repeat_length.
Qed.

Lemma setitem_scalar_well_shaped a ind c t a' :
  well_shaped a -> setitem_scalar a ind c = (t, inr a') -> well_shaped a'.
Proof.
  destruct a as [v|w rows]; simpl.
  - destruct (list_set v ind c); [|discriminate]. now intros _ [= _ <-].
  - destruct (list_set rows ind (repeat c w)) as [rows'|] eqn:Hs; [|discriminate].
    intros Hw [= _ <-]. simpl.
    eapply list_set_Forall; [exact Hw| |exact Hs]. apply repeat_length.
Qed.

Lemma setitem_row_well_shaped a ind v t a' :
  well_shaped a -> setitem_row a ind v = (t, inr a') -> well_shaped a'.
Proof.
  destruct a as [v0|w rows]; simpl; [discriminate|].
  destruct (Nat.ltb ind (length rows)); [|discriminate].
  destruct (Nat.eqb_spec (length v) w) as [Hl|Hl].
  - destruct (list_set rows ind v) as [rows'|] eqn:Hs; [|discriminate].
    intros Hw [= _ <-]. simpl. eapply list_set_Forall; [exact Hw| |exact Hs].
    exact Hl.
  - destruct v as [|c [|]]; try discriminate.
    destruct (list_set rows ind (repeat c w)) as [rows'|] eqn:Hs; [|discriminate].
    intros Hw [= _ <-]. simpl.
    eapply list_set_Forall; [exact Hw| |exact Hs]. apply repeat_length.
Qed.

Section SylLoop.

Variable E : Collaborators.
Variable name : string.
Variable f : Syl E -> Ftr.
Variable len_syls : nat.

(** With no spectrogram at all, the loop over the syllables changes nothing
    and calls nothing. *)
Lemma syl_loop_all_nan isyls ftr0 curr0 :
  forallb (fun p => spect_is_nan E (snd p)) isyls = true ->
  syl_loop E name f len_syls isyls ftr0 curr0 = ret (ftr0, curr0).
Proof.
  induction isyls as [|[ind syl] rest IH]; cbn [syl_loop forallb snd];
    [reflexivity|].
  intros H. apply andb_true_iff in H. destruct H as [-> H]. now apply IH.
Qed.

(** With a spectrogram for some syllable, the loop does not depend on the
    [ftr] that an earlier feature left. *)
Lemma syl_loop_ftr_irrelevant isyls ftr0 ftr1 curr0 :
  forallb (fun p => spect_is_nan E (snd p)) isyls = false ->
  syl_loop E name f len_syls isyls ftr0 curr0
  = syl_loop E name f len_syls isyls ftr1 curr0.
Proof.
  induction isyls as [|[ind syl] rest IH]; cbn [syl_loop forallb snd];
    [discriminate|].
  destruct (spect_is_nan E syl); [apply IH|reflexivity].
Qed.

(** A loop that binds [curr_feature_arr] found a spectrogram, binds [ftr]
    too, and gives what it gives from fresh locals. *)
Lemma syl_loop_bound isyls ftr0 t ftr' curr :
  syl_loop E name f len_syls isyls ftr0 None = (t, inr (ftr', Some curr)) ->
  forallb (fun p => spect_is_nan E (snd p)) isyls = false
  /\ syl_loop E name f len_syls isyls None None = (t, inr (ftr', Some curr)).
Proof.
  intros H.
  destruct (forallb (fun p => spect_is_nan E (snd p)) isyls) eqn:Hnan.
  - rewrite (syl_loop_all_nan _ _ _ Hnan) in H. discriminate.
  - split; [reflexivity|]. now rewrite (syl_loop_ftr_irrelevant _ None ftr0 _ Hnan).
Qed.

Lemma syl_loop_ftr_bound isyls :
  forall ftr0 curr0 t ftr' curr',
    syl_loop E name f len_syls isyls ftr0 curr0 = (t, inr (ftr', curr')) ->
    forallb (fun p => spect_is_nan E (snd p)) isyls = false ->
    exists last c, ftr' = Some last /\ curr' = Some c.
Proof.
  induction isyls as [|[ind syl] rest IH]; intros ftr0 curr0 t ftr' curr';
    cbn [syl_loop forallb snd]; [discriminate|].
  destruct (spect_is_nan E syl) eqn:Hn; [apply IH|]. intros H _.
  apply bind_inv in H. destruct H as (? & ? & ? & _ & H & _).
  apply bind_inv in H. destruct H as (? & c1 & ? & _ & H & _).
  destruct (forallb (fun p => spect_is_nan E (snd p)) rest) eqn:Hrest.
  - rewrite (syl_loop_all_nan _ _ _ Hrest) in H. inversion H. eauto.
  - eapply IH; [exact H|reflexivity].
Qed.

Lemma syl_loop_well_shaped isyls :
  forall ftr0 curr0 t ftr' curr',
    well_shaped_opt curr0 ->
    syl_loop E name f len_syls isyls ftr0 curr0 = (t, inr (ftr', curr')) ->
    well_shaped_opt curr'.
Proof.
  induction isyls as [|[ind syl] rest IH]; intros ftr0 curr0 t ftr' curr' Hw;
    cbn [syl_loop].
  - now intros [= _ _ <-].
  - destruct (spect_is_nan E syl); [now apply IH|]. intros H.
    apply bind_inv in H. destruct H as (? & ? & ? & _ & H & _).
    apply bind_inv in H. destruct H as (? & c1 & ? & Hc & H & _).
    eapply IH; [|exact H]. simpl.
    destruct curr0 as [a|], (f syl) as [c|v].
    + eapply setitem_scalar_well_shaped; [exact Hw|exact Hc].
    + eapply setitem_row_well_shaped; [exact Hw|exact Hc].
    + eapply setitem_scalar_well_shaped; [|exact Hc]. exact I.
    + eapply setitem_row_well_shaped; [|exact Hc]. apply full_nan2_well_shaped.
Qed.

End SylLoop.

Lemma zip_app_well_shaped n1 n2 r1 r2 :
  Forall (fun r => length r = n1) r1 -> Forall (fun r => length r = n2) r2 ->
  Forall (fun r => length r = n1 + n2) (zip_app r1 r2).
Proof.
  intros H1. revert r2. induction H1 as [|x r1 Hx _ IH]; intros r2 H2; simpl;
    [constructor|].
  destruct H2 as [|y r2 Hy H2]; constructor.
  - now rewrite length_app, Hx, Hy.
  - now apply IH.
Qed.

Lemma zip_app_nth_left n1 r1 : forall r2 j,
  Forall (fun r => length r = n1) r1 -> length r1 = length r2 -> j < n1 ->
  map (fun r => nth j r NaN) (zip_app r1 r2) = map (fun r => nth j r NaN) r1.
Proof.
  induction r1 as [|x r1 IH]; intros [|y r2] j H1 Hl Hj; simpl in *;
    try discriminate; [reflexivity|].
  inversion H1; subst. f_equal.
  - apply app_nth1. lia.
  - apply IH; auto.
Qed.

Lemma zip_app_nth_right n1 r1 : forall r2 k,
  Forall (fun r => length r = n1) r1 -> length r1 = length r2 ->
  map (fun r => nth (n1 + k) r NaN) (zip_app r1 r2) = map (fun r => nth k r NaN) r2.
Proof.
  induction r1 as [|x r1 IH]; intros [|y r2] k H1 Hl; simpl in *;
    try discriminate; [reflexivity|].
  inversion H1; subst. f_equal.
  - apply app_nth2_plus.
  - apply IH; auto.
Qed.

Lemma map_seq_from {A} (F : nat -> A) n1 n2 :
  map F (seq n1 n2) = map (fun k => F (n1 + k)) (seq 0 n2).
Proof.
  revert n1. induction n2 as [|n2 IH]; intros n1; simpl; [reflexivity|].
  rewrite Nat.add_0_r. f_equal. rewrite (IH (S n1)), <- seq_shift, map_map.
  apply map_ext. intros k. f_equal. lia.
Qed.

(** Appending along axis 1 puts the columns of the second array after those
    of the first. *)
Lemma columns_concatenate_axis1 a b t c :
  well_shaped a -> well_shaped b ->
  concatenate_axis1 a b = (t, inr c) ->
  well_shaped c /\ columns c = columns a ++ columns b.
Proof.
  destruct a as [v1|n1 r1], b as [v2|n2 r2]; simpl; try discriminate.
  intros H1 H2. destruct (Nat.eqb_spec (length r1) (length r2)) as [Hl|Hl];
    [|discriminate].
  intros [= _ <-]. split; [now apply zip_app_well_shaped|]. simpl.
  rewrite seq_app, map_app. f_equal.
  - apply map_ext_in. intros j Hj. apply in_seq in Hj.
    apply (zip_app_nth_left n1); auto. lia.
  - simpl. rewrite map_seq_from. apply map_ext. intros k.
    now apply zip_app_nth_right.
Qed.

Lemma as_column_well_shaped v : well_shaped (as_column v).
Proof. simpl. apply Forall_forall. intros r Hin. apply in_map_iff in Hin.
  now destruct Hin as (c & <- & _). Qed.

Lemma columns_as_column v : columns (as_column v) = [v].
Proof.
  simpl. f_equal. rewrite map_map. simpl. apply map_id.
Qed.

Section Independence.

Variable E : Collaborators.
Variable dec : option (Audio E * Z).
Variable labels : list ascii.
Variable onsets_Hz offsets_Hz : list Z.
Variable mask : list bool.

Local Abbreviation ok := (locals_ok E dec labels onsets_Hz offsets_Hz mask).
Local Abbreviation made := (syls_made E dec labels onsets_Hz offsets_Hz mask).

Lemma locals0_ok : ok (locals0 E).
Proof. repeat split. discriminate. Qed.

Lemma get_syls_made (st : locals E) t s :
  ok st ->
  get_syls E dec labels onsets_Hz offsets_Hz mask st = (t, inr s) -> made s.
Proof.
  intros (_ & _ & Hmade) H.
  pose proof (get_syls_cases E dec labels onsets_Hz offsets_Hz mask st) as Hc.
  destruct (syls st) as [s0|] eqn:Hs.
  - rewrite Hc in H. injection H as _ <-. now apply Hmade.
  - assert (Heq : get_syls E dec labels onsets_Hz offsets_Hz mask st
                  = get_syls E dec labels onsets_Hz offsets_Hz mask (locals0 E))
      by (unfold get_syls; now rewrite Hs).
    destruct Hc as [[e Hc]|[s1 Hc]]; rewrite Hc in H; [discriminate|].
    injection H as _ <-. unfold syls_made. now rewrite <- Heq.
Qed.

(** What [append_single] needs to return, and what it returns. *)
Lemma append_single_inv ftr_ind (st : locals E) the_syls ftr' curr' t st' :
  append_single E ftr_ind st the_syls ftr' curr' = (t, inr st') ->
  exists last curr,
    ftr' = Some last /\ curr' = Some curr
    /\ syls st' = Some the_syls
    /\ neuralnet_inputs_dict st' = neuralnet_inputs_dict st
    /\ feature_inds st' = feature_inds st ++ repeat ftr_ind (ftr_width last)
    /\ match features_arr st with
       | None => features_arr st' = Some curr
       | Some fa =>
           exists c, features_arr st' = Some c
                     /\ match last with
                        | scalar _ =>
                            exists v, curr = arr1 v
                                      /\ concatenate_axis1 fa (as_column v)
                                         = ([], inr c)
                        | vector _ => concatenate_axis1 fa curr = ([], inr c)
                        end
       end.
Proof.
  unfold append_single. intros H. destruct (features_arr st) as [fa|].
  - apply bind_inv in H. destruct H as (? & last & ? & Hl & H & _).
    destruct ftr' as [fv|]; [|discriminate]. injection Hl as _ <-.
    destruct fv as [c0|v0].
    + apply bind_inv in H. destruct H as (? & curr & ? & Hc & H & _).
      destruct curr' as [cv|]; [|discriminate]. injection Hc as _ <-.
      apply bind_inv in H. destruct H as (tc & fa' & ? & Hcat & H & _).
      injection H as _ <-. exists (scalar c0), cv. simpl.
      repeat (split; [reflexivity|]). exists fa'. split; [reflexivity|].
      destruct cv as [v|w rows]; simpl in Hcat; [|discriminate].
      exists v. split; [reflexivity|].
      pose proof (concatenate_axis1_trace fa (as_column v)) as Ht.
      rewrite Hcat in Ht. simpl in Ht. now subst tc.
    + apply bind_inv in H. destruct H as (? & curr & ? & Hc & H & _).
      destruct curr' as [cv|]; [|discriminate]. injection Hc as _ <-.
      apply bind_inv in H. destruct H as (tc & fa' & ? & Hcat & H & _).
      injection H as _ <-. exists (vector v0), cv. simpl.
      repeat (split; [reflexivity|]). exists fa'. split; [reflexivity|].
      pose proof (concatenate_axis1_trace fa cv) as Ht.
      rewrite Hcat in Ht. simpl in Ht. now subst tc.
  - apply bind_inv in H. destruct H as (? & last & ? & Hl & H & _).
    destruct ftr' as [fv|]; [|discriminate]. injection Hl as _ <-.
    apply bind_inv in H. destruct H as (? & curr & ? & Hc & H & _).
    destruct curr' as [cv|]; [|discriminate]. injection Hc as _ <-.
    injection H as _ <-. exists fv, cv. simpl.
    repeat (split; [reflexivity|]). now destruct fv.
Qed.

Local Abbreviation adds_alone :=
  (step_adds_alone E dec labels onsets_Hz offsets_Hz mask).

Lemma single_syl_case_alone ftr_ind name f (st : locals E) t st' :
  single_syl_features_switch_case_dict E name = Some f ->
  ok st ->
  single_syl_case E dec labels onsets_Hz offsets_Hz mask ftr_ind name f st
    = (t, inr st') ->
  adds_alone ftr_ind name st st'.
Proof.
  intros Hf Hok H. unfold single_syl_case in H.
  apply bind_inv in H. destruct H as (tg & S & ? & Hg & H & _).
  apply bind_inv in H. destruct H as (tl & [ftr' curr'] & ta & Hl & H & _).
  simpl fst in H. simpl snd in H.
  pose proof (get_syls_made st tg S Hok Hg) as Hmade.
  destruct (append_single_inv _ _ _ _ _ _ _ H)
    as (last & curr & -> & -> & Hsyls & _ & Hinds & Hfa).
  destruct (syl_loop_bound _ _ _ _ _ _ _ _ _ Hl) as [_ Hl0].
  pose proof (syl_loop_well_shaped E name f _ _ None None _ _ _ I Hl0) as Hwc.
  simpl in Hwc.
  exists ((ev_make_syls :: tl) ++ []).
  exists {| feature_inds := [] ++ repeat 0 (ftr_width last);
            syls := Some S; ftr := Some last; curr_feature_arr := Some curr;
            features_arr := Some curr;
            neuralnet_inputs_dict := None |}.
  split.
  { unfold step_alone, feature_step. rewrite Hf. unfold single_syl_case.
    unfold syls_made in Hmade. rewrite Hmade, bind_pair_inr.
    simpl ftr. rewrite Hl0, bind_pair_inr. simpl.
    destruct last; reflexivity. }
  simpl. rewrite repeat_length. destruct Hok as (Hw & Hnone & Hm).
  destruct (features_arr st) as [fa|] eqn:Hfeat.
  - destruct Hfa as (c & Hc & Hcat). rewrite Hc. simpl.
    assert (Hcols : well_shaped c /\ columns c = columns fa ++ columns curr).
    { destruct last.
      - destruct Hcat as (v & -> & Hcat).
        destruct (columns_concatenate_axis1 _ _ _ _ Hw (as_column_well_shaped v) Hcat)
          as [Hwc' Hcols]. rewrite columns_as_column in Hcols. now split.
      - exact (columns_concatenate_axis1 _ _ _ _ Hw Hwc Hcat). }
    destruct Hcols as [Hwc' Hcols].
    repeat split; try assumption; try discriminate.
    + unfold well_shaped_opt. now rewrite Hc.
    + rewrite Hc. discriminate.
    + intros s Hs. rewrite Hsyls in Hs. now injection Hs as <-.
  - rewrite Hfa. simpl.
    repeat split; try assumption; try discriminate.
    + unfold well_shaped_opt. now rewrite Hfa.
    + rewrite Hfa. discriminate.
    + intros s Hs. rewrite Hsyls in Hs. now injection Hs as <-.
Qed.

Lemma multiple_syl_case_alone ftr_ind name g (st : locals E) t st' :
  single_syl_features_switch_case_dict E name = None ->
  multiple_syl_features_switch_case_dict E name = Some g ->
  ok st ->
  multiple_syl_case E onsets_Hz offsets_Hz mask ftr_ind name g st = (t, inr st') ->
  adds_alone ftr_ind name st st'.
Proof.
  intros Hs Hg (Hw & Hnone & Hm) H. unfold multiple_syl_case in H.
  apply bind_inv in H. destruct H as (? & ? & ? & _ & H & _).
  apply bind_inv in H. destruct H as (tc & fa' & ? & Hcat & H & _).
  injection H as _ <-.
  set (curr := g onsets_Hz offsets_Hz mask) in *.
  exists ([ev_multiple name] ++ [] ++ []).
  exists {| feature_inds := [] ++ [0]; syls := None; ftr := None;
            curr_feature_arr := Some (arr1 curr);
            features_arr := Some (as_column curr);
            neuralnet_inputs_dict := None |}.
  split.
  { unfold step_alone, feature_step. rewrite Hs, Hg. reflexivity. }
  cbn [features_arr feature_inds syls columns_opt app length repeat].
  rewrite columns_as_column.
  assert (Hcols : well_shaped fa'
                  /\ columns fa' = columns_opt (features_arr st) ++ [curr]).
  { destruct (features_arr st) as [fa|].
    - destruct (columns_concatenate_axis1 _ _ _ _ Hw (as_column_well_shaped curr) Hcat)
        as [Hw' Hc]. now rewrite columns_as_column in Hc.
    - injection Hcat as _ <-. split; [apply as_column_well_shaped|].
      apply columns_as_column. }
  destruct Hcols as [Hw' Hc].
  repeat split; try assumption; discriminate.
Qed.

Lemma neural_net_case_alone ftr_ind name h (st : locals E) t st' :
  single_syl_features_switch_case_dict E name = None ->
  multiple_syl_features_switch_case_dict E name = None ->
  neural_net_features_switch_case_dict E name = Some h ->
  ok st ->
  neural_net_case E dec labels onsets_Hz offsets_Hz mask name h st = (t, inr st') ->
  adds_alone ftr_ind name st st'.
Proof.
  intros Hs Hg Hh Hok H. unfold neural_net_case in H.
  apply bind_inv in H. destruct H as (t1 & raw & ? & Hraw & H & _).
  apply bind_inv in H. destruct H as (t2 & sf & ? & Hsf & H & _).
  apply bind_inv in H. destruct H as (t3 & l & ? & Hl & H & _).
  apply bind_inv in H. destruct H as (t4 & on & ? & Hon & H & _).
  apply bind_inv in H. destruct H as (t5 & off & ? & Hoff & H & _).
  apply bind_inv in H. destruct H as (? & ? & ? & _ & H & _).
  apply bind_inv in H. destruct H as (? & d' & ? & _ & H & _).
  injection H as _ <-.
  pose proof (read_raw_audio_trace E dec) as T1. rewrite Hraw in T1.
  pose proof (read_samp_freq_trace E dec) as T2. rewrite Hsf in T2.
  pose proof (mask_index_trace labels mask) as T3. rewrite Hl in T3.
  pose proof (mask_index_trace onsets_Hz mask) as T4. rewrite Hon in T4.
  pose proof (mask_index_trace offsets_Hz mask) as T5. rewrite Hoff in T5.
  simpl in T1, T2, T3, T4, T5. subst t1 t2 t3 t4 t5.
  eexists. eexists. split.
  { unfold step_alone, feature_step. rewrite Hs, Hg, Hh. unfold neural_net_case.
    rewrite Hraw, Hsf, Hl, Hon, Hoff. change (@nil event, inr raw) with (ret raw).
    rewrite bind_ret_l. change (@nil event, inr sf) with (ret sf).
    rewrite bind_ret_l. change (@nil event, inr l) with (ret l).
    rewrite bind_ret_l. change (@nil event, inr on) with (ret on).
    rewrite bind_ret_l. change (@nil event, inr off) with (ret off).
    rewrite bind_ret_l. reflexivity. }
  simpl. rewrite !app_nil_r. destruct Hok as (Hw & Hnone & Hm).
  repeat split; assumption.
Qed.

(** One round of the feature loop, whatever the kind of the feature. *)
Lemma feature_step_alone ftr_ind name (st : locals E) t st' :
  ok st ->
  feature_step E dec labels onsets_Hz offsets_Hz mask ftr_ind name st = (t, inr st') ->
  adds_alone ftr_ind name st st'.
Proof.
  intros Hok H. unfold feature_step in H.
  destruct (single_syl_features_switch_case_dict E name) as [f|] eqn:Hs.
  { eapply single_syl_case_alone; eassumption. }
  destruct (multiple_syl_features_switch_case_dict E name) as [g|] eqn:Hg.
  { eapply multiple_syl_case_alone; eassumption. }
  destruct (neural_net_features_switch_case_dict E name) as [h|] eqn:Hh.
  { eapply neural_net_case_alone; eassumption. }
  injection H as _ <-. exists [], (locals0 E). split.
  { unfold step_alone, feature_step. now rewrite Hs, Hg, Hh. }
  simpl. rewrite !app_nil_r. repeat split; try reflexivity; apply Hok.
Qed.

Lemma feature_loop_alone ifeatures :
  forall (st : locals E) t st',
    ok st ->
    feature_loop E dec labels onsets_Hz offsets_Hz mask ifeatures st = (t, inr st') ->
    columns_opt (features_arr st')
    = columns_opt (features_arr st)
      ++ flat_map (fun p => step_columns E dec labels onsets_Hz offsets_Hz mask (snd p))
                  ifeatures
    /\ feature_inds st'
       = feature_inds st
         ++ flat_map (fun p => repeat (fst p)
                                 (step_width E dec labels onsets_Hz offsets_Hz mask
                                             (snd p)))
                     ifeatures
    /\ Forall (fun p => exists t0 st0,
                   step_alone E dec labels onsets_Hz offsets_Hz mask (snd p)
                   = (t0, inr st0)
                   /\ (features_arr st0 = None -> feature_inds st0 = []))
              ifeatures
    /\ ok st'.
Proof.
  induction ifeatures as [|[i name] rest IH]; intros st t st' Hok H; simpl in H.
  - injection H as _ <-. simpl. rewrite !app_nil_r. auto.
  - apply bind_inv in H. destruct H as (t1 & st1 & t2 & Hstep & Hrest & _).
    destruct (feature_step_alone _ _ _ _ _ Hok Hstep)
      as (t0 & st0 & Halone & Hcols & Hinds & Hnone & Hok1).
    destruct (IH _ _ _ Hok1 Hrest) as (Hc & Hi & Hall & Hok').
    simpl. unfold step_columns at 1, step_width at 1. rewrite Halone. simpl.
    rewrite Hc, Hcols, Hi, Hinds, <- !app_assoc.
    split; [reflexivity|]. split; [reflexivity|]. split; [|exact Hok'].
    constructor; [|assumption]. simpl. eauto.
Qed.

End Independence.

(** What a run of [_from_file] that returns a result went through. *)
Lemma from_file_inv E feature_list filename labels onsets_Hz offsets_Hz
    labels_to_use t ed :
  _from_file E feature_list filename labels onsets_Hz offsets_Hz labels_to_use
    = (t, inr (Some ed)) ->
  exists mask st l on off samp_freq,
    use_these_labels_bool labels labels_to_use = ret mask
    /\ np_any mask = true
    /\ feature_loop E (decode E filename) (labels_iter labels) onsets_Hz offsets_Hz
                    mask (enumerate feature_list) (locals0 E) = (t, inr st)
    /\ mask_index (labels_iter labels) mask = ret l
    /\ mask_index onsets_Hz mask = ret on
    /\ mask_index offsets_Hz mask = ret off
    /\ read_samp_freq E (decode E filename) = ret samp_freq
    /\ ed = {| ed_labels := l; ed_onsets_Hz := on; ed_offsets_Hz := off;
               ed_features_arr := features_arr st;
               ed_feature_inds := match features_arr st with
                                  | Some _ => Some (feature_inds st)
                                  | None => None
                                  end;
               ed_neuralnet_inputs_dict := neuralnet_inputs_dict st;
               ed_samp_freq := samp_freq |}.
Proof.
  unfold _from_file. intros H.
  apply bind_inv in H. destruct H as (t1 & mask & t2 & Hm & H & Ht).
  assert (Hmask : use_these_labels_bool labels labels_to_use = ret mask).
  { revert Hm. unfold use_these_labels_bool.
    destruct (String.eqb labels_to_use "all"); [destruct labels|]; intros Hm;
      inversion Hm; reflexivity. }
  rewrite Hmask in Hm. injection Hm as <-. simpl in Ht. subst t2.
  destruct (np_any mask) eqn:Hany; simpl in H; [|inversion H].
  apply bind_inv in H. destruct H as (tl & st & t3 & Hloop & H & ->).
  apply bind_inv in H. destruct H as (t4 & l & t5 & Hl & H & ->).
  apply bind_inv in H. destruct H as (t6 & on & t7 & Hon & H & ->).
  apply bind_inv in H. destruct H as (t8 & off & t9 & Hoff & H & ->).
  apply bind_inv in H. destruct H as (t10 & sf & t11 & Hsf & H & ->).
  injection H as <- <-.
  pose proof (mask_index_trace (labels_iter labels) mask) as T4. rewrite Hl in T4.
  pose proof (mask_index_trace onsets_Hz mask) as T6. rewrite Hon in T6.
  pose proof (mask_index_trace offsets_Hz mask) as T8. rewrite Hoff in T8.
  pose proof (read_samp_freq_trace E (decode E filename)) as T10. rewrite Hsf in T10.
  simpl in T4, T6, T8, T10. subst t4 t6 t8 t10. simpl. rewrite app_nil_r.
  exists mask, st, l, on, off, sf. repeat split; assumption.
Qed.

(** The run on one feature alone, for a file on which a run returned. *)
Lemma from_file_alone E filename labels onsets_Hz offsets_Hz labels_to_use
    mask l on off samp_freq name t0 st0 :
  use_these_labels_bool labels labels_to_use = ret mask ->
  np_any mask = true ->
  mask_index (labels_iter labels) mask = ret l ->
  mask_index onsets_Hz mask = ret on ->
  mask_index offsets_Hz mask = ret off ->
  read_samp_freq E (decode E filename) = ret samp_freq ->
  step_alone E (decode E filename) (labels_iter labels) onsets_Hz offsets_Hz mask name
    = (t0, inr st0) ->
  alone E filename labels onsets_Hz offsets_Hz labels_to_use name
  = Some {| ed_labels := l; ed_onsets_Hz := on; ed_offsets_Hz := off;
            ed_features_arr := features_arr st0;
            ed_feature_inds := match features_arr st0 with
                               | Some _ => Some (feature_inds st0)
                               | None => None
                               end;
            ed_neuralnet_inputs_dict := neuralnet_inputs_dict st0;
            ed_samp_freq := samp_freq |}.
Proof.
  intros Hm Hany Hl Hon Hoff Hsf Hstep.
  unfold alone, _from_file. rewrite Hm, bind_ret_l, Hany. simpl negb. cbv iota.
  unfold enumerate. cbn [enumerate_from feature_loop].
  unfold step_alone in Hstep. rewrite Hstep, bind_pair_inr.
  cbn [fst snd ret]. rewrite bind_pair_inr. unfold outcome. cbn [snd].
  rewrite Hl, bind_ret_l, Hon, bind_ret_l, Hoff, bind_ret_l, Hsf, bind_ret_l.
  reflexivity.
Qed.

Lemma flat_map_enumerate_snd {A B} (F : A -> list B) (l : list A) i :
  flat_map (fun p => F (snd p)) (enumerate_from i l) = flat_map F l.
Proof.
  revert i. induction l as [|x l IH]; intros i; simpl; [reflexivity|].
  now rewrite IH.
Qed.

Lemma flat_map_ext_Forall {A B} (F G : A -> list B) (l : list A) :
  Forall (fun x => F x = G x) l -> flat_map F l = flat_map G l.
Proof. induction 1 as [|x l Hx _ IH]; simpl; [reflexivity|]. now rewrite Hx, IH. Qed.

Lemma Forall_enumerate_snd {A} (P : A -> Prop) (l : list A) i :
  Forall (fun p => P (snd p)) (enumerate_from i l) -> Forall P l.
Proof.
  revert i. induction l as [|x l IH]; intros i H; simpl in *; [constructor|].
  inversion H; subst. constructor; [assumption|]. eapply IH; eassumption.
Qed.

Lemma Forall_enumerate_of_snd {A} (P : A -> Prop) (l : list A) i :
  Forall P l -> Forall (fun p => P (snd p)) (enumerate_from i l).
Proof.
  intros H. revert i. induction H as [|x l Hx _ IH]; intros i; simpl;
    constructor; auto.
Qed.

(* ------------------------------------------------------------------ *)
(** ** A first feature that is a scalar single-syllable feature *)

(** Once [features_arr] is the 1-d array that a scalar single-syllable
    feature leaves when it comes first (line 583), no round of the loop for
    a single- or multiple-syllable feature returns: [np.concatenate] along
    axis 1 does not take a 1-d array. *)
Lemma one_d_features_arr_blocks E dec labels onsets_Hz offsets_Hz mask
    ftr_ind name (st : locals E) v :
  features_arr st = Some (arr1 v) ->
  single_syl_features_switch_case_dict E name <> None
  \/ multiple_syl_features_switch_case_dict E name <> None ->
  exists e,
    outcome (feature_step E dec labels onsets_Hz offsets_Hz mask ftr_ind name st)
    = inl e.
Proof.
  intros Hfa Hkind.
  destruct (feature_step E dec labels onsets_Hz offsets_Hz mask ftr_ind name st)
    as [t [e|st']] eqn:Hstep; [now exists e|exfalso].
  unfold feature_step in Hstep.
  destruct (single_syl_features_switch_case_dict E name) as [f|].
  - unfold single_syl_case in Hstep.
    apply bind_inv in Hstep. destruct Hstep as (? & S & ? & _ & H & _).
    apply bind_inv in H. destruct H as (? & r & ? & _ & H & _).
    destruct (append_single_inv _ _ _ _ _ _ _ _ H)
      as (last & curr & _ & _ & _ & _ & _ & Hcat).
    rewrite Hfa in Hcat. destruct Hcat as (c & _ & Hcat).
    destruct last; [destruct Hcat as (v' & _ & Hcat)|]; discriminate.
  - destruct (multiple_syl_features_switch_case_dict E name) as [g|].
    + unfold multiple_syl_case in Hstep. rewrite Hfa in Hstep.
      apply bind_inv in Hstep. destruct Hstep as (? & ? & ? & _ & H & _).
      apply bind_inv in H. destruct H as (? & ? & ? & Hcat & _). discriminate.
    + destruct Hkind as [Hk|Hk]; now apply Hk.
Qed.

(** C1, at an input where the code departs from it: the feature list
    ["duration"; "spectral_vec3"; "amplitude"] with ["duration"] a scalar
    single-syllable feature.  The first feature leaves a 1-d array, and the
    builder fails with numpy's error when it appends the three columns of
    the second; the same happens for two scalar single-syllable features. *)
Theorem scalar_first_feature_aborts :
  _from_file (Demo.env true) ["duration"; "spectral_vec3"; "amplitude"]
             "bird.cbin" (labels_arr ["a"; "a"; "b"; "c"]%char)
             [0; 10; 20; 30]%Z [5; 15; 25; 35]%Z "ab"
  = ([ev_make_syls;
      ev_single "duration" 0; ev_single "duration" 1; ev_single "duration" 2;
      ev_single "spectral_vec3" 0; ev_single "spectral_vec3" 1;
      ev_single "spectral_vec3" 2],
     inl ValueError)
  /\ outcome (_from_file (Demo.env true) ["amplitude"; "duration"]
                         "bird.cbin" (labels_arr ["a"; "a"; "b"; "c"]%char)
                         [0; 10; 20; 30]%Z [5; 15; 25; 35]%Z "ab")
     = inl ValueError
  /\ option_map (fun ed => (ed_features_arr ed, ed_feature_inds ed))
       (alone (Demo.env true) "bird.cbin" (labels_arr ["a"; "a"; "b"; "c"]%char)
              [0; 10; 20; 30]%Z [5; 15; 25; 35]%Z "ab" "duration")
     = Some (Some (arr1 [Num 5; Num 5; Num 5]), Some [0]).
Proof. repeat split. Qed.

(** The same list when ["duration"] is a multiple-syllable feature: five
    columns, with the column map of the specification's example. *)
Example column_order_example :
  option_map (fun ed => (option_map (fun a => (shape0 a, ncolumns a))
                                    (ed_features_arr ed),
                         ed_feature_inds ed))
    (alone (Demo.env false) "bird.cbin" (labels_str "aabc")
           [0; 10; 20; 30]%Z [5; 15; 25; 35]%Z "ab" "duration")
  = Some (Some (3, Some 1), Some [0])
  /\ match outcome (_from_file (Demo.env false)
                      ["duration"; "spectral_vec3"; "amplitude"] "bird.cbin"
                      (labels_str "aabc") [0; 10; 20; 30]%Z [5; 15; 25; 35]%Z "ab")
     with
     | inr (Some ed) =>
         option_map (fun a => (shape0 a, ncolumns a)) (ed_features_arr ed)
         = Some (3, Some 5)
         /\ ed_feature_inds ed = Some [0; 1; 1; 1; 2]
     | _ => False
     end.
Proof. repeat split. Qed.

(* ------------------------------------------------------------------ *)
(** ** Syllables without a spectrogram *)

(** When no retained syllable has a spectrogram, the round of the loop for
    the first single-syllable feature reads [ftr] before anything bound it. *)
Lemma no_spectrogram_at_all E dec labels onsets_Hz offsets_Hz mask
    ftr_ind name f (st : locals E) tg S :
  single_syl_features_switch_case_dict E name = Some f ->
  get_syls E dec labels onsets_Hz offsets_Hz mask st = (tg, inr S) ->
  forallb (spect_is_nan E) S = true ->
  ftr st = None ->
  feature_step E dec labels onsets_Hz offsets_Hz mask ftr_ind name st
  = (tg, inl (UnboundLocalError "ftr")).
Proof.
  intros Hf Hg Hnan Hftr. unfold feature_step. rewrite Hf.
  unfold single_syl_case. rewrite Hg, bind_pair_inr.
  rewrite syl_loop_all_nan.
  - rewrite bind_ret_l, Hftr. cbn [fst snd]. unfold append_single.
    destruct (features_arr st); simpl; now rewrite app_nil_r.
  - unfold enumerate.
    now rewrite (proj1 (enumerate_from_snd (spect_is_nan E) S 0)).
Qed.

(** C5, at an input where the code departs from it: a file whose only
    retained segment is too short for a spectrogram, and a single-syllable
    feature.  The builder does not return a row of not-a-number: it fails
    on the unbound local [ftr], and with it the loop of [extract] over the
    files.  The same happens when a multiple-syllable feature comes first
    and when several segments are retained, none with a spectrogram. *)
Theorem no_spectrogram_aborts_file :
  _from_file (Demo.env true) ["amplitude"] "bird.cbin" (labels_arr ["a"]%char)
             [0]%Z [2]%Z "all"
  = ([ev_make_syls], inl (UnboundLocalError "ftr"))
  /\ _from_file (Demo.env true) ["gapdur"; "amplitude"] "bird.cbin"
                (labels_arr ["a"; "b"; "c"]%char) [0; 10; 20]%Z [2; 13; 23]%Z "ab"
     = ([ev_multiple "gapdur"; ev_make_syls], inl (UnboundLocalError "ftr"))
  /\ outcome (extract_loop (Demo.env true) ["amplitude"] "all"
                [{| ann_filename := "short.cbin"; ann_labels := labels_arr ["a"]%char;
                    ann_onsets_Hz := [0]%Z; ann_offsets_Hz := [2]%Z |};
                 {| ann_filename := "long.cbin"; ann_labels := labels_arr ["a"]%char;
                    ann_onsets_Hz := [0]%Z; ann_offsets_Hz := [9]%Z |}]
                (aggregate0 (Demo.env true)))
     = inl (UnboundLocalError "ftr").
Proof. repeat split. Qed.

(** A segment without a spectrogram next to one that has it: its row is
    there, not-a-number in the columns of the single-syllable features. *)
Example missing_value_example :
  match outcome (_from_file (Demo.env true) ["spectral_vec3"; "duration"]
                   "bird.cbin" (labels_str "aabc")
                   [0; 10; 20; 30]%Z [5; 12; 25; 35]%Z "ab") with
  | inr (Some ed) =>
      ed_features_arr ed
      = Some (arr2 4 [[Num 0; Num 5; Num 5; Num 5];
                      [NaN; NaN; NaN; NaN];
                      [Num 20; Num 25; Num 5; Num 5]])
      /\ length (ed_labels ed) = 3
  | _ => False
  end.
Proof. repeat split. Qed.

Lemma list_set_nth_error_other {A} (l : list A) i x l' k :
  list_set l i x = Some l' -> k <> i -> nth_error l' k = nth_error l k.
Proof.
  revert i l' k. induction l as [|h l IH]; intros i l' k; simpl; [discriminate|].
  destruct i as [|j].
  - intros [= <-] Hk. destruct k; [contradiction|reflexivity].
  - destruct (list_set l j x) as [l1|] eqn:Hs; simpl; [|discriminate].
    intros [= <-] Hk. destruct k as [|k]; [reflexivity|]. simpl.
    eapply IH; [exact Hs|]. intros ->. now apply Hk.
Qed.

Lemma nth_error_repeat {A} (x : A) n k : k < n -> nth_error (repeat x n) k = Some x.
Proof.
  revert k. induction n as [|n IH]; intros k Hk; [lia|].
  destruct k as [|k]; simpl; [reflexivity|]. apply IH. lia.
Qed.

Lemma full_nan1_row n k : k < n -> row_is_nan (full_nan1 n) k /\ shape0 (full_nan1 n) = n.
Proof. intros Hk. simpl. split; [now apply nth_error_repeat|apply repeat_length]. Qed.

Lemma full_nan2_row n w k :
  k < n -> row_is_nan (full_nan2 n w) k /\ shape0 (full_nan2 n w) = n.
Proof. intros Hk. simpl. split; [now apply nth_error_repeat|apply repeat_length]. Qed.

Lemma setitem_scalar_row a ind c t a' k :
  setitem_scalar a ind c = (t, inr a') -> k <> ind ->
  (row_is_nan a k -> row_is_nan a' k) /\ shape0 a' = shape0 a.
Proof.
  destruct a as [v|w rows]; simpl.
  - destruct (list_set v ind c) as [v'|] eqn:Hs; [|discriminate].
    intros [= _ <-] Hk. simpl. split.
    + now rewrite (list_set_nth_error_other _ _ _ _ _ Hs Hk).
    + eapply list_set_length, Hs.
  - destruct (list_set rows ind (repeat c w)) as [rows'|] eqn:Hs; [|discriminate].
    intros [= _ <-] Hk. simpl. split.
    + now rewrite (list_set_nth_error_other _ _ _ _ _ Hs Hk).
    + eapply list_set_length, Hs.
Qed.

Lemma setitem_row_row a ind v t a' k :
  setitem_row a ind v = (t, inr a') -> k <> ind ->
  (row_is_nan a k -> row_is_nan a' k) /\ shape0 a' = shape0 a.
Proof.
  destruct a as [v0|w rows]; simpl; [discriminate|].
  destruct (Nat.ltb ind (length rows)); [|discriminate].
  destruct (Nat.eqb (length v) w).
  - destruct (list_set rows ind v) as [rows'|] eqn:Hs; [|discriminate].
    intros [= _ <-] Hk. simpl. split.
    + now rewrite (list_set_nth_error_other _ _ _ _ _ Hs Hk).
    + eapply list_set_length, Hs.
  - destruct v as [|c [|]]; try discriminate.
    destruct (list_set rows ind (repeat c w)) as [rows'|] eqn:Hs; [|discriminate].
    intros [= _ <-] Hk. simpl. split.
    + now rewrite (list_set_nth_error_other _ _ _ _ _ Hs Hk).
    + eapply list_set_length, Hs.
Qed.

(** The loop over the syllables leaves not-a-number in the row of a
    syllable without a spectrogram, and one row per syllable. *)
Lemma syl_loop_nan_row E name f len_syls k isyls :
  k < len_syls ->
  (forall ind syl, In (ind, syl) isyls -> spect_is_nan E syl = false -> ind <> k) ->
  forall ftr0 curr0 t ftr' c,
    match curr0 with
    | Some a => row_is_nan a k /\ shape0 a = len_syls
    | None => True
    end ->
    syl_loop E name f len_syls isyls ftr0 curr0 = (t, inr (ftr', Some c)) ->
    row_is_nan c k /\ shape0 c = len_syls.
Proof.
  intros Hk. induction isyls as [|[ind syl] rest IH]; intros Hne ftr0 curr0 t ftr' c H0;
    cbn [syl_loop].
  - intros [= _ _ ->]. exact H0.
  - destruct (spect_is_nan E syl) eqn:Hnan.
    + apply IH; [|exact H0]. intros i s Hin. apply Hne. now right.
    + intros H. apply bind_inv in H. destruct H as (? & ? & ? & _ & H & _).
      apply bind_inv in H. destruct H as (? & c1 & ? & Hc & H & _).
      assert (Hind : k <> ind).
      { intros ->. eapply Hne; [left; reflexivity|exact Hnan|reflexivity]. }
      eapply IH; [intros i s Hin; apply Hne; now right| |exact H].
      destruct curr0 as [a|], (f syl) as [fc|v].
      * destruct (setitem_scalar_row _ _ _ _ _ k Hc Hind) as [Hr Hs].
        split; [apply Hr, H0|]. rewrite Hs. apply H0.
      * destruct (setitem_row_row _ _ _ _ _ k Hc Hind) as [Hr Hs].
        split; [apply Hr, H0|]. rewrite Hs. apply H0.
      * destruct (setitem_scalar_row _ _ _ _ _ k Hc Hind) as [Hr Hs].
        destruct (full_nan1_row len_syls k Hk) as [Hn Hl].
        split; [now apply Hr|]. now rewrite Hs.
      * destruct (setitem_row_row _ _ _ _ _ k Hc Hind) as [Hr Hs].
        destruct (full_nan2_row len_syls (length v) k Hk) as [Hn Hl].
        split; [now apply Hr|]. now rewrite Hs.
Qed.

Lemma enumerate_from_In {A} (l : list A) i ind x :
  In (ind, x) (enumerate_from i l) -> i <= ind /\ nth_error l (ind - i) = Some x.
Proof.
  revert i. induction l as [|y l IH]; intros i; simpl; [intros []|].
  intros [[= <- <-]|Hin].
  - rewrite Nat.sub_diag. auto.
  - destruct (IH _ Hin) as [Hle Hn]. split; [lia|].
    replace (ind - i) with (S (ind - S i)) by lia. exact Hn.
Qed.

Lemma columns_nan_row a k :
  well_shaped a -> row_is_nan a k ->
  Forall (fun col => nth_error col k = Some NaN /\ length col = shape0 a) (columns a).
Proof.
  destruct a as [v|w rows]; simpl; intros Hw Hr.
  - constructor; [auto|constructor].
  - apply Forall_forall. intros col Hin. apply in_map_iff in Hin.
    destruct Hin as (j & <- & Hj). apply in_seq in Hj.
    split; [|apply length_map].
    rewrite nth_error_map, Hr. simpl. f_equal.
    apply nth_error_nth. apply nth_error_repeat. lia.
Qed.

(** For a run that returns: in the columns of a single-syllable feature, a
    syllable without a spectrogram has not-a-number, and there is one entry
    per syllable. *)
Lemma single_syl_columns_nan_row E dec labels onsets_Hz offsets_Hz mask
    name f t0 st0 tg S k s :
  single_syl_features_switch_case_dict E name = Some f ->
  step_alone E dec labels onsets_Hz offsets_Hz mask name = (t0, inr st0) ->
  get_syls E dec labels onsets_Hz offsets_Hz mask (locals0 E) = (tg, inr S) ->
  nth_error S k = Some s ->
  spect_is_nan E s = true ->
  Forall (fun col => nth_error col k = Some NaN /\ length col = length S)
         (columns_opt (features_arr st0)).
Proof.
  intros Hf Hstep Hg Hk Hnan.
  unfold step_alone, feature_step in Hstep. rewrite Hf in Hstep.
  unfold single_syl_case in Hstep. rewrite Hg, bind_pair_inr in Hstep.
  injection Hstep as _ Hstep.
  destruct (r <- syl_loop E name f (length S) (enumerate S) None None ;;
            append_single E 0 (locals0 E) S (fst r) (snd r)) as [t1 o] eqn:Hrun.
  simpl in Hstep. subst o.
  apply bind_inv in Hrun. destruct Hrun as (tl & [ftr' curr'] & ? & Hl & Ha & _).
  destruct (append_single_inv _ _ _ _ _ _ _ _ Ha)
    as (last & curr & Hftr & Hcurr & _ & _ & _ & Hfa).
  cbn [fst snd] in *. subst ftr' curr'. simpl in Hfa. rewrite Hfa. simpl.
  assert (Hlen : k < length S) by (apply nth_error_Some; congruence).
  destruct (syl_loop_nan_row E name f (length S) k (enumerate S) Hlen) with
    (ftr0 := @None Ftr) (curr0 := @None ndarray) (t := tl)
    (ftr' := Some last) (c := curr) as [Hrow Hshape]; [|exact I|exact Hl|].
  { intros ind syl Hin Hsyl ->. apply enumerate_from_In in Hin.
    destruct Hin as [_ Hin]. rewrite Nat.sub_0_r, Hk in Hin.
    injection Hin as <-. congruence. }
  pose proof (syl_loop_well_shaped E name f _ _ _ None _ _ _ I Hl) as Hw.
  rewrite <- Hshape. now apply columns_nan_row.
Qed.

(* ------------------------------------------------------------------ *)
(** ** The tensor that one neural-net feature contributes *)

Lemma dict_get_set_same {V} (d : dict V) k v : dict_get (dict_set d k v) k = Some v.
Proof.
  induction d as [|[k' v'] d IH]; simpl.
  - now rewrite String.eqb_refl.
  - destruct (String.eqb k k') eqn:Hk; simpl; rewrite Hk; [reflexivity|exact IH].
Qed.

Lemma dict_get_set_other {V} (d : dict V) k v n :
  n <> k -> dict_get (dict_set d k v) n = dict_get d n.
Proof.
  intros Hn. induction d as [|[k' v'] d IH]; simpl.
  - destruct (String.eqb_spec n k); [contradiction|reflexivity].
  - destruct (String.eqb_spec k k') as [<-|Hk]; simpl.
    + destruct (String.eqb_spec n k); [contradiction|reflexivity].
    + destruct (String.eqb n k'); [reflexivity|exact IH].
Qed.

Section Tensors.

Variable E : Collaborators.
Variable dec : option (Audio E * Z).
Variable labels : list ascii.
Variable onsets_Hz offsets_Hz : list Z.
Variable mask : list bool.

(** What a round of the loop for a neural-net feature does to the dict. *)
Lemma neural_net_case_inv name h (st : locals E) t st' :
  neural_net_case E dec labels onsets_Hz offsets_Hz mask name h st = (t, inr st') ->
  exists raw sf l on off,
    dec = Some (raw, sf)
    /\ mask_index labels mask = ret l
    /\ mask_index onsets_Hz mask = ret on
    /\ mask_index offsets_Hz mask = ret off
    /\ (forall n, n <> name ->
          tensor_of (neuralnet_inputs_dict st') n
          = tensor_of (neuralnet_inputs_dict st) n)
    /\ (tensor_of (neuralnet_inputs_dict st) name = None ->
        tensor_of (neuralnet_inputs_dict st') name = Some (h raw sf l on off)).
Proof.
  unfold neural_net_case. intros H.
  apply bind_inv in H. destruct H as (t1 & raw & ? & Hraw & H & _).
  apply bind_inv in H. destruct H as (t2 & sf & ? & Hsf & H & _).
  apply bind_inv in H. destruct H as (t3 & l & ? & Hl & H & _).
  apply bind_inv in H. destruct H as (t4 & on & ? & Hon & H & _).
  apply bind_inv in H. destruct H as (t5 & off & ? & Hoff & H & _).
  apply bind_inv in H. destruct H as (? & ? & ? & _ & H & _).
  apply bind_inv in H. destruct H as (? & d' & ? & Hd & H & _).
  injection H as _ <-. simpl.
  destruct dec as [[raw0 sf0]|]; [|discriminate].
  injection Hraw as _ <-. injection Hsf as _ <-.
  apply mask_index_inv in Hl, Hon, Hoff.
  destruct Hl as (_ & -> & Ll), Hon as (_ & -> & Lon), Hoff as (_ & -> & Loff).
  exists raw0, sf0, (select labels mask), (select onsets_Hz mask),
         (select offsets_Hz mask).
  split; [reflexivity|].
  split; [now apply (mask_index_same_length (B := bool))|].
  split; [now apply (mask_index_same_length (B := bool))|].
  split; [now apply (mask_index_same_length (B := bool))|].
  destruct (neuralnet_inputs_dict st) as [d|]; simpl.
  - destruct (dict_get d name) as [old|] eqn:Hget.
    + destruct (is_ndarray E old).
      * apply bind_inv in Hd. destruct Hd as (? & c & ? & _ & Hd & _).
        injection Hd as _ <-. split; [|discriminate].
        intros n Hn. now apply dict_get_set_other.
      * injection Hd as _ <-. split; [reflexivity|discriminate].
    + injection Hd as _ <-. split.
      * intros n Hn. now apply dict_get_set_other.
      * intros _. apply dict_get_set_same.
  - injection Hd as _ <-. split.
    + intros n Hn. simpl. destruct (String.eqb_spec n name); [contradiction|reflexivity].
    + intros _. simpl. now rewrite String.eqb_refl.
Qed.

(** A round of the loop leaves the tensors of the other names alone; for
    its own name, when there is no tensor yet, it leaves the tensor that
    the round leaves from fresh locals. *)
Lemma feature_step_tensor ftr_ind name (st : locals E) t st' :
  feature_step E dec labels onsets_Hz offsets_Hz mask ftr_ind name st = (t, inr st') ->
  (forall n, n <> name ->
     tensor_of (neuralnet_inputs_dict st') n = tensor_of (neuralnet_inputs_dict st) n)
  /\ (tensor_of (neuralnet_inputs_dict st) name = None ->
      forall t0 st0,
        step_alone E dec labels onsets_Hz offsets_Hz mask name = (t0, inr st0) ->
        tensor_of (neuralnet_inputs_dict st') name
        = tensor_of (neuralnet_inputs_dict st0) name).
Proof.
  unfold step_alone, feature_step. intros H.
  destruct (single_syl_features_switch_case_dict E name) as [f|].
  { unfold single_syl_case in H.
    apply bind_inv in H. destruct H as (? & S & ? & _ & H & _).
    apply bind_inv in H. destruct H as (? & r & ? & _ & H & _).
    destruct (append_single_inv _ _ _ _ _ _ _ _ H)
      as (? & ? & _ & _ & _ & Hnn & _).
    rewrite Hnn. split; [reflexivity|]. intros Hnone t0 st0 H0.
    apply bind_inv in H0. destruct H0 as (? & S0 & ? & _ & H0 & _).
    apply bind_inv in H0. destruct H0 as (? & r0 & ? & _ & H0 & _).
    destruct (append_single_inv _ _ _ _ _ _ _ _ H0)
      as (? & ? & _ & _ & _ & Hnn0 & _).
    now rewrite Hnn0, Hnone. }
  destruct (multiple_syl_features_switch_case_dict E name) as [g|].
  { unfold multiple_syl_case in H.
    apply bind_inv in H. destruct H as (? & ? & ? & _ & H & _).
    apply bind_inv in H. destruct H as (? & fa' & ? & _ & H & _).
    injection H as _ <-. simpl. split; [reflexivity|].
    intros Hnone t0 st0 H0. injection H0 as _ <-. simpl. exact Hnone. }
  destruct (neural_net_features_switch_case_dict E name) as [h|].
  { destruct (neural_net_case_inv _ _ _ _ _ H)
      as (raw & sf & l & on & off & Hdec & Hl & Hon & Hoff & Hother & Hown).
    split; [exact Hother|]. intros Hnone t0 st0 H0.
    destruct (neural_net_case_inv _ _ _ _ _ H0)
      as (raw0 & sf0 & l0 & on0 & off0 & Hdec0 & Hl0 & Hon0 & Hoff0 & _ & Hown0).
    rewrite (Hown Hnone), (Hown0 eq_refl).
    unfold ret in *. congruence. }
  injection H as _ <-. split; [reflexivity|].
  intros Hnone t0 st0 [= _ <-]. exact Hnone.
Qed.

Lemma feature_loop_tensor name ifeatures :
  forall (st : locals E) t st',
    feature_loop E dec labels onsets_Hz offsets_Hz mask ifeatures st = (t, inr st') ->
    (count_occ string_dec (map snd ifeatures) name = 0 ->
     tensor_of (neuralnet_inputs_dict st') name
     = tensor_of (neuralnet_inputs_dict st) name)
    /\ (count_occ string_dec (map snd ifeatures) name = 1 ->
        tensor_of (neuralnet_inputs_dict st) name = None ->
        forall t0 st0,
          step_alone E dec labels onsets_Hz offsets_Hz mask name = (t0, inr st0) ->
          tensor_of (neuralnet_inputs_dict st') name
          = tensor_of (neuralnet_inputs_dict st0) name).
Proof.
  induction ifeatures as [|[i n] rest IH]; intros st t st' H; simpl in H.
  - injection H as _ <-. split; [reflexivity|discriminate].
  - apply bind_inv in H. destruct H as (t1 & st1 & t2 & Hstep & Hrest & _).
    destruct (feature_step_tensor _ _ _ _ _ Hstep) as [Hother Hown].
    destruct (IH _ _ _ Hrest) as [IH0 IH1].
    cbn [map snd count_occ]. destruct (string_dec n name) as [->|Hn].
    + split; [discriminate|]. intros [= Hc] Hnone t0 st0 H0.
      rewrite (IH0 Hc). now apply (Hown Hnone t0 st0).
    + split.
      * intros Hc. rewrite (IH0 Hc). apply Hother. congruence.
      * intros Hc Hnone t0 st0 H0. refine (IH1 Hc _ t0 st0 H0).
        rewrite Hother; [exact Hnone|congruence].
Qed.

End Tensors.

(* ------------------------------------------------------------------ *)
(** ** No feature depends on another *)

Lemma map_snd_enumerate_from {A} (l : list A) i : map snd (enumerate_from i l) = l.
Proof. revert i. induction l as [|x l IH]; intros i; simpl; [reflexivity|]. now rewrite IH. Qed.

(** What holds of the runs that return: when [_from_file] returns a result,
    the builder run on each feature alone returns one too, the columns of
    the feature array are, feature after feature, the columns that each
    feature gets when it is run alone, the column map repeats the position of
    each feature once per column-map entry that it gets alone, and the tensor
    under a name that is listed once is the tensor that this feature gets
    alone.  [columns] reads a 1-d array as one column, and a [cell] is the
    number that an entry holds: the dtype that numpy gives an array (an
    integer column becomes float64 when it is joined to float columns) is not
    part of it. *)
Lemma features_do_not_interfere :
  forall (E : Collaborators) (feature_list : list string) (filename : string)
         (labels : labels_arg) (onsets_Hz offsets_Hz : list Z)
         (labels_to_use : string) (t : list event) (ed : extract_dict E),
    _from_file E feature_list filename labels onsets_Hz offsets_Hz labels_to_use
      = (t, inr (Some ed)) ->
    Forall (fun name =>
              alone E filename labels onsets_Hz offsets_Hz labels_to_use name
              <> None) feature_list
    /\ columns_opt (ed_features_arr ed)
       = flat_map (columns_alone E filename labels onsets_Hz offsets_Hz labels_to_use)
                  feature_list
    /\ match ed_feature_inds ed with
       | Some inds => inds
       | None => []
       end
       = flat_map (fun p => repeat (fst p)
                              (width_alone E filename labels onsets_Hz offsets_Hz
                                           labels_to_use (snd p)))
                  (enumerate feature_list)
    /\ (forall name,
          count_occ string_dec feature_list name = 1 ->
          tensor_of (ed_neuralnet_inputs_dict ed) name
          = tensor_alone E filename labels onsets_Hz offsets_Hz labels_to_use name).
Proof.
  intros E fl filename labels on off ltu t ed H.
  destruct (from_file_inv _ _ _ _ _ _ _ _ _ H)
    as (mask & st & l & on' & off' & sf & Hm & Hany & Hloop & Hl & Hon & Hoff
        & Hsf & ->).
  destruct (feature_loop_alone E _ _ _ _ _ _ _ _ _
              (locals0_ok E _ _ _ _ _) Hloop)
    as (Hcols & Hinds & Hall & (_ & Hnone & _)).
  simpl in Hcols, Hinds. cbn [ed_features_arr ed_feature_inds].
  assert (Halone : Forall (fun p =>
            let name := snd p in
            alone E filename labels on off ltu name <> None
            /\ columns_alone E filename labels on off ltu name
               = step_columns E (decode E filename) (labels_iter labels) on off
                              mask name
            /\ width_alone E filename labels on off ltu name
               = step_width E (decode E filename) (labels_iter labels) on off
                            mask name) (enumerate fl)).
  { eapply Forall_impl; [|exact Hall]. intros [i name] (t0 & st0 & Hstep & Hn0).
    cbn [snd] in *.
    pose proof (from_file_alone E filename labels on off ltu mask l on' off' sf
                  name t0 st0 Hm Hany Hl Hon Hoff Hsf Hstep) as Ha.
    unfold columns_alone, width_alone, step_columns, step_width.
    rewrite Ha, Hstep. cbn [outcome snd ed_features_arr ed_feature_inds].
    split; [discriminate|]. split; [reflexivity|].
    destruct (features_arr st0); [reflexivity|]. now rewrite Hn0. }
  split; [|split; [|split]].
  - apply (Forall_enumerate_snd
             (fun name => alone E filename labels on off ltu name <> None) fl 0).
    eapply Forall_impl; [|exact Halone]. intros p Hp. apply Hp.
  - rewrite Hcols. unfold enumerate.
    rewrite <- (flat_map_enumerate_snd
                  (columns_alone E filename labels on off ltu) fl 0).
    apply flat_map_ext_Forall.
    eapply Forall_impl; [|exact Halone]. intros p Hp. symmetry. apply Hp.
  - transitivity (feature_inds st).
    { destruct (features_arr st); [reflexivity|]. now rewrite Hnone. }
    rewrite Hinds. apply flat_map_ext_Forall.
    eapply Forall_impl; [|exact Halone]. intros p (_ & _ & Hp). now rewrite Hp.
  - intros name Hcount. cbn [ed_neuralnet_inputs_dict].
    assert (Hin : In name fl) by (apply (count_occ_In string_dec); lia).
    apply (Forall_enumerate_snd
             (fun name => exists t0 st0,
                  step_alone E (decode E filename) (labels_iter labels) on off
                             mask name = (t0, inr st0)
                  /\ (features_arr st0 = None -> feature_inds st0 = [])) fl 0)
      in Hall.
    rewrite Forall_forall in Hall. destruct (Hall name Hin) as (t0 & st0 & Hstep & _).
    pose proof (from_file_alone E filename labels on off ltu mask l on' off' sf
                  name t0 st0 Hm Hany Hl Hon Hoff Hsf Hstep) as Ha.
    unfold tensor_alone. rewrite Ha. cbn [ed_neuralnet_inputs_dict].
    destruct (feature_loop_tensor E _ _ _ _ _ name _ _ _ _ Hloop) as [_ Hone].
    apply Hone with (t0 := t0); [|reflexivity|exact Hstep].
    unfold enumerate. now rewrite map_snd_enumerate_from.
Qed.

Example features_do_not_interfere_example :
  Forall (fun name =>
            alone (Demo.env false) "bird.cbin" (labels_str "aabc")
                  [0; 10; 20; 30]%Z [5; 15; 25; 35]%Z "ab" name <> None)
         ["duration"; "flatwindow"; "spectral_vec3"; "amplitude"]
  /\ flat_map (columns_alone (Demo.env false) "bird.cbin" (labels_str "aabc")
                             [0; 10; 20; 30]%Z [5; 15; 25; 35]%Z "ab")
              ["duration"; "flatwindow"; "spectral_vec3"; "amplitude"]
     = [[Num 5; Num 5; Num 5];
        [Num 0; Num 10; Num 20]; [Num 5; Num 15; Num 25]; [Num 5; Num 5; Num 5];
        [Num 5; Num 25; Num 45]].
Proof.
  destruct (_from_file (Demo.env false)
              ["duration"; "flatwindow"; "spectral_vec3"; "amplitude"] "bird.cbin"
              (labels_str "aabc") [0; 10; 20; 30]%Z [5; 15; 25; 35]%Z "ab")
    as [t [e|[ed|]]] eqn:Hrun; try discriminate.
  destruct (features_do_not_interfere _ _ _ _ _ _ _ _ _ Hrun)
    as (Halone & Hcols & _).
  split; [exact Halone|]. rewrite <- Hcols.
  injection Hrun as _ <-. reflexivity.
Defined.


(* ------------------------------------------------------------------ *)
(** ** A feature whose outcome depends on the features after it *)

(** C8, at inputs where the code departs from it: the values that a feature
    gets depend on the other features of [feature_list] and on their order.
    Whenever a feature [a] run alone returns a 1-d feature array (line 583
    keeps the array of a scalar single-syllable feature as it is), the run on
    [a] followed by any single- or multiple-syllable feature [b] raises and
    returns nothing, whatever [b] gives alone.  For two single-syllable
    features of the example collaborators: each returns a result alone, the
    list with the scalar one first raises numpy's error, and the list in the
    other order returns an array of shape (3, 4). *)
Theorem feature_order_decides_outcome :
  (forall (E : Collaborators) (filename : string) (labels : labels_arg)
          (onsets_Hz offsets_Hz : list Z) (labels_to_use : string)
          (a b : string) (t : list event) (ed : extract_dict E) (v : list cell),
      _from_file E [a] filename labels onsets_Hz offsets_Hz labels_to_use
        = (t, inr (Some ed)) ->
      ed_features_arr ed = Some (arr1 v) ->
      single_syl_features_switch_case_dict E b <> None
      \/ multiple_syl_features_switch_case_dict E b <> None ->
      exists e,
        outcome (_from_file E [a; b] filename labels onsets_Hz offsets_Hz
                            labels_to_use) = inl e)
  /\ (let run feature_list :=
         _from_file (Demo.env false) feature_list "bird.cbin" (labels_str "aabc")
                    [0; 10; 20; 30]%Z [5; 15; 25; 35]%Z "ab" in
       let shape (r : exn + option (extract_dict (Demo.env false))) :=
         match r with
         | inr (Some ed) =>
             inr (option_map (fun a => (shape0 a, ncolumns a)) (ed_features_arr ed),
                  ed_feature_inds ed)
         | inr None => inr (None, None)
         | inl e => inl e
         end in
       shape (outcome (run ["amplitude"])) = inr (Some (3, None), Some [0])
       /\ shape (outcome (run ["spectral_vec3"]))
          = inr (Some (3, Some 3), Some [0; 0; 0])
       /\ outcome (run ["amplitude"; "spectral_vec3"]) = inl ValueError
       /\ shape (outcome (run ["spectral_vec3"; "amplitude"]))
          = inr (Some (3, Some 4), Some [0; 0; 0; 1])).
Proof.
  split; [|repeat split].
  intros E filename labels on off ltu a b t ed v H Hfa Hkind.
  destruct (from_file_inv _ _ _ _ _ _ _ _ _ H)
    as (mask & st & l & on' & off' & sf & Hm & Hany & Hloop & _ & _ & _ & _ & ->).
  cbn [ed_features_arr] in Hfa.
  unfold enumerate in Hloop. cbn [enumerate_from feature_loop] in Hloop.
  apply bind_inv in Hloop. destruct Hloop as (t1 & st1 & t2 & Hstep & Hret & _).
  injection Hret as _ ->.
  destruct (one_d_features_arr_blocks E (decode E filename) (labels_iter labels)
              on off mask 1 b st v Hfa Hkind) as [e He].
  exists e. unfold _from_file. rewrite Hm, bind_ret_l, Hany. cbn [negb].
  rewrite outcome_bind. unfold enumerate. cbn [enumerate_from feature_loop].
  rewrite Hstep, bind_pair_inr. cbn [outcome snd].
  change (snd ?m) with (outcome m). now rewrite outcome_bind, He.
Qed.

Lemma feature_order_decides_outcome_witness :
  exists e,
    outcome (_from_file (Demo.env false) ["amplitude"; "spectral_vec3"] "bird.cbin"
                        (labels_str "aabc") [0; 10; 20; 30]%Z [5; 15; 25; 35]%Z
                        "ab") = inl e.
Proof.
  eapply (proj1 feature_order_decides_outcome (Demo.env false) "bird.cbin"
            (labels_str "aabc") [0; 10; 20; 30]%Z [5; 15; 25; 35]%Z "ab"
            "amplitude" "spectral_vec3");
    [reflexivity | reflexivity | left; discriminate].
Defined.


(** A result of [_from_file] has a column map exactly when it has a feature
    array. *)
Lemma from_file_inds_iff_features E feature_list filename labels onsets_Hz
    offsets_Hz labels_to_use t ed :
  _from_file E feature_list filename labels onsets_Hz offsets_Hz labels_to_use
    = (t, inr (Some ed)) ->
  (ed_feature_inds ed = None <-> ed_features_arr ed = None).
Proof.
  intros H. destruct (from_file_inv _ _ _ _ _ _ _ _ _ H)
    as (mask & st & l & on & off & sf & _ & _ & _ & _ & _ & _ & _ & ->).
  simpl. destruct (features_arr st); split; auto; discriminate.
Qed.

(* ------------------------------------------------------------------ *)
(** ** Inputs on which the builder gives no result *)

Lemma use_these_labels_bool_cases (labels : labels_arg) (labels_to_use : string) :
  use_these_labels_bool labels labels_to_use = raise AttributeError
  \/ exists mask, use_these_labels_bool labels labels_to_use = ret mask.
Proof.
  unfold use_these_labels_bool. destruct (String.eqb _ _); [destruct labels|]; eauto.
Qed.

Lemma mask_index_wrong_length {A} (a : list A) (mask : list bool) :
  length a <> length mask -> mask_index a mask = raise IndexError.
Proof.
  intros H. unfold mask_index.
  destruct (Nat.eqb_spec (length a) (length mask)); [contradiction|reflexivity].
Qed.

(** X1: a file whose [onsets_Hz] or [offsets_Hz] does not have one entry per
    label never yields a result: [_from_file] returns [None] with its
    warning when no label matches, and raises otherwise -- the index error
    of the boolean mask, unless the feature loop raised before. *)
Theorem from_file_unequal_lengths :
  forall (E : Collaborators) (feature_list : list string) (filename : string)
         (labels : labels_arg) (onsets_Hz offsets_Hz : list Z)
         (labels_to_use : string),
    length onsets_Hz <> length (labels_iter labels)
    \/ length offsets_Hz <> length (labels_iter labels) ->
    _from_file E feature_list filename labels onsets_Hz offsets_Hz labels_to_use
      = ([ev_warn filename labels_to_use], inr None)
    \/ (exists e, outcome (_from_file E feature_list filename labels onsets_Hz
                                      offsets_Hz labels_to_use) = inl e)
       /\ forall mask t st,
            use_these_labels_bool labels labels_to_use = ret mask ->
            feature_loop E (decode E filename) (labels_iter labels) onsets_Hz
                         offsets_Hz mask (enumerate feature_list) (locals0 E)
              = (t, inr st) ->
            _from_file E feature_list filename labels onsets_Hz offsets_Hz
                       labels_to_use = (t, inl IndexError).
Proof.
  intros E fl filename labels on off ltu Hlen. unfold _from_file.
  destruct (use_these_labels_bool_cases labels ltu) as [Hm|[mask Hm]].
  { right. rewrite Hm. split; [now exists AttributeError|]. discriminate. }
  rewrite Hm, bind_ret_l.
  destruct (np_any mask); simpl negb; cbv iota; [|now left].
  right. pose proof (mask_length _ _ _ Hm) as Lm.
  assert (Htail : forall st : locals E,
    (l <- mask_index (labels_iter labels) mask ;;
     on0 <- mask_index on mask ;;
     off0 <- mask_index off mask ;;
     samp_freq <- read_samp_freq E (decode E filename) ;;
     ret (Some {| ed_labels := l; ed_onsets_Hz := on0; ed_offsets_Hz := off0;
                  ed_features_arr := features_arr st;
                  ed_feature_inds := match features_arr st with
                                     | Some _ => Some (feature_inds st)
                                     | None => None
                                     end;
                  ed_neuralnet_inputs_dict := neuralnet_inputs_dict st;
                  ed_samp_freq := samp_freq |}))
    = raise IndexError).
  { intros st.
    rewrite (mask_index_same_length (B := bool) _ mask mask), bind_ret_l
      by (now symmetry).
    destruct (Nat.eq_dec (length on) (length mask)) as [Lon|Lon].
    - rewrite (mask_index_same_length (B := bool) _ mask mask Lon), bind_ret_l.
      rewrite mask_index_wrong_length; [reflexivity|].
      destruct Hlen as [H|H]; congruence.
    - now rewrite mask_index_wrong_length. }
  split.
  - rewrite outcome_bind. destruct (outcome _) as [e|st]; [now exists e|].
    rewrite Htail. now exists IndexError.
  - intros m t st [= <-] Hloop. rewrite Hloop, bind_pair_inr, Htail. simpl.
    now rewrite app_nil_r.
Qed.

Lemma from_file_unequal_lengths_witness :
  _from_file (Demo.env false) ["gapdur"] "bird.cbin" (labels_str "aab")
             [0; 10]%Z [5; 15; 25]%Z "ab"
  = ([ev_multiple "gapdur"], inl IndexError).
Proof.
  destruct (from_file_unequal_lengths (Demo.env false) ["gapdur"] "bird.cbin"
              (labels_str "aab") [0; 10]%Z [5; 15; 25]%Z "ab")
    as [H|[_ H]].
  - left. simpl. discriminate.
  - discriminate H.
  - exact (H [true; true; true] _ _ eq_refl eq_refl).
Defined.

(** X2: for a file name that ends neither in [.cbin] nor in [.wav] the
    audio is never decoded, and [_from_file] yields no result: it returns
    [None] with its warning when no label matches (the audio is not needed
    for that), and raises otherwise -- on the unbound [samp_freq] of line 627
    when the feature loop and the masks went through. *)
Theorem from_file_unknown_extension :
  forall (E : Collaborators) (feature_list : list string) (filename : string)
         (labels : labels_arg) (onsets_Hz offsets_Hz : list Z)
         (labels_to_use : string),
    endswith filename ".cbin" = false ->
    endswith filename ".wav" = false ->
    _from_file E feature_list filename labels onsets_Hz offsets_Hz labels_to_use
      = ([ev_warn filename labels_to_use], inr None)
    \/ (exists e, outcome (_from_file E feature_list filename labels onsets_Hz
                                     offsets_Hz labels_to_use) = inl e)
       /\ forall mask t st,
            use_these_labels_bool labels labels_to_use = ret mask ->
            feature_loop E None (labels_iter labels) onsets_Hz offsets_Hz mask
                         (enumerate feature_list) (locals0 E) = (t, inr st) ->
            length onsets_Hz = length mask ->
            length offsets_Hz = length mask ->
            _from_file E feature_list filename labels onsets_Hz offsets_Hz
                       labels_to_use = (t, inl (UnboundLocalError "samp_freq")).
Proof.
  intros E fl filename labels on off ltu Hc Hw. unfold _from_file, decode.
  rewrite Hc, Hw.
  destruct (use_these_labels_bool_cases labels ltu) as [Hm|[mask Hm]].
  { right. rewrite Hm. split; [now exists AttributeError|]. discriminate. }
  rewrite Hm, bind_ret_l.
  destruct (np_any mask); simpl negb; cbv iota; [|now left].
  right. split.
  - rewrite outcome_bind. destruct (outcome _) as [e|st]; [now exists e|].
    rewrite outcome_bind.
    destruct (outcome (mask_index (labels_iter labels) mask)) as [e|l];
      [now exists e|].
    rewrite outcome_bind.
    destruct (outcome (mask_index on mask)) as [e|on0]; [now exists e|].
    rewrite outcome_bind.
    destruct (outcome (mask_index off mask)) as [e|off0]; [now exists e|].
    now exists (UnboundLocalError "samp_freq").
  - intros m t st [= <-] Hloop Lon Loff. rewrite Hloop, bind_pair_inr.
    rewrite (mask_index_same_length (B := bool) _ mask mask), bind_ret_l
      by (symmetry; eapply mask_length, Hm).
    rewrite (mask_index_same_length (B := bool) _ mask mask Lon), bind_ret_l.
    rewrite (mask_index_same_length (B := bool) _ mask mask Loff), bind_ret_l.
    simpl. now rewrite app_nil_r.
Qed.

Lemma from_file_unknown_extension_witness :
  _from_file (Demo.env false) ["gapdur"] "bird.mp3" (labels_str "aab")
             [0; 10; 20]%Z [5; 15; 25]%Z "ab"
  = ([ev_multiple "gapdur"], inl (UnboundLocalError "samp_freq"))
  /\ _from_file (Demo.env false) ["gapdur"] "bird.mp3" (labels_str "ccc")
                [0; 10; 20]%Z [5; 15; 25]%Z "ab"
     = ([ev_warn "bird.mp3" "ab"], inr None).
Proof.
  split.
  - destruct (from_file_unknown_extension (Demo.env false) ["gapdur"] "bird.mp3"
                (labels_str "aab") [0; 10; 20]%Z [5; 15; 25]%Z "ab"
                eq_refl eq_refl) as [H|[_ H]].
    + discriminate H.
    + exact (H [true; true; true] _ _ eq_refl eq_refl eq_refl eq_refl).
  - destruct (from_file_unknown_extension (Demo.env false) ["gapdur"] "bird.mp3"
                (labels_str "ccc") [0; 10; 20]%Z [5; 15; 25]%Z "ab"
                eq_refl eq_refl) as [H|[[e H] _]].
    + exact H.
    + discriminate H.
Defined.

(* ------------------------------------------------------------------ *)
(** ** The shape of the feature array *)

Lemma zip_app_length (r1 r2 : list (list cell)) :
  length r1 = length r2 -> length (zip_app r1 r2) = length r1.
Proof.
  revert r2. induction r1 as [|x r1 IH]; intros [|y r2]; simpl; try discriminate;
    [reflexivity|].
  intros [= H]. now rewrite IH.
Qed.

Lemma concatenate_axis1_shape0 a b t c :
  concatenate_axis1 a b = (t, inr c) -> shape0 c = shape0 a /\ shape0 c = shape0 b.
Proof.
  destruct a as [v1|n1 r1], b as [v2|n2 r2]; simpl; try discriminate.
  destruct (Nat.eqb_spec (length r1) (length r2)) as [Hl|Hl]; [|discriminate].
  intros [= _ <-]. simpl. rewrite zip_app_length by assumption. auto.
Qed.

Lemma setitem_scalar_shape0 a ind c t a' :
  setitem_scalar a ind c = (t, inr a') -> shape0 a' = shape0 a.
Proof.
  destruct a as [v|w rows]; simpl.
  - destruct (list_set v ind c) as [v'|] eqn:Hs; [|discriminate].
    intros [= _ <-]. simpl. eapply list_set_length, Hs.
  - destruct (list_set rows ind (repeat c w)) as [rows'|] eqn:Hs; [|discriminate].
    intros [= _ <-]. simpl. eapply list_set_length, Hs.
Qed.

Lemma setitem_row_shape0 a ind v t a' :
  setitem_row a ind v = (t, inr a') -> shape0 a' = shape0 a.
Proof.
  destruct a as [v0|w rows]; simpl; [discriminate|].
  destruct (Nat.ltb ind (length rows)); [|discriminate].
  destruct (Nat.eqb (length v) w).
  - destruct (list_set rows ind v) as [rows'|] eqn:Hs; [|discriminate].
    intros [= _ <-]. simpl. eapply list_set_length, Hs.
  - destruct v as [|c [|]]; try discriminate.
    destruct (list_set rows ind (repeat c w)) as [rows'|] eqn:Hs; [|discriminate].
    intros [= _ <-]. simpl. eapply list_set_length, Hs.
Qed.

(** The array that the loop over the syllables leaves has one row per
    syllable. *)
Lemma syl_loop_shape0 E name f len_syls isyls :
  forall ftr0 curr0 t ftr' c,
    match curr0 with
    | Some a => shape0 a = len_syls
    | None => True
    end ->
    syl_loop E name f len_syls isyls ftr0 curr0 = (t, inr (ftr', Some c)) ->
    shape0 c = len_syls.
Proof.
  induction isyls as [|[ind syl] rest IH]; intros ftr0 curr0 t ftr' c H0;
    cbn [syl_loop].
  - intros [= _ _ ->]. exact H0.
  - destruct (spect_is_nan E syl); [now apply IH|]. intros H.
    apply bind_inv in H. destruct H as (? & ? & ? & _ & H & _).
    apply bind_inv in H. destruct H as (? & c1 & ? & Hc & H & _).
    eapply IH; [|exact H]. simpl.
    destruct curr0 as [a|], (f syl) as [fc|v].
    + rewrite (setitem_scalar_shape0 _ _ _ _ _ Hc). exact H0.
    + rewrite (setitem_row_shape0 _ _ _ _ _ Hc). exact H0.
    + rewrite (setitem_scalar_shape0 _ _ _ _ _ Hc). apply repeat_length.
    + rewrite (setitem_row_shape0 _ _ _ _ _ Hc). apply repeat_length.
Qed.

Section RowCount.

Variable E : Collaborators.
Variable dec : option (Audio E * Z).
Variable labels : list ascii.
Variable onsets_Hz offsets_Hz : list Z.
Variable mask : list bool.

Hypothesis Hsyls : one_syl_per_onset E.
Hypothesis Hmulti : one_entry_per_segment E.
Hypothesis Lon : length onsets_Hz = length mask.
Hypothesis Loff : length offsets_Hz = length mask.

Local Abbreviation ok := (locals_ok E dec labels onsets_Hz offsets_Hz mask).
Local Abbreviation retained := (length (select onsets_Hz mask)).

Lemma syls_made_length S :
  syls_made E dec labels onsets_Hz offsets_Hz mask S -> length S = retained.
Proof.
  unfold syls_made, get_syls. simpl syls.
  destruct dec as [[raw sf]|]; simpl; [|discriminate].
  rewrite !bind_ret_l. unfold mask_index.
  destruct (Nat.eqb_spec (length labels) (length mask)) as [Ll|]; [|discriminate].
  rewrite bind_ret_l.
  destruct (Nat.eqb _ _); [|discriminate]. rewrite bind_ret_l.
  destruct (Nat.eqb _ _); [|discriminate]. rewrite bind_ret_l.
  intros [= <-]. apply Hsyls; now apply select_length.
Qed.

Lemma feature_step_rows ftr_ind name (st : locals E) t st' :
  ok st ->
  (forall a, features_arr st = Some a -> shape0 a = retained) ->
  feature_step E dec labels onsets_Hz offsets_Hz mask ftr_ind name st = (t, inr st') ->
  forall a, features_arr st' = Some a -> shape0 a = retained.
Proof.
  intros Hok Hrows H. unfold feature_step in H.
  destruct (single_syl_features_switch_case_dict E name) as [f|].
  { unfold single_syl_case in H.
    apply bind_inv in H. destruct H as (tg & S & ? & Hg & H & _).
    apply bind_inv in H. destruct H as (tl & [ftr' curr'] & ? & Hl & H & _).
    cbn [fst snd] in H.
    pose proof (syls_made_length S (get_syls_made E _ _ _ _ _ st tg S Hok Hg)) as HS.
    destruct (append_single_inv _ _ _ _ _ _ _ _ H)
      as (last & curr & -> & -> & _ & _ & _ & Hfa).
    pose proof (syl_loop_shape0 E name f _ _ _ None _ _ _ I Hl) as Hc.
    destruct (features_arr st) as [fa|].
    - destruct Hfa as (c & Hc' & Hcat). intros a Ha. rewrite Hc' in Ha.
      injection Ha as <-. destruct last.
      + destruct Hcat as (v & _ & Hcat).
        rewrite (proj1 (concatenate_axis1_shape0 _ _ _ _ Hcat)). now apply Hrows.
      + rewrite (proj1 (concatenate_axis1_shape0 _ _ _ _ Hcat)). now apply Hrows.
    - intros a Ha. rewrite Hfa in Ha. injection Ha as <-. congruence. }
  destruct (multiple_syl_features_switch_case_dict E name) as [g|] eqn:Hg.
  { unfold multiple_syl_case in H.
    apply bind_inv in H. destruct H as (? & ? & ? & _ & H & _).
    apply bind_inv in H. destruct H as (? & fa' & ? & Hcat & H & _).
    injection H as _ <-. simpl. intros a [= <-].
    destruct (features_arr st) as [fa|].
    - rewrite (proj1 (concatenate_axis1_shape0 _ _ _ _ Hcat)). now apply Hrows.
    - injection Hcat as _ <-. simpl. rewrite length_map.
      now apply (Hmulti name). }
  destruct (neural_net_features_switch_case_dict E name) as [h|].
  { unfold neural_net_case in H.
    apply bind_inv in H. destruct H as (? & raw & ? & _ & H & _).
    apply bind_inv in H. destruct H as (? & sf & ? & _ & H & _).
    apply bind_inv in H. destruct H as (? & l & ? & _ & H & _).
    apply bind_inv in H. destruct H as (? & on & ? & _ & H & _).
    apply bind_inv in H. destruct H as (? & off & ? & _ & H & _).
    apply bind_inv in H. destruct H as (? & ? & ? & _ & H & _).
    apply bind_inv in H. destruct H as (? & d' & ? & _ & H & _).
    injection H as _ <-. exact Hrows. }
  injection H as _ <-. exact Hrows.
Qed.

Lemma feature_loop_rows ifeatures :
  forall (st : locals E) t st',
    ok st ->
    (forall a, features_arr st = Some a -> shape0 a = retained) ->
    feature_loop E dec labels onsets_Hz offsets_Hz mask ifeatures st = (t, inr st') ->
    forall a, features_arr st' = Some a -> shape0 a = retained.
Proof.
  induction ifeatures as [|[i name] rest IH]; intros st t st' Hok Hrows H;
    simpl in H.
  - now injection H as _ <-.
  - apply bind_inv in H. destruct H as (t1 & st1 & t2 & Hstep & Hrest & _).
    eapply IH; [| |exact Hrest].
    + destruct (feature_step_alone E _ _ _ _ _ _ _ _ _ _ Hok Hstep)
        as (_ & _ & _ & _ & _ & _ & Hok1). exact Hok1.
    + eapply feature_step_rows; eassumption.
Qed.

End RowCount.

(** X3: when [make_syls] gives one syllable per onset and every
    multiple-syllable feature one entry per retained segment, the feature
    array of a result has one row per retained segment: its first dimension
    is the number of labels, of onsets and of offsets of the result. *)
Theorem from_file_row_count :
  forall (E : Collaborators) (feature_list : list string) (filename : string)
         (labels : labels_arg) (onsets_Hz offsets_Hz : list Z)
         (labels_to_use : string) (t : list event) (ed : extract_dict E)
         (a : ndarray),
    one_syl_per_onset E ->
    one_entry_per_segment E ->
    _from_file E feature_list filename labels onsets_Hz offsets_Hz labels_to_use
      = (t, inr (Some ed)) ->
    ed_features_arr ed = Some a ->
    shape0 a = length (ed_labels ed)
    /\ shape0 a = length (ed_onsets_Hz ed)
    /\ shape0 a = length (ed_offsets_Hz ed).
Proof.
  intros E fl filename labels on off ltu t ed a Hsyls Hmulti H Ha.
  assert (Hlen : length (ed_labels ed) = length (ed_onsets_Hz ed)
                 /\ length (ed_offsets_Hz ed) = length (ed_onsets_Hz ed)).
  { eapply from_file_lengths. now rewrite H. }
  destruct (from_file_inv _ _ _ _ _ _ _ _ _ H)
    as (mask & st & l & on' & off' & sf & Hm & Hany & Hloop & Hl & Hon & Hoff
        & Hsf & ->).
  cbn [ed_features_arr ed_labels ed_onsets_Hz ed_offsets_Hz] in *.
  apply mask_index_inv in Hon, Hoff.
  destruct Hon as (_ & -> & Lon), Hoff as (_ & _ & Loff).
  assert (Hrows : shape0 a = length (select on mask)).
  { eapply (feature_loop_rows E _ _ _ _ _ Hsyls Hmulti Lon Loff);
      [| |exact Hloop|exact Ha].
    - apply locals0_ok.
    - discriminate. }
  destruct Hlen as [L1 L2]. rewrite L1, L2. auto.
Qed.

Lemma demo_one_syl_per_onset b : one_syl_per_onset (Demo.env b).
Proof.
  intros raw sf l. simpl. induction l as [|c l IH]; intros [|o1 on] [|o2 off];
    simpl; try discriminate; try reflexivity.
  intros [= Hl] [= Ho]. f_equal. now apply IH.
Qed.

Lemma demo_one_entry_per_segment b : one_entry_per_segment (Demo.env b).
Proof.
  intros name g. simpl. unfold Demo.multiple.
  destruct (String.eqb name "duration").
  - intros [= <-] on off mask Lon Loff. unfold Demo.durations.
    apply select_length; [|exact Lon].
    rewrite length_map, length_combine, Lon, Loff. apply Nat.min_id.
  - destruct (String.eqb name "gapdur"); [|discriminate].
    intros [= <-] on off mask Lon Loff.
    apply select_length; [|exact Lon]. now rewrite length_map.
Qed.

Lemma from_file_row_count_witness :
  match outcome (_from_file (Demo.env false)
                   ["duration"; "spectral_vec3"; "amplitude"] "bird.cbin"
                   (labels_str "aabc") [0; 10; 20; 30]%Z [5; 12; 25; 35]%Z "ab")
  with
  | inr (Some ed) =>
      option_map shape0 (ed_features_arr ed) = Some (length (ed_labels ed))
  | _ => False
  end.
Proof.
  destruct (_from_file (Demo.env false)
              ["duration"; "spectral_vec3"; "amplitude"] "bird.cbin"
              (labels_str "aabc") [0; 10; 20; 30]%Z [5; 12; 25; 35]%Z "ab")
    as [t [e|[ed|]]] eqn:Hrun; try discriminate. simpl.
  destruct (ed_features_arr ed) as [a|] eqn:Ha;
    [|injection Hrun as _ <-; discriminate].
  simpl. f_equal.
  exact (proj1 (from_file_row_count (Demo.env false) _ _ _ _ _ _ _ _ _
                  (demo_one_syl_per_onset false)
                  (demo_one_entry_per_segment false) Hrun Ha)).
Defined.

Lemma setitem_scalar_ncolumns a ind c t a' :
  setitem_scalar a ind c = (t, inr a') -> ncolumns a' = ncolumns a.
Proof.
  destruct a as [v|w rows]; simpl.
  - destruct (list_set v ind c); [|discriminate]. now intros [= _ <-].
  - destruct (list_set rows ind (repeat c w)); [|discriminate]. now intros [= _ <-].
Qed.

Lemma setitem_row_ncolumns a ind v t a' :
  setitem_row a ind v = (t, inr a') ->
  ncolumns a' = ncolumns a /\ exists w, ncolumns a = Some w.
Proof.
  destruct a as [v0|w rows]; simpl; [discriminate|].
  destruct (Nat.ltb ind (length rows)); [|discriminate].
  destruct (Nat.eqb (length v) w).
  - destruct (list_set rows ind v); [|discriminate]. intros [= _ <-]. eauto.
  - destruct v as [|c [|]]; try discriminate.
    destruct (list_set rows ind (repeat c w)); [|discriminate].
    intros [= _ <-]. eauto.
Qed.

Lemma concatenate_axis1_ncolumns a b t c :
  concatenate_axis1 a b = (t, inr c) ->
  exists n1 n2,
    ncolumns a = Some n1 /\ ncolumns b = Some n2 /\ ncolumns c = Some (n1 + n2).
Proof.
  destruct a as [v1|n1 r1], b as [v2|n2 r2]; simpl; try discriminate.
  destruct (Nat.eqb (length r1) (length r2)); [|discriminate].
  intros [= _ <-]. simpl. eauto.
Qed.

(** For a feature whose values have one shape, the array that the loop over
    the syllables leaves has the shape of the last value. *)
Lemma syl_loop_fits E name (f : Syl E -> Ftr) len_syls :
  (forall s s', same_shape (f s) (f s')) ->
  forall isyls ftr0 curr0 t ftr' c,
    match curr0 with
    | Some a => exists s0, ftr0 = Some (f s0) /\ fits (f s0) a
    | None => True
    end ->
    syl_loop E name f len_syls isyls ftr0 curr0 = (t, inr (ftr', Some c)) ->
    exists s1, ftr' = Some (f s1) /\ fits (f s1) c.
Proof.
  intros Hu. induction isyls as [|[ind syl] rest IH]; intros ftr0 curr0 t ftr' c H0;
    cbn [syl_loop].
  - intros [= _ -> ->]. exact H0.
  - destruct (spect_is_nan E syl); [now apply IH|]. intros H.
    apply bind_inv in H. destruct H as (? & ? & ? & _ & H & _).
    apply bind_inv in H. destruct H as (? & c1 & ? & Hc & H & _).
    eapply IH; [|exact H]. exists syl. split; [reflexivity|]. unfold fits.
    destruct curr0 as [a|].
    + destruct H0 as (s0 & _ & Hfit). specialize (Hu s0 syl). unfold fits in Hfit.
      destruct (f syl) as [fc|v], (f s0) as [fc0|v0]; simpl in Hu; try contradiction.
      * now rewrite (setitem_scalar_ncolumns _ _ _ _ _ Hc).
      * rewrite (proj1 (setitem_row_ncolumns _ _ _ _ _ Hc)), Hfit. now rewrite Hu.
    + destruct (f syl) as [fc|v].
      * now rewrite (setitem_scalar_ncolumns _ _ _ _ _ Hc).
      * now rewrite (proj1 (setitem_row_ncolumns _ _ _ _ _ Hc)).
Qed.

Section ColumnMap.

Variable E : Collaborators.
Variable dec : option (Audio E * Z).
Variable labels : list ascii.
Variable onsets_Hz offsets_Hz : list Z.
Variable mask : list bool.

Hypothesis Huniform : uniform_features E.

Lemma feature_step_map_fits ftr_ind name (st : locals E) t st' :
  map_fits (features_arr st) (feature_inds st) ->
  feature_step E dec labels onsets_Hz offsets_Hz mask ftr_ind name st = (t, inr st') ->
  map_fits (features_arr st') (feature_inds st').
Proof.
  intros Hfit H. unfold feature_step in H.
  destruct (single_syl_features_switch_case_dict E name) as [f|] eqn:Hf.
  { unfold single_syl_case in H.
    apply bind_inv in H. destruct H as (tg & S & ? & Hg & H & _).
    apply bind_inv in H. destruct H as (tl & [ftr' curr'] & ? & Hl & H & _).
    cbn [fst snd] in H.
    destruct (append_single_inv _ _ _ _ _ _ _ _ H)
      as (last & curr & -> & -> & _ & _ & Hinds & Hfa).
    destruct (syl_loop_fits E name f _ (Huniform name f Hf) _ _ None _ _ _ I Hl)
      as (s1 & [= ->] & Hcurr).
    unfold map_fits, map_length, fits in *.
    destruct (features_arr st) as [fa|].
    - destruct Hfa as (c & -> & Hcat).
      rewrite Hinds, length_app, repeat_length.
      destruct (f s1) as [fc|v].
      + destruct Hcat as (v' & _ & Hcat).
        destruct (concatenate_axis1_ncolumns _ _ _ _ Hcat) as (n1 & n2 & H1 & H2 & ->).
        rewrite H1 in Hfit. simpl in H2. injection H2 as <-. simpl. lia.
      + destruct (concatenate_axis1_ncolumns _ _ _ _ Hcat) as (n1 & n2 & H1 & H2 & ->).
        rewrite H1 in Hfit. rewrite Hcurr in H2. injection H2 as <-. simpl. lia.
    - rewrite Hfa, Hinds, Hfit, Hcurr. simpl. rewrite repeat_length.
      destruct (f s1); reflexivity. }
  destruct (multiple_syl_features_switch_case_dict E name) as [g|].
  { unfold multiple_syl_case in H.
    apply bind_inv in H. destruct H as (? & ? & ? & _ & H & _).
    apply bind_inv in H. destruct H as (? & fa' & ? & Hcat & H & _).
    injection H as _ <-. simpl. rewrite length_app. simpl.
    unfold map_fits, map_length in *.
    destruct (features_arr st) as [fa|].
    - destruct (concatenate_axis1_ncolumns _ _ _ _ Hcat) as (n1 & n2 & H1 & H2 & ->).
      rewrite H1 in Hfit. simpl in H2. injection H2 as <-. lia.
    - injection Hcat as _ <-. now rewrite Hfit. }
  destruct (neural_net_features_switch_case_dict E name) as [h|].
  { unfold neural_net_case in H.
    apply bind_inv in H. destruct H as (? & raw & ? & _ & H & _).
    apply bind_inv in H. destruct H as (? & sf & ? & _ & H & _).
    apply bind_inv in H. destruct H as (? & l & ? & _ & H & _).
    apply bind_inv in H. destruct H as (? & on & ? & _ & H & _).
    apply bind_inv in H. destruct H as (? & off & ? & _ & H & _).
    apply bind_inv in H. destruct H as (? & ? & ? & _ & H & _).
    apply bind_inv in H. destruct H as (? & d' & ? & _ & H & _).
    injection H as _ <-. exact Hfit. }
  injection H as _ <-. exact Hfit.
Qed.

Lemma feature_loop_map_fits ifeatures :
  forall (st : locals E) t st',
    map_fits (features_arr st) (feature_inds st) ->
    feature_loop E dec labels onsets_Hz offsets_Hz mask ifeatures st = (t, inr st') ->
    map_fits (features_arr st') (feature_inds st').
Proof.
  induction ifeatures as [|[i name] rest IH]; intros st t st' Hfit H; simpl in H.
  - now injection H as _ <-.
  - apply bind_inv in H. destruct H as (t1 & st1 & t2 & Hstep & Hrest & _).
    eapply IH; [|exact Hrest]. eapply feature_step_map_fits; eassumption.
Qed.

End ColumnMap.

(** X4: when every single-syllable feature gives values of one shape, the
    column map of a result has exactly one entry per column of its 2-d
    feature array (one entry when the array is the 1-d array of a single
    scalar feature), and every row of the array has as many entries as the
    array has columns. *)
Theorem from_file_column_map_length :
  forall (E : Collaborators) (feature_list : list string) (filename : string)
         (labels : labels_arg) (onsets_Hz offsets_Hz : list Z)
         (labels_to_use : string) (t : list event) (ed : extract_dict E)
         (a : ndarray) (inds : list nat),
    uniform_features E ->
    _from_file E feature_list filename labels onsets_Hz offsets_Hz labels_to_use
      = (t, inr (Some ed)) ->
    ed_features_arr ed = Some a ->
    ed_feature_inds ed = Some inds ->
    length inds = map_length a /\ well_shaped a.
Proof.
  intros E fl filename labels on off ltu t ed a inds Hu H Ha Hi.
  destruct (from_file_inv _ _ _ _ _ _ _ _ _ H)
    as (mask & st & l & on' & off' & sf & _ & _ & Hloop & _ & _ & _ & _ & ->).
  cbn [ed_features_arr ed_feature_inds] in *. rewrite Ha in Hi.
  injection Hi as <-. split.
  - pose proof (feature_loop_map_fits E _ _ _ _ _ Hu _ (locals0 E) _ _ eq_refl Hloop)
      as Hfit.
    now rewrite Ha in Hfit.
  - destruct (feature_loop_alone E _ _ _ _ _ _ _ _ _ (locals0_ok E _ _ _ _ _) Hloop)
      as (_ & _ & _ & (Hw & _)).
    now rewrite Ha in Hw.
Qed.

Lemma demo_uniform_features b : uniform_features (Demo.env b).
Proof.
  intros name f. simpl. unfold Demo.single.
  destruct (String.eqb name "amplitude"); [intros [= <-] s s'; exact I|].
  destruct (String.eqb name "spectral_vec3"); [intros [= <-] s s'; reflexivity|].
  destruct (String.eqb name "duration" && b); [intros [= <-] s s'; exact I|].
  discriminate.
Qed.

Lemma from_file_column_map_length_witness :
  match outcome (_from_file (Demo.env false)
                   ["duration"; "spectral_vec3"; "flatwindow"; "amplitude"]
                   "bird.cbin" (labels_str "aabc")
                   [0; 10; 20; 30]%Z [5; 12; 25; 35]%Z "ab")
  with
  | inr (Some ed) =>
      option_map (@length nat) (ed_feature_inds ed)
      = option_map map_length (ed_features_arr ed)
  | _ => False
  end.
Proof.
  destruct (_from_file (Demo.env false)
              ["duration"; "spectral_vec3"; "flatwindow"; "amplitude"]
              "bird.cbin" (labels_str "aabc")
              [0; 10; 20; 30]%Z [5; 12; 25; 35]%Z "ab")
    as [t [e|[ed|]]] eqn:Hrun; try discriminate. simpl.
  destruct (ed_features_arr ed) as [a|] eqn:Ha;
    [|injection Hrun as _ <-; discriminate].
  destruct (ed_feature_inds ed) as [inds|] eqn:Hi;
    [|injection Hrun as _ <-; discriminate].
  simpl. f_equal.
  exact (proj1 (from_file_column_map_length (Demo.env false) _ _ _ _ _ _ _ _ _ _
                  (demo_uniform_features false) Hrun Ha Hi)).
Defined.

(* ------------------------------------------------------------------ *)
(** ** A neural-net feature that is listed more than once *)

Section TensorRecurrence.

Variable E : Collaborators.
Variable dec : option (Audio E * Z).
Variable labels : list ascii.
Variable onsets_Hz offsets_Hz : list Z.
Variable mask : list bool.
Variable name : string.
Variable h : Audio E -> Z -> list ascii -> list Z -> list Z -> Tensor E.

Hypothesis Hsingle : single_syl_features_switch_case_dict E name = None.
Hypothesis Hmultiple : multiple_syl_features_switch_case_dict E name = None.
Hypothesis Hneural : neural_net_features_switch_case_dict E name = Some h.

(** A round for the feature when there is a tensor under its name. *)
Lemma neural_net_case_again (st : locals E) t st' old :
  tensor_of (neuralnet_inputs_dict st) name = Some old ->
  neural_net_case E dec labels onsets_Hz offsets_Hz mask name h st = (t, inr st') ->
  exists raw sf,
    dec = Some (raw, sf)
    /\ exists new,
         tensor_after E (h raw sf (select labels mask) (select onsets_Hz mask)
                           (select offsets_Hz mask)) 1 old = inr new
         /\ tensor_of (neuralnet_inputs_dict st') name = Some new.
Proof.
  unfold neural_net_case. intros Hold H.
  apply bind_inv in H. destruct H as (t1 & raw & ? & Hraw & H & _).
  apply bind_inv in H. destruct H as (t2 & sf & ? & Hsf & H & _).
  apply bind_inv in H. destruct H as (t3 & l & ? & Hl & H & _).
  apply bind_inv in H. destruct H as (t4 & on & ? & Hon & H & _).
  apply bind_inv in H. destruct H as (t5 & off & ? & Hoff & H & _).
  apply bind_inv in H. destruct H as (? & ? & ? & _ & H & _).
  apply bind_inv in H. destruct H as (? & d' & ? & Hd & H & _).
  injection H as _ <-. simpl.
  destruct dec as [[raw0 sf0]|]; [|discriminate].
  injection Hraw as _ <-. injection Hsf as _ <-.
  apply mask_index_inv in Hl, Hon, Hoff.
  destruct Hl as (_ & -> & _), Hon as (_ & -> & _), Hoff as (_ & -> & _).
  exists raw0, sf0. split; [reflexivity|].
  destruct (neuralnet_inputs_dict st) as [d|]; simpl in Hold; [|discriminate].
  rewrite Hold in Hd. simpl. destruct (is_ndarray E old).
  - apply bind_inv in Hd. destruct Hd as (? & c & ? & Hc & Hd & _).
    injection Hd as _ <-. unfold lift_exn in Hc. injection Hc as _ ->.
    exists c. split; [reflexivity|]. apply dict_get_set_same.
  - injection Hd as _ <-. now exists old.
Qed.

Lemma tensor_after_S t k old new :
  tensor_after E t 1 old = inr new ->
  tensor_after E t (S k) old = tensor_after E t k new.
Proof.
  simpl. destruct (is_ndarray E old).
  - destruct (concatenate_last E old t); [discriminate|]. now intros [= ->].
  - now intros [= ->].
Qed.

Lemma feature_loop_tensor_again ifeatures :
  forall (st : locals E) t st' raw sf old,
    dec = Some (raw, sf) ->
    feature_loop E dec labels onsets_Hz offsets_Hz mask ifeatures st = (t, inr st') ->
    tensor_of (neuralnet_inputs_dict st) name = Some old ->
    exists final,
      tensor_after E (h raw sf (select labels mask) (select onsets_Hz mask)
                        (select offsets_Hz mask))
                   (count_occ string_dec (map snd ifeatures) name) old
      = inr final
      /\ tensor_of (neuralnet_inputs_dict st') name = Some final.
Proof.
  induction ifeatures as [|[i n] rest IH]; intros st t st' raw sf old Hdec H Hold;
    simpl in H.
  - injection H as _ <-. now exists old.
  - apply bind_inv in H. destruct H as (t1 & st1 & t2 & Hstep & Hrest & _).
    cbn [map snd count_occ]. destruct (string_dec n name) as [->|Hn].
    + unfold feature_step in Hstep. rewrite Hsingle, Hmultiple, Hneural in Hstep.
      destruct (neural_net_case_again _ _ _ _ Hold Hstep)
        as (raw' & sf' & Hdec' & new & Hnew & Hget).
      rewrite Hdec in Hdec'. injection Hdec' as <- <-.
      rewrite (tensor_after_S _ _ _ _ Hnew).
      eapply IH; eassumption.
    + destruct (feature_step_tensor E _ _ _ _ _ _ _ _ _ _ Hstep) as [Hother _].
      eapply IH; [eassumption|exact Hrest|].
      rewrite Hother; [exact Hold|congruence].
Qed.

Lemma feature_loop_tensor_first ifeatures :
  forall (st : locals E) t st' k,
    feature_loop E dec labels onsets_Hz offsets_Hz mask ifeatures st = (t, inr st') ->
    tensor_of (neuralnet_inputs_dict st) name = None ->
    count_occ string_dec (map snd ifeatures) name = S k ->
    exists raw sf final,
      dec = Some (raw, sf)
      /\ let input := h raw sf (select labels mask) (select onsets_Hz mask)
                        (select offsets_Hz mask) in
         tensor_after E input k input = inr final
         /\ tensor_of (neuralnet_inputs_dict st') name = Some final.
Proof.
  induction ifeatures as [|[i n] rest IH]; intros st t st' k H Hnone Hcount;
    simpl in H; [discriminate|].
  apply bind_inv in H. destruct H as (t1 & st1 & t2 & Hstep & Hrest & _).
  cbn [map snd count_occ] in Hcount. destruct (string_dec n name) as [->|Hn].
  - injection Hcount as Hcount.
    unfold feature_step in Hstep. rewrite Hsingle, Hmultiple, Hneural in Hstep.
    destruct (neural_net_case_inv E _ _ _ _ _ _ _ _ _ _ Hstep)
      as (raw & sf & l & on & off & Hdec & Hl & Hon & Hoff & _ & Hown).
    specialize (Hown Hnone).
    apply mask_index_inv in Hl, Hon, Hoff.
    destruct Hl as (_ & -> & _), Hon as (_ & -> & _), Hoff as (_ & -> & _).
    destruct (feature_loop_tensor_again rest st1 t2 st' raw sf _ Hdec Hrest Hown)
      as (final & Hfinal & Hget).
    rewrite Hcount in Hfinal. exists raw, sf, final. auto.
  - destruct (feature_step_tensor E _ _ _ _ _ _ _ _ _ _ Hstep) as [Hother _].
    eapply IH; [exact Hrest| |exact Hcount].
    rewrite Hother; [exact Hnone|congruence].
Qed.

End TensorRecurrence.

(** X5: a neural-net feature that is listed [k + 1] times in [feature_list]
    is computed each time, on the same inputs, and the result holds one
    tensor under its name: the first input, to which each further round
    concatenates the input again along the last axis -- or which it keeps
    unchanged, dropping the new input, when it is not a numpy array.  A
    result is only returned when numpy accepts every concatenation. *)
Theorem from_file_tensor_listed_again :
  forall (E : Collaborators) (feature_list : list string) (filename : string)
         (labels : labels_arg) (onsets_Hz offsets_Hz : list Z)
         (labels_to_use : string) (t : list event) (ed : extract_dict E)
         (name : string) h (k : nat),
    single_syl_features_switch_case_dict E name = None ->
    multiple_syl_features_switch_case_dict E name = None ->
    neural_net_features_switch_case_dict E name = Some h ->
    count_occ string_dec feature_list name = S k ->
    _from_file E feature_list filename labels onsets_Hz offsets_Hz labels_to_use
      = (t, inr (Some ed)) ->
    exists raw_audio samp_freq final,
      decode E filename = Some (raw_audio, samp_freq)
      /\ let input := h raw_audio samp_freq (ed_labels ed) (ed_onsets_Hz ed)
                        (ed_offsets_Hz ed) in
         tensor_after E input k input = inr final
         /\ tensor_of (ed_neuralnet_inputs_dict ed) name = Some final.
Proof.
  intros E fl filename labels on off ltu t ed name h k Hs Hm Hn Hcount H.
  destruct (from_file_inv _ _ _ _ _ _ _ _ _ H)
    as (mask & st & l & on' & off' & sf & _ & _ & Hloop & Hl & Hon & Hoff & _ & ->).
  apply mask_index_inv in Hl, Hon, Hoff.
  destruct Hl as (_ & -> & _), Hon as (_ & -> & _), Hoff as (_ & -> & _).
  cbn [ed_labels ed_onsets_Hz ed_offsets_Hz ed_neuralnet_inputs_dict].
  destruct (feature_loop_tensor_first E _ _ _ _ _ name h Hs Hm Hn _ _ _ _ k Hloop
              eq_refl)
    as (raw & sf' & final & Hdec & Hfinal).
  { unfold enumerate. now rewrite map_snd_enumerate_from. }
  exists raw, sf', final. split; [exact Hdec|exact Hfinal].
Qed.

Lemma from_file_tensor_listed_again_witness :
  match outcome (_from_file (Demo.env false)
                   ["flatwindow"; "gapdur"; "flatwindow"; "flatwindow"]
                   "bird.wav" (labels_str "aabc")
                   [0; 10; 20; 30]%Z [5; 15; 25; 35]%Z "ab")
  with
  | inr (Some ed) =>
      tensor_of (ed_neuralnet_inputs_dict ed) "flatwindow"
      = Some [0; 10; 20; 0; 10; 20; 0; 10; 20]%Z
  | _ => False
  end.
Proof.
  destruct (_from_file (Demo.env false)
              ["flatwindow"; "gapdur"; "flatwindow"; "flatwindow"]
              "bird.wav" (labels_str "aabc")
              [0; 10; 20; 30]%Z [5; 15; 25; 35]%Z "ab")
    as [t [e|[ed|]]] eqn:Hrun; try discriminate. cbn [outcome snd].
  destruct (from_file_tensor_listed_again (Demo.env false)
              ["flatwindow"; "gapdur"; "flatwindow"; "flatwindow"]
              "bird.wav" (labels_str "aabc")
              [0; 10; 20; 30]%Z [5; 15; 25; 35]%Z "ab" t ed
              "flatwindow" (fun _ _ _ on _ => on) 2 eq_refl eq_refl eq_refl
              eq_refl Hrun)
    as (raw & sf & final & _ & Hfinal & Hget).
  rewrite Hget. f_equal. injection Hrun as _ <-.
  simpl in Hfinal. now injection Hfinal as <-.
Defined.

(* ------------------------------------------------------------------ *)
(** ** Names that are in no registry *)

Lemma feature_loop_unregistered E dec labels onsets_Hz offsets_Hz mask ifeatures :
  forall st : locals E,
    forallb (fun p => negb (registered E (snd p))) ifeatures = true ->
    feature_loop E dec labels onsets_Hz offsets_Hz mask ifeatures st = ret st.
Proof.
  induction ifeatures as [|[i name] rest IH]; intros st H; [reflexivity|].
  simpl in H. apply andb_true_iff in H. destruct H as [Hn H].
  cbn [feature_loop]. unfold feature_step. unfold registered in Hn.
  destruct (single_syl_features_switch_case_dict E name); [discriminate|].
  destruct (multiple_syl_features_switch_case_dict E name); [discriminate|].
  destruct (neural_net_features_switch_case_dict E name); [discriminate|].
  rewrite bind_ret_l. now apply IH.
Qed.

(** X6: a feature list that holds only names that are in none of the three
    registries (an empty list, or misspelled names) is not rejected: for a
    decodable file with a matching label, [_from_file] calls no feature
    function, raises nothing and returns a result with the retained labels,
    onsets and offsets but without feature array, column map or tensors. *)
Theorem from_file_unregistered_names :
  forall (E : Collaborators) (feature_list : list string) (filename : string)
         (labels : labels_arg) (onsets_Hz offsets_Hz : list Z)
         (labels_to_use : string) (mask : list bool) raw_audio samp_freq,
    forallb (fun name => negb (registered E name)) feature_list = true ->
    use_these_labels_bool labels labels_to_use = ret mask ->
    np_any mask = true ->
    decode E filename = Some (raw_audio, samp_freq) ->
    length onsets_Hz = length mask ->
    length offsets_Hz = length mask ->
    _from_file E feature_list filename labels onsets_Hz offsets_Hz labels_to_use
    = ret (Some {| ed_labels := select (labels_iter labels) mask;
                   ed_onsets_Hz := select onsets_Hz mask;
                   ed_offsets_Hz := select offsets_Hz mask;
                   ed_features_arr := None;
                   ed_feature_inds := None;
                   ed_neuralnet_inputs_dict := None;
                   ed_samp_freq := samp_freq |}).
Proof.
  intros E fl filename labels on off ltu mask raw sf Hun Hm Hany Hdec Lon Loff.
  unfold _from_file. rewrite Hm, bind_ret_l, Hany. simpl negb. cbv iota.
  rewrite feature_loop_unregistered, bind_ret_l.
  - rewrite (mask_index_same_length (B := bool) _ mask mask), bind_ret_l
      by (symmetry; eapply mask_length, Hm).
    rewrite (mask_index_same_length (B := bool) _ mask mask Lon), bind_ret_l.
    rewrite (mask_index_same_length (B := bool) _ mask mask Loff), bind_ret_l.
    rewrite Hdec. reflexivity.
  - unfold enumerate.
    now rewrite (proj1 (enumerate_from_snd (fun name => negb (registered E name))
                          fl 0)).
Qed.

Lemma from_file_unregistered_names_witness :
  _from_file (Demo.env false) ["amplitud"; "Duration"] "bird.cbin"
             (labels_str "aabc") [0; 10; 20; 30]%Z [5; 15; 25; 35]%Z "ab"
  = ret (Some {| ed_labels := ["a"; "a"; "b"]%char;
                 ed_onsets_Hz := [0; 10; 20]%Z;
                 ed_offsets_Hz := [5; 15; 25]%Z;
                 ed_features_arr := None;
                 ed_feature_inds := None;
                 ed_neuralnet_inputs_dict := None;
                 ed_samp_freq := 32000%Z |}).
Proof.
  exact (from_file_unregistered_names (Demo.env false) ["amplitud"; "Duration"]
           "bird.cbin" (labels_str "aabc") [0; 10; 20; 30]%Z [5; 15; 25; 35]%Z
           "ab" [true; true; true; false] tt 32000%Z
           eq_refl eq_refl eq_refl eq_refl eq_refl eq_refl).
Defined.

(* ------------------------------------------------------------------ *)
(** ** The bookkeeping of the aggregation loop *)

Lemma file_ids_bounds {E} (files : list (string * extract_dict E)) :
  forall i0, Forall (fun id => i0 <= id < i0 + length files) (file_ids i0 files).
Proof.
  induction files as [|[fn ed] rest IH]; intros i0; simpl; [constructor|].
  apply Forall_app. split.
  - apply Forall_forall. intros id Hin. apply repeat_spec in Hin. lia.
  - eapply Forall_impl; [|apply (IH (S i0))]. simpl. intros id Hid. lia.
Qed.

(** Equal identifiers are next to each other, in increasing order. *)
Lemma file_ids_sorted {E} (files : list (string * extract_dict E)) :
  forall i0, StronglySorted le (file_ids i0 files).
Proof.
  induction files as [|[fn ed] rest IH]; intros i0; simpl; [constructor|].
  induction (length (ed_onsets_Hz ed)) as [|n IHn]; simpl; [apply IH|].
  constructor; [exact IHn|].
  apply Forall_app. split.
  - apply Forall_forall. intros id Hin. apply repeat_spec in Hin. lia.
  - eapply Forall_impl; [|apply (file_ids_bounds rest (S i0))]. simpl.
    intros id Hid. lia.
Qed.

(** X7: after the loop of [extract], [songfiles] and [all_sampfreqs] have
    one entry per file that was not skipped, [songfile_ID_counter] is their
    number, every entry of [songfile_IDs] is a valid index into both, the
    identifiers are in increasing order, and looking up the sample rate of
    each accumulated segment through its identifier gives the sample rate of
    its file. *)
Theorem extract_loop_file_ids :
  forall (E : Collaborators) (feature_list : list string) (labels_to_use : string)
         (annotation_list : list annotation_dict) (t : list event)
         (st : aggregate E),
    extract_loop E feature_list labels_to_use annotation_list (aggregate0 E)
      = (t, inr st) ->
    length (songfiles st) = songfile_ID_counter st
    /\ length (all_sampfreqs st) = songfile_ID_counter st
    /\ songfile_ID_counter st <= length annotation_list
    /\ Forall (fun id => id < songfile_ID_counter st) (songfile_IDs st)
    /\ StronglySorted le (songfile_IDs st)
    /\ exists results,
         results_of feature_list labels_to_use annotation_list results
         /\ map (fun id => nth id (all_sampfreqs st) 0%Z) (songfile_IDs st)
            = flat_map (fun fe : string * extract_dict E =>
                          repeat (ed_samp_freq (snd fe))
                                 (length (ed_onsets_Hz (snd fe))))
                       (kept (combine (map ann_filename annotation_list) results)).
Proof.
  intros E fl ltu annots t st H.
  destruct (extract_loop_results _ _ _ _ _ _ H) as (results & Hres & Hagg).
  apply aggregate_results_accumulates in Hagg. cbn zeta in Hagg.
  set (files := kept (combine (map ann_filename annots) results)) in *.
  destruct Hagg as (_ & _ & _ & A4 & A5 & A6 & A7 & _). simpl in *.
  rewrite A4, A5, A6, A7, !length_map.
  split; [reflexivity|]. split; [reflexivity|]. split; [|split; [|split]].
  - subst files. clear. revert results.
    induction annots as [|a rest IH]; intros [|r results]; simpl; try lia.
    destruct r; simpl; specialize (IH results); lia.
  - eapply Forall_impl; [|apply (file_ids_bounds files 0)]. simpl. intros id Hid. lia.
  - apply file_ids_sorted.
  - exists results. split; [exact Hres|].
    assert (Hgen : forall (fs : list (string * extract_dict E)) (pfx : list Z),
      map (fun id => nth id (pfx ++ map (fun fe => ed_samp_freq (snd fe)) fs) 0%Z)
          (file_ids (length pfx) fs)
      = flat_map (fun fe => repeat (ed_samp_freq (snd fe))
                              (length (ed_onsets_Hz (snd fe)))) fs).
    { induction fs as [|[fn ed] fs IHfs]; intros pfx; simpl; [reflexivity|].
      rewrite map_app. f_equal.
      - rewrite map_repeat. f_equal. apply nth_middle.
      - specialize (IHfs (pfx ++ [ed_samp_freq ed])).
        rewrite <- app_assoc in IHfs. simpl in IHfs.
        rewrite length_app in IHfs. simpl in IHfs.
        rewrite Nat.add_1_r in IHfs. exact IHfs. }
    apply (Hgen files []).
Qed.

Lemma extract_loop_file_ids_witness :
  length (songfiles scenario_state) = songfile_ID_counter scenario_state
  /\ Forall (fun id => id < songfile_ID_counter scenario_state)
            (songfile_IDs scenario_state).
Proof.
  destruct (extract_loop_file_ids Scenario.E Scenario.feature_list "ab"
              [Scenario.file_A; Scenario.file_B] (trace scenario_run)
              scenario_state eq_refl)
    as (H1 & _ & _ & H4 & _).
  split; [exact H1|exact H4].
Defined.

(* ------------------------------------------------------------------ *)
(** ** The accumulated tensors *)

Lemma gathered_nil {V} (acc : dict (list V)) : Forall2 (gathered []) acc acc.
Proof.
  induction acc as [|kl acc IH]; constructor; [|exact IH].
  split; [reflexivity|]. exists []. now rewrite app_nil_r.
Qed.

Lemma gathered_cons {V} (d : dict V) ds (acc acc1 acc2 : dict (list V)) :
  Forall2 (gathered [d]) acc acc1 -> Forall2 (gathered ds) acc1 acc2 ->
  Forall2 (gathered (d :: ds)) acc acc2.
Proof.
  intros H1. revert acc2. induction H1 as [|kl kl1 acc acc1 Hk _ IH]; intros acc2 H2.
  - inversion H2. constructor.
  - inversion H2 as [|? kl2 ? acc2' Hk2 H2']; subst. constructor; [|now apply IH].
    destruct Hk as (Hf & vs & Hg & Hs), Hk2 as (Hf2 & vs2 & Hg2 & Hs2).
    split; [congruence|]. simpl in Hg. rewrite Hf in Hg2.
    destruct (dict_get d (fst kl)) as [v|] eqn:Hget; [|discriminate].
    injection Hg as <-. exists (v :: vs2). simpl. rewrite Hget, Hg2.
    split; [reflexivity|]. rewrite Hs2, Hs, <- app_assoc. reflexivity.
Qed.

Lemma append_inputs_gathered {E} (acc : dict (list (Tensor E))) d t acc' :
  append_inputs E acc d = (t, inr acc') -> Forall2 (gathered [d]) acc acc'.
Proof.
  revert t acc'. induction acc as [|[k l] acc IH]; intros t acc'; simpl.
  - intros [= _ <-]. constructor.
  - destruct (dict_get d k) as [v|] eqn:Hget; [|discriminate]. intros H.
    apply bind_inv in H. destruct H as (? & rest & ? & Hr & H & _).
    injection H as _ <-. constructor; [|eapply IH, Hr].
    split; [reflexivity|]. exists [v]. simpl. now rewrite Hget.
Qed.

Lemma extract_body_tensors {E} (st : aggregate E) filename ed t st' :
  extract_body st filename (Some ed) = (t, inr st') ->
  match ed_neuralnet_inputs_dict ed with
  | None => neuralnet_inputs_all_files st' = neuralnet_inputs_all_files st
  | Some d =>
      match neuralnet_inputs_all_files st with
      | None =>
          neuralnet_inputs_all_files st' = Some (map (fun kv => (fst kv, [snd kv])) d)
      | Some acc =>
          exists acc', neuralnet_inputs_all_files st' = Some acc'
                       /\ Forall2 (gathered [d]) acc acc'
      end
  end.
Proof.
  unfold extract_body. intros H.
  apply bind_inv in H. destruct H as (? & ref & ? & _ & H & _).
  apply bind_inv in H. destruct H as (? & feats & ? & _ & H & _).
  apply bind_inv in H. destruct H as (? & nn & ? & Hn & H & _).
  injection H as _ <-. simpl. unfold add_neuralnet_inputs in Hn.
  destruct (ed_neuralnet_inputs_dict ed) as [d|]; [|now injection Hn as _ <-].
  destruct (neuralnet_inputs_all_files st) as [acc|]; [|now injection Hn as _ <-].
  apply bind_inv in Hn. destruct Hn as (? & acc' & ? & Ha & Hn & _).
  injection Hn as _ <-. exists acc'. split; [reflexivity|].
  eapply append_inputs_gathered, Ha.
Qed.

Lemma aggregate_results_tensors {E}
    (results : list (string * option (extract_dict E))) :
  forall st t st',
    aggregate_results results st = (t, inr st') ->
    match neuralnet_inputs_all_files st with
    | Some acc =>
        exists acc', neuralnet_inputs_all_files st' = Some acc'
                     /\ Forall2 (gathered (tensor_dicts results)) acc acc'
    | None =>
        match tensor_dicts results with
        | [] => neuralnet_inputs_all_files st' = None
        | d1 :: later =>
            exists acc', neuralnet_inputs_all_files st' = Some acc'
                         /\ Forall2 (gathered later)
                                    (map (fun kv => (fst kv, [snd kv])) d1) acc'
        end
    end.
Proof.
  induction results as [|[fn [ed|]] rest IH]; intros st t st' H; simpl in H.
  - injection H as _ <-. simpl.
    destruct (neuralnet_inputs_all_files st) as [acc|]; [|reflexivity].
    exists acc. split; [reflexivity|apply gathered_nil].
  - apply bind_inv in H. destruct H as (t1 & st1 & t2 & Hb & H & _).
    apply extract_body_tensors in Hb. specialize (IH _ _ _ H). simpl.
    destruct (ed_neuralnet_inputs_dict ed) as [d|].
    + destruct (neuralnet_inputs_all_files st) as [acc|].
      * destruct Hb as (acc1 & Hacc1 & Hg). rewrite Hacc1 in IH.
        destruct IH as (acc' & Hacc' & Hg'). exists acc'. split; [exact Hacc'|].
        eapply gathered_cons; eassumption.
      * rewrite Hb in IH. exact IH.
    + rewrite Hb in IH. exact IH.
  - rewrite bind_ret_l in H. apply (IH _ _ _ H).
Qed.

Lemma gathered_facts {V} (dicts : list (dict V)) (kl kl' : string * list V) :
  gathered dicts kl kl' ->
  fst kl' = fst kl
  /\ length (snd kl') = length (snd kl) + length dicts
  /\ Forall (fun d => dict_get d (fst kl) <> None) dicts.
Proof.
  intros (Hf & vs & Hg & Hs). split; [exact Hf|]. rewrite Hs, length_app.
  clear Hs Hf. revert vs Hg. induction dicts as [|d ds IH]; intros vs Hg; simpl in *.
  - injection Hg as <-. auto.
  - destruct (dict_get d (fst kl)) as [v|] eqn:Hget; [|discriminate].
    destruct (gather (fst kl) ds) as [vs'|]; [|discriminate].
    injection Hg as <-. destruct (IH vs' eq_refl) as [Hl Hall]. simpl.
    split; [lia|]. constructor; [congruence|exact Hall].
Qed.

(** X8: in the loop of [extract] the names of the accumulated tensors are
    fixed by the first result that has tensors: when the loop has gone
    through, each of these names has the list of its tensors, one per result
    with tensors and in their order; every later result had a tensor under
    each of these names (a missing one raises the key error), and a tensor
    under any other name in a later result is left out. *)
Theorem aggregated_tensor_names :
  forall (E : Collaborators) (results : list (string * option (extract_dict E)))
         (t : list event) (st : aggregate E),
    aggregate_results results (aggregate0 E) = (t, inr st) ->
    match tensor_dicts results with
    | [] => neuralnet_inputs_all_files st = None
    | d1 :: later =>
        exists acc,
          neuralnet_inputs_all_files st = Some acc
          /\ map fst acc = map fst d1
          /\ Forall2 (gathered later) (map (fun kv => (fst kv, [snd kv])) d1) acc
          /\ Forall (fun kl => length (snd kl) = S (length later)) acc
          /\ Forall (fun d => Forall (fun k => dict_get d k <> None) (map fst d1))
                    later
    end.
Proof.
  intros E results t st H.
  pose proof (aggregate_results_tensors _ _ _ _ H) as Ht. simpl in Ht.
  destruct (tensor_dicts results) as [|d1 later]; [exact Ht|].
  destruct Ht as (acc & Hacc & Hg). exists acc. split; [exact Hacc|].
  assert (Hfacts : Forall2 (fun kv kl =>
            fst kl = fst kv /\ length (snd kl) = S (length later)
            /\ Forall (fun d => dict_get d (fst kv) <> None) later) d1 acc).
  { clear Hacc. revert acc Hg. induction d1 as [|kv d1 IH]; intros acc Hg;
      inversion Hg; subst; constructor.
    - match goal with Hk : gathered _ _ _ |- _ =>
        destruct (gathered_facts _ _ _ Hk) as (F1 & F2 & F3) end.
      simpl in *. auto.
    - now apply IH. }
  split; [|split; [exact Hg|split]].
  - clear - Hfacts. induction Hfacts as [|kv kl d1 acc (Hf & _) _ IH]; simpl;
      [reflexivity|]. now rewrite Hf, IH.
  - clear - Hfacts. induction Hfacts as [|kv kl d1 acc (_ & Hl & _) _ IH];
      constructor; assumption.
  - apply Forall_forall. intros d Hd. apply Forall_forall. intros k Hk.
    clear - Hfacts Hd Hk. induction Hfacts as [|kv kl d1 acc (_ & _ & Hall) _ IH];
      simpl in Hk; [contradiction|].
    destruct Hk as [<-|Hk]; [|now apply IH].
    rewrite Forall_forall in Hall. now apply Hall.
Qed.

Lemma aggregated_tensor_names_witness :
  exists t st,
    aggregate_results
      [("A.wav", Some (ed_with_tensors [("flatwindow", [1; 2]%Z); ("windows", [3]%Z)]));
       ("B.wav", None);
       ("C.wav", Some (ed_with_tensors [("windows", [4]%Z); ("extra", [6]%Z);
                                        ("flatwindow", [5]%Z)]))]
      (aggregate0 Scenario.E) = (t, inr st)
    /\ neuralnet_inputs_all_files st
       = Some [("flatwindow", [[1; 2]; [5]]%Z); ("windows", [[3]; [4]]%Z)].
Proof.
  eexists. eexists. split; [reflexivity|].
  match goal with |- neuralnet_inputs_all_files ?st = _ =>
    destruct (aggregated_tensor_names Scenario.E
      [("A.wav", Some (ed_with_tensors [("flatwindow", [1; 2]%Z); ("windows", [3]%Z)]));
       ("B.wav", None);
       ("C.wav", Some (ed_with_tensors [("windows", [4]%Z); ("extra", [6]%Z);
                                        ("flatwindow", [5]%Z)]))]
      [] st eq_refl) as (acc & Hacc & _)
  end.
  reflexivity.
Defined.

(* ------------------------------------------------------------------ *)
(** ** The assertion is enough for the row concatenation *)

Lemma append_inputs_error {E} (acc : dict (list (Tensor E))) d e :
  outcome (append_inputs E acc d) = inl e -> exists k, e = KeyError k.
Proof.
  revert e. induction acc as [|[k l] acc IH]; simpl; [discriminate|]. intros e.
  destruct (dict_get d k).
  - rewrite outcome_bind. destruct (outcome (append_inputs E acc d)) eqn:Hr.
    + intros [= <-]. now apply IH.
    + discriminate.
  - intros [= <-]. now exists k.
Qed.

Lemma add_neuralnet_inputs_error {E} (all : option (dict (list (Tensor E)))) ed e :
  outcome (add_neuralnet_inputs all ed) = inl e -> exists k, e = KeyError k.
Proof.
  unfold add_neuralnet_inputs.
  destruct (ed_neuralnet_inputs_dict ed) as [d|]; [|discriminate].
  destruct all as [acc|]; [|discriminate].
  rewrite outcome_bind. destruct (outcome (append_inputs E acc d)) eqn:Ha;
    [|discriminate].
  intros [= <-]. eapply append_inputs_error, Ha.
Qed.

Lemma extract_body_per_column {E} (st : aggregate E) filename ed :
  reference_per_column st ->
  map_per_column ed ->
  (forall e, outcome (extract_body st filename (Some ed)) = inl e ->
             e = AssertionError ftr_inds_err_msg \/ exists k, e = KeyError k)
  /\ (forall t st', extract_body st filename (Some ed) = (t, inr st') ->
                    reference_per_column st').
Proof.
  unfold reference_per_column, map_per_column, extract_body.
  unfold check_feature_inds, add_features.
  intros Hst Hed.
  destruct (ed_features_arr ed) as [[v|n rows]|], (ed_feature_inds ed) as [inds|];
    try contradiction.
  - destruct (features_from_all_files st) as [[v0|n0 rows0]|],
      (feature_inds_ref st) as [ref|]; try contradiction.
    + destruct (array_equal ref inds) eqn:Heq.
      * apply array_equal_iff in Heq. subst inds.
        rewrite bind_ret_l. simpl concatenate_axis0.
        assert (Hn : Nat.eqb n0 n = true) by (apply Nat.eqb_eq; congruence).
        rewrite Hn, !bind_ret_l. split.
        -- intros e. rewrite outcome_bind.
           destruct (outcome (add_neuralnet_inputs _ ed)) as [e'|nn] eqn:Hnn;
             [|discriminate].
           intros [= <-]. right. eapply add_neuralnet_inputs_error, Hnn.
        -- intros t st' H. apply bind_inv in H.
           destruct H as (? & nn & ? & _ & H & _). injection H as _ <-. simpl.
           exact Hst.
      * rewrite bind_raise. split; [|discriminate].
        intros e [= <-]. now left.
    + rewrite !bind_ret_l. split.
      * intros e. rewrite outcome_bind.
        destruct (outcome (add_neuralnet_inputs _ ed)) as [e'|nn] eqn:Hnn;
          [|discriminate].
        intros [= <-]. right. eapply add_neuralnet_inputs_error, Hnn.
      * intros t st' H. apply bind_inv in H.
        destruct H as (? & nn & ? & _ & H & _). injection H as _ <-. simpl.
        exact Hed.
  - rewrite !bind_ret_l. split.
    + intros e. rewrite outcome_bind.
      destruct (outcome (add_neuralnet_inputs _ ed)) as [e'|nn] eqn:Hnn;
        [|discriminate].
      intros [= <-]. right. eapply add_neuralnet_inputs_error, Hnn.
    + intros t st' H. apply bind_inv in H.
      destruct H as (? & nn & ? & _ & H & _). injection H as _ <-. simpl.
      exact Hst.
Qed.

(** X9: when every result has a 2-d feature array with one column per entry
    of its column map (or no array), the assertion on the column maps is all
    that can stop the loop of [extract] over the feature arrays:
    [np.concatenate] along axis 0 never raises, and the only errors of the
    loop are the failed assertion and the key error of a missing tensor. *)
Theorem aggregation_errors :
  forall (E : Collaborators) (results : list (string * option (extract_dict E))),
    Forall (fun r => match snd r with
                     | Some ed => map_per_column ed
                     | None => True
                     end) results ->
    forall e,
      outcome (aggregate_results results (aggregate0 E)) = inl e ->
      e = AssertionError ftr_inds_err_msg \/ exists k, e = KeyError k.
Proof.
  intros E results Hall.
  assert (Hgen : forall st : aggregate E,
    reference_per_column st ->
    forall e, outcome (aggregate_results results st) = inl e ->
              e = AssertionError ftr_inds_err_msg \/ exists k, e = KeyError k).
  { induction Hall as [|[fn [ed|]] rest Hr _ IH]; intros st Hst e;
      cbn [aggregate_results].
    - discriminate.
    - destruct (extract_body_per_column st fn ed Hst Hr) as [Herr Hret].
      rewrite outcome_bind.
      destruct (extract_body st fn (Some ed)) as [t [e'|st1]] eqn:Hb;
        cbn [outcome snd].
      + intros [= <-]. now apply Herr.
      + apply IH. eapply Hret. reflexivity.
    - change (extract_body st fn None) with (ret st).
      rewrite bind_ret_l. now apply IH. }
  apply Hgen. exact I.
Qed.

Lemma aggregation_errors_witness :
  outcome (aggregate_results
             [("A.cbin", Some (Scenario.ed_width 2));
              ("B.cbin", Some (Scenario.ed_width 3))] (aggregate0 Scenario.E))
  = inl (AssertionError ftr_inds_err_msg).
Proof.
  destruct (aggregation_errors Scenario.E
              [("A.cbin", Some (Scenario.ed_width 2));
               ("B.cbin", Some (Scenario.ed_width 3))]) with
    (e := AssertionError ftr_inds_err_msg) as [H|[k H]].
  - repeat constructor.
  - reflexivity.
  - reflexivity.
  - discriminate H.
Defined.

(* ------------------------------------------------------------------ *)
(** ** The second computation of the sample count *)

(** X10: lines 391-404 of [extract] compute the sample count a second time
    and change nothing: for all accumulators, the whole block of lines
    361-404 raises what lines 361-389 raise and otherwise leaves the keys
    that lines 361-389 left, with the same values. *)
Theorem num_samples_second_pass_is_redundant :
  forall (E : Collaborators) (st : aggregate E),
    num_samples_block st = num_samples_first st.
Proof.
  intros E st. unfold num_samples_block, num_samples_first.
  destruct (features_from_all_files st) as [features|],
    (feature_inds_ref st) as [inds|],
    (neuralnet_inputs_all_files st) as [all|];
    try destruct (concatenate_inputs E all) as [t [e|[|[k ten] [|]]]];
    unfold bind, num_samples_of_inputs, read_local, ret, raise; simpl;
    rewrite ?app_nil_r; reflexivity.
Qed.

(* ------------------------------------------------------------------ *)
(** ** The whole of [extract] *)

Section ExtractLaws.

Context {E : Collaborators} {Sys : System E}.

Lemma xbind_returned {A B} (m : X Sys A) (k : A -> X Sys B) w wt b :
  xbind m k w = (wt, inr b) ->
  exists w1 t1 a t2,
    m w = ((w1, t1), inr a) /\ k a w1 = ((fst wt, t2), inr b)
    /\ snd wt = t1 ++ t2.
Proof.
  unfold xbind. destruct (m w) as [[w1 t1] [e|a]]; [discriminate|].
  destruct (k a w1) as [[w2 t2] r] eqn:Hk. intros H. inversion H; subst.
  exists w1, t1, a, t2. simpl. auto.
Qed.

Lemma xbind_result {A B} (m : X Sys A) (k : A -> X Sys B) w b :
  result_of (xbind m k w) = inr b ->
  exists w1 t1 a, m w = ((w1, t1), inr a) /\ result_of (k a w1) = inr b.
Proof.
  unfold result_of. destruct (xbind m k w) as [wt r] eqn:H. simpl. intros ->.
  apply xbind_returned in H. destruct H as (w1 & t1 & a & t2 & Hm & Hk & _).
  exists w1, t1, a. now rewrite Hk.
Qed.

Lemma xbind_raised {A B} (m : X Sys A) (k : A -> X Sys B) w wt e :
  m w = (wt, inl e) -> xbind m k w = (wt, inl e).
Proof. unfold xbind. intros ->. now destruct wt. Qed.

Lemma xbind_value {A B} (m : X Sys A) (k : A -> X Sys B) w w1 t1 a :
  m w = ((w1, t1), inr a) ->
  xbind m k w
  = ((world_after (k a w1), t1 ++ events_of (k a w1)), result_of (k a w1)).
Proof. unfold xbind. intros ->. now destruct (k a w1) as [[w2 t2] r]. Qed.

Lemma xbind_xret {A B} (a : A) (k : A -> X Sys B) w : xbind (xret a) k w = k a w.
Proof. unfold xbind, xret. now destruct (k a w) as [[w2 t2] r]. Qed.

Lemma xbind_xraise {A B} (e : error) (k : A -> X Sys B) w :
  xbind (xraise e) k w = ((w, []), inl e).
Proof. reflexivity. Qed.

Lemma lift_returned {A} (m : M A) w wt (a : A) :
  lift (Sys := Sys) m w = (wt, inr a) -> m = (snd wt, inr a) /\ fst wt = w.
Proof.
  unfold lift. destruct m as [t [e|a']]; simpl; intros H; inversion H; subst; auto.
Qed.

End ExtractLaws.

(** What [__init__] sets. *)
Lemma init_attributes {E} {Sys : System E} sp fl ids gd seg
    (self : FeatureExtractor Sys) :
  __init__ sp fl ids gd seg = inr self ->
  spect_params self = sp /\ feature_list self = fl
  /\ segment_params self = (if truthy_list seg then seg else None).
Proof.
  unfold __init__. destruct ids as [ids|].
  - destruct (group_ids_truth ids) as [e|[|]]; [discriminate| |];
      intros H; injection H as <-; auto.
  - intros H; injection H as <-; auto.
Qed.

(** X11: with the documented type of [feature_list_group_ID], a numpy array,
    [__init__] only returns for an array of at most one entry (line 86 takes
    the truth value of the array, which an array of two or more entries does
    not have), and it sets the group attributes exactly when the array is one
    identifier that is not 0. *)
Theorem init_group_ids_array :
  forall (E : Collaborators) (Sys : System E) sp fl (a : list nat) gd seg
         (self : FeatureExtractor Sys),
    __init__ sp fl (Some (ids_array a)) gd seg = inr self ->
    length a <= 1
    /\ (group_attributes self <> None <-> exists x, a = [x] /\ x <> 0).
Proof.
  intros E Sys sp fl a gd seg self. unfold __init__.
  destruct a as [|x [|y a]]; simpl.
  - intros H; injection H as <-. simpl. split; [lia|]. split; [congruence|].
    intros (x & Hx & _). discriminate.
  - destruct (Nat.eqb_spec x 0) as [->|Hx]; simpl; intros H; injection H as <-;
      simpl; (split; [lia|]).
    + split; [congruence|]. intros (x & Hx & Hne). congruence.
    + split; [|discriminate]. intros _. now exists x.
  - discriminate.
Qed.

Lemma init_group_ids_array_witness :
  exists self : FeatureExtractor DemoSystem.sys,
    __init__ (Sys := DemoSystem.sys) tt ["duration"%string]
             (Some (ids_array [1])) [(1, "knn"%string)] None
    = inr self
    /\ length [1] <= 1
    /\ (group_attributes self <> None <-> exists x, [1] = [x] /\ x <> 0).
Proof.
  eexists. split; [reflexivity|].
  exact (init_group_ids_array DemoSystem.E DemoSystem.sys tt ["duration"%string]
           [1] [(1, "knn"%string)] None _ eq_refl).
Defined.

Section ExtractFacts.

Context {E : Collaborators} {Sys : System E}.
Variable dump : summary_dict E Sys -> string -> World Sys -> error + World Sys.

Lemma xbind_ask {A B} (f : World Sys -> A) (k : A -> X Sys B) w :
  xbind (ask f) k w = k (f w) w.
Proof. unfold xbind, ask. now destruct (k (f w) w) as [[w2 t2] r]. Qed.

Lemma prepare_output_dir_events od mk (w : World Sys) :
  events_of (prepare_output_dir Sys od mk w) = [].
Proof.
  unfold prepare_output_dir. destruct od as [dir|]; [|reflexivity].
  destruct (String.eqb dir ""); [reflexivity|].
  destruct mk.
  - rewrite xbind_value with (w1 := w) (t1 := [])
      (a := path_join Sys (abspath Sys w (normpath Sys dir))
              ("extract_output_" ++ timestamp Sys w))
      by (now rewrite xbind_ask).
    rewrite xbind_ask. simpl.
    destruct (isdir Sys w _).
    + now rewrite xbind_xret.
    + unfold xbind, act. now destruct (makedirs Sys _ w).
  - rewrite xbind_ask, xbind_ask.
    destruct (isdir Sys w _).
    + now rewrite xbind_xret.
    + unfold xbind, act. now destruct (makedirs Sys _ w).
Qed.

Lemma make_summary_returned self ltu ff od annots st (w : World Sys) wt c :
  make_summary dump self ltu ff od annots st w = (wt, inr c) ->
  od <> None /\ segment_params self <> None
  /\ outcome (num_samples_block st) = inr c.
Proof.
  unfold make_summary. rewrite xbind_ask.
  destruct od as [dir|]; [|discriminate].
  rewrite xbind_xret.
  destruct (segment_params self) as [params|]; [|discriminate].
  rewrite xbind_xret. intros H.
  apply xbind_returned in H. destruct H as (w1 & t1 & counted & t2 & Hc & H & _).
  apply lift_returned in Hc. destruct Hc as [Hc _].
  apply xbind_returned in H. destruct H as (w2 & t3 & [] & t4 & _ & H & _).
  injection H as _ _ ->. rewrite Hc. repeat split; congruence.
Qed.

End ExtractFacts.

(** X12: with [make_summary_file=True] (the default), [extract] never
    returns when [output_dir] is [None] (the default) or when the extractor
    was made without segmenting parameters ([segment_params] [None], the
    default, or empty): whatever the other arguments, the files and the
    world, the call ends in an exception -- at the latest that of
    [os.path.join] on [None] (line 343) or of the attribute [segment_params]
    that [__init__] did not set (line 351). *)
Theorem extract_summary_needs_output_dir_and_segment_params :
  forall (E : Collaborators) (Sys : System E) dump sp fl ids gd seg
         (self : FeatureExtractor Sys) labels_to_use data_dirs
         data_dirs_validated file_format annotation_file segment output_dir
         make_output_subdir return_extract_dict (w : World Sys),
    __init__ sp fl ids gd seg = inr self ->
    output_dir = None \/ truthy_list seg = false ->
    exists e,
      result_of (extract dump self labels_to_use data_dirs data_dirs_validated
                         file_format annotation_file segment output_dir
                         make_output_subdir true return_extract_dict w)
      = inl e.
Proof.
  intros E Sys dump sp fl ids gd seg self ltu dd ddv ff af sgm od mk rt w Hinit Hor.
  destruct (result_of (extract dump self ltu dd ddv ff af sgm od mk true rt w))
    as [e|r] eqn:Hr; [now exists e|exfalso].
  unfold extract in Hr.
  apply xbind_result in Hr. destruct Hr as (w1 & t1 & [] & _ & Hr).
  apply xbind_result in Hr. destruct Hr as (w2 & t2 & [] & _ & Hr).
  apply xbind_result in Hr. destruct Hr as (w3 & t3 & od' & Hod & Hr).
  apply xbind_result in Hr. destruct Hr as (w4 & t4 & found & _ & Hr).
  apply xbind_result in Hr. destruct Hr as (w5 & t5 & annots & _ & Hr).
  apply xbind_result in Hr. destruct Hr as (w6 & t6 & st & _ & Hr).
  apply xbind_result in Hr. destruct Hr as (w7 & t7 & summary & Hs & _).
  apply xbind_returned in Hs. destruct Hs as (w8 & t8 & c & t9 & Hs & _).
  apply make_summary_returned in Hs. destruct Hs as (Hod' & Hseg & _).
  destruct Hor as [->|Hseg'].
  - simpl in Hod. injection Hod as _ _ <-. now apply Hod'.
  - apply init_attributes in Hinit. destruct Hinit as (_ & _ & Hp).
    rewrite Hseg' in Hp. now apply Hseg.
Qed.

Lemma extract_summary_needs_output_dir_and_segment_params_witness :
  exists e,
    result_of (extract DemoSystem.dump DemoSystem.plain "all"
                       (Some ["/data/bird1"%string]) false None None false None
                       true true true DemoSystem.world0)
    = inl e.
Proof.
  apply (extract_summary_needs_output_dir_and_segment_params
           DemoSystem.E DemoSystem.sys DemoSystem.dump tt
           ["duration"; "amplitude"]%string None [] None DemoSystem.plain);
    [reflexivity | left; reflexivity].
Defined.

(* ------------------------------------------------------------------ *)
(** ** The loop of [extract] over entries with and without sample keys *)

Lemma extract_files_app E fl ltu (l1 l2 : list annot) (st : aggregate E) :
  extract_files E fl ltu (l1 ++ l2) st
  = bind (extract_files E fl ltu l1 st) (extract_files E fl ltu l2).
Proof.
  revert st. induction l1 as [|a l1 IH]; intros st.
  - simpl app. cbn [extract_files]. now rewrite bind_ret_l.
  - simpl app. cbn [extract_files]. rewrite !bind_assoc.
    apply bind_ext. intros on. rewrite !bind_assoc.
    apply bind_ext. intros off. rewrite !bind_assoc.
    apply bind_ext. intros r. rewrite !bind_assoc.
    apply bind_ext. intros st'. apply IH.
Qed.

(** On entries that have both sample keys, the loop is the loop over the
    entries as [_from_file] takes them. *)
Lemma extract_files_complete E fl ltu (annots : list annot)
    (l : list annotation_dict) (st : aggregate E) :
  map complete annots = map Some l ->
  extract_files E fl ltu annots st = extract_loop E fl ltu l st.
Proof.
  revert l st. induction annots as [|a annots IH]; intros [|b l] st H;
    try discriminate; [reflexivity|].
  simpl in H. injection H as Ha H.
  cbn [extract_files extract_loop]. unfold complete in Ha.
  destruct (an_onsets_Hz a) as [on|]; [|discriminate].
  destruct (an_offsets_Hz a) as [off|]; [|discriminate].
  injection Ha as <-. cbn [read_key ann_filename ann_labels ann_onsets_Hz ann_offsets_Hz].
  rewrite !bind_ret_l. apply bind_ext. intros r. apply bind_ext. intros st'.
  now apply IH.
Qed.

(** X13: when the entries of [annotation_list] before some entry have both
    sample keys and that entry lacks [onsets_Hz] or [offsets_Hz] (a segmenter
    that gives no sample positions), the loop of [extract] goes through the
    entries before it as usual and then raises the key error of the first
    missing key, before [_from_file] is called on that entry; no later entry
    is reached. *)
Theorem extract_files_missing_key :
  forall (E : Collaborators) fl ltu (before : list annot)
         (l : list annotation_dict) (a : annot) (after : list annot)
         (st : aggregate E),
    map complete before = map Some l ->
    complete a = None ->
    extract_files E fl ltu (before ++ a :: after) st
    = (trace (extract_loop E fl ltu l st),
       match outcome (extract_loop E fl ltu l st) with
       | inl e => inl e
       | inr _ =>
           inl (KeyError match an_onsets_Hz a with
                         | None => "onsets_Hz"
                         | Some _ => "offsets_Hz"
                         end)
       end).
Proof.
  intros E fl ltu before l a after st Hb Ha.
  rewrite extract_files_app, (extract_files_complete _ _ _ _ _ _ Hb).
  destruct (extract_loop E fl ltu l st) as [t [e|st']]; [reflexivity|].
  rewrite bind_pair_inr. cbn [extract_files]. unfold complete in Ha.
  destruct (an_onsets_Hz a) as [on|].
  - destruct (an_offsets_Hz a) as [off|]; [discriminate|].
    cbn [read_key]. rewrite bind_ret_l. simpl. now rewrite app_nil_r.
  - simpl. now rewrite app_nil_r.
Qed.

Lemma extract_files_missing_key_witness :
  let a := {| an_filename := "b.cbin"; an_labels := labels_arr ["-"%char];
              an_onsets_s := [Num 0]; an_offsets_s := [Num 1];
              an_onsets_Hz := None; an_offsets_Hz := None |} in
  outcome (extract_files DemoSystem.E ["duration"%string] "all"
             ([DemoSystem.annotated "a.cbin"] ++ [a]) (aggregate0 DemoSystem.E))
  = inl (KeyError "onsets_Hz").
Proof.
  intros a.
  rewrite (extract_files_missing_key DemoSystem.E ["duration"%string] "all"
             [DemoSystem.annotated "a.cbin"]
             [{| ann_filename := "a.cbin"; ann_labels := labels_arr ["a"; "b"; "c"]%char;
                 ann_onsets_Hz := [0; 10; 20]%Z; ann_offsets_Hz := [5; 15; 25]%Z |}]
             a [] (aggregate0 DemoSystem.E) eq_refl eq_refl).
  reflexivity.
Defined.

(* ------------------------------------------------------------------ *)
(** ** Segmenting and a label set *)

Lemma from_file_skips E fl f labels on off ltu mask :
  use_these_labels_bool labels ltu = ret mask ->
  np_any mask = false ->
  _from_file E fl f labels on off ltu = ([ev_warn f ltu], inr None).
Proof.
  intros Hm Hany. unfold _from_file. rewrite Hm, bind_ret_l, Hany. reflexivity.
Qed.

Lemma fake_labels_mask n ltu :
  ltu <> "all"%string ->
  label_in "-" ltu = false ->
  exists mask,
    use_these_labels_bool (labels_arr (repeat "-"%char n)) ltu = ret mask
    /\ np_any mask = false.
Proof.
  intros Hne Hno. apply no_match_mask; [exact Hne|].
  intros label Hin. simpl in Hin. apply repeat_spec in Hin. now subst.
Qed.

Lemma extract_files_fake E fl ltu (annots : list annot) (st : aggregate E) t st' :
  ltu <> "all"%string ->
  label_in "-" ltu = false ->
  Forall fake_labelled annots ->
  extract_files E fl ltu annots st = (t, inr st') ->
  st' = st /\ t = map (fun a => ev_warn (an_filename a) ltu) annots.
Proof.
  intros Hne Hno Hall. revert t. induction Hall as [|a annots [n Ha] Hall IH]; intros t H.
  - cbn [extract_files] in H. unfold ret in H. injection H as <- <-. auto.
  - cbn [extract_files] in H.
    destruct (an_onsets_Hz a) as [on|]; [|discriminate].
    destruct (an_offsets_Hz a) as [off|]; [|discriminate].
    cbn [read_key] in H. rewrite !bind_ret_l in H.
    destruct (fake_labels_mask n ltu Hne Hno) as (mask & Hm & Hany).
    rewrite Ha, (from_file_skips E fl _ _ on off ltu mask Hm Hany) in H.
    rewrite bind_pair_inr in H. cbn [extract_body] in H. rewrite bind_ret_l in H.
    destruct (extract_files E fl ltu annots st) as [t' r] eqn:Hrest.
    simpl in H. injection H as <- ->.
    destruct (IH t' eq_refl) as [-> ->]. auto.
Qed.

Lemma segment_file_fake {E} {Sys : System E} (self : FeatureExtractor Sys)
    ff f t a :
  segment_file self ff f = (t, inr a) -> fake_labelled a.
Proof.
  unfold segment_file. intros H.
  apply bind_inv in H. destruct H as (t1 & [raw_audio samp_freq] & t2 & _ & H & _).
  apply bind_inv in H. destruct H as (t3 & params & t4 & _ & H & _).
  destruct (seg_onsets_Hz (segment_audio Sys params raw_audio samp_freq)).
  - apply bind_inv in H. destruct H as (t5 & off & t6 & _ & H & _).
    unfold ret in H. injection H as _ <-. eexists. reflexivity.
  - unfold ret in H. injection H as _ <-. eexists. reflexivity.
Qed.

Lemma segment_files_fake {E} {Sys : System E} (self : FeatureExtractor Sys)
    ff files t annots :
  segment_files self ff files = (t, inr annots) -> Forall fake_labelled annots.
Proof.
  revert t annots. induction files as [|f files IH]; intros t annots H.
  - cbn [segment_files] in H. unfold ret in H. injection H as _ <-. constructor.
  - cbn [segment_files] in H.
    apply bind_inv in H. destruct H as (t1 & a & t2 & Ha & H & _).
    apply bind_inv in H. destruct H as (t3 & rest & t4 & Hrest & H & _).
    unfold ret in H. injection H as _ <-.
    constructor; [eapply segment_file_fake, Ha | eapply IH, Hrest].
Qed.

Lemma get_annotation_list_segment {E} {Sys : System E}
    (self : FeatureExtractor Sys) dd ddv ff af (w : World Sys) wt found :
  truthy_list dd = true ->
  get_annotation_list self dd ddv ff af true w = (wt, inr found) ->
  exists annots, snd found = Some annots /\ Forall fake_labelled annots.
Proof.
  intros Hdd. unfold get_annotation_list. rewrite Hdd. intros H.
  apply xbind_returned in H. destruct H as (w1 & t1 & dirs & t2 & _ & H & _).
  apply xbind_returned in H. destruct H as (w2 & t3 & ff' & t4 & _ & H & _).
  apply xbind_returned in H. destruct H as (w3 & t5 & annots & t6 & Ha & H & _).
  unfold xret in H. injection H as _ _ <-.
  exists annots. split; [reflexivity|].
  apply xbind_returned in Ha. destruct Ha as (w4 & t7 & files & t8 & _ & Ha & _).
  apply lift_returned in Ha. destruct Ha as [Ha _].
  eapply segment_files_fake, Ha.
Qed.

(** X14: [extract] with [segment=True], directories and a label set: every
    segment that the segmenter finds gets the label ['-'], so when ['-'] is
    not in [labels_to_use] (and [labels_to_use] is not ['all']) no file has a
    matching label, and a dict that [extract] returns has no labels, no
    features and no tensors. *)
Theorem segmenting_with_label_set_extracts_nothing :
  forall (E : Collaborators) (Sys : System E) dump (self : FeatureExtractor Sys)
         labels_to_use data_dirs data_dirs_validated file_format
         annotation_file output_dir make_output_subdir make_summary_file
         return_extract_dict (w : World Sys) rd,
    truthy_list data_dirs = true ->
    labels_to_use <> "all"%string ->
    label_in "-" labels_to_use = false ->
    result_of (extract dump self labels_to_use data_dirs data_dirs_validated
                       file_format annotation_file true output_dir
                       make_output_subdir make_summary_file
                       return_extract_dict w)
    = inr (Some rd) ->
    rd = {| rd_labels := []; rd_features := None; rd_neuralnet_inputs := None |}.
Proof.
  intros E Sys dump self ltu dd ddv ff af od mk ms rt w rd Hdd Hne Hno Hr.
  unfold extract in Hr.
  apply xbind_result in Hr. destruct Hr as (w1 & t1 & [] & _ & Hr).
  apply xbind_result in Hr. destruct Hr as (w2 & t2 & [] & _ & Hr).
  apply xbind_result in Hr. destruct Hr as (w3 & t3 & od' & _ & Hr).
  apply xbind_result in Hr. destruct Hr as (w4 & t4 & found & Hf & Hr).
  apply xbind_result in Hr. destruct Hr as (w5 & t5 & annots & Ha & Hr).
  apply xbind_result in Hr. destruct Hr as (w6 & t6 & st & Hst & Hr).
  apply xbind_result in Hr. destruct Hr as (w7 & t7 & summary & _ & Hr).
  apply get_annotation_list_segment in Hf; [|exact Hdd].
  destruct Hf as (annots' & Hsnd & Hfake).
  rewrite Hsnd in Ha. apply lift_returned in Ha. destruct Ha as [Ha _].
  unfold read_local, ret in Ha. injection Ha as _ ->.
  apply lift_returned in Hst. destruct Hst as [Hst _].
  apply (extract_files_fake _ _ _ _ _ _ _ Hne Hno Hfake) in Hst.
  destruct Hst as [-> _].
  unfold result_of, xret in Hr. simpl in Hr.
  destruct rt; [|discriminate]. injection Hr as <-. reflexivity.
Qed.

Lemma segmenting_with_label_set_extracts_nothing_witness :
  exists rd,
    result_of (extract DemoSystem.dump DemoSystem.segmenting "iabc"
                       (Some ["/data/bird1"%string]) false None None true None
                       true false true DemoSystem.world0)
    = inr (Some rd)
    /\ rd = {| rd_labels := []; rd_features := None; rd_neuralnet_inputs := None |}.
Proof.
  eexists. split; [vm_compute; reflexivity|].
  apply (segmenting_with_label_set_extracts_nothing
           DemoSystem.E DemoSystem.sys DemoSystem.dump DemoSystem.segmenting "iabc"
           (Some ["/data/bird1"%string]) false None None None true false true
           DemoSystem.world0);
    [reflexivity | discriminate | reflexivity | vm_compute; reflexivity].
Defined.

(* ------------------------------------------------------------------ *)
(** ** What [extract] returns *)

Lemma num_samples_block_inputs {E} (st : aggregate E) c lists :
  outcome (num_samples_block st) = inr c ->
  neuralnet_inputs_all_files st = Some lists ->
  exists arrays,
    outcome (concatenate_inputs E lists) = inr arrays
    /\ ff_neuralnet_inputs c = Some arrays.
Proof.
  intros H Hnn. unfold num_samples_block in H. rewrite Hnn in H.
  destruct (features_from_all_files st), (feature_inds_ref st);
    destruct (concatenate_inputs E lists) as [t [e|[|[k ten] [|]]]];
    unfold bind, num_samples_of_inputs, read_local, ret, raise in H;
    simpl in H; try discriminate; injection H as <-;
    eexists; split; reflexivity.
Qed.

(** X15: the dict that [extract] returns holds the labels and the feature
    rows of the accumulators of its loop; its tensors are the accumulated
    lists, one list per name, when no summary file is made, and the
    concatenated arrays when one is made (lines 372-374 put them into the
    dict that is returned). *)
Theorem returned_tensors_follow_summary :
  forall (E : Collaborators) (Sys : System E) dump (self : FeatureExtractor Sys)
         labels_to_use data_dirs data_dirs_validated file_format
         annotation_file segment output_dir make_output_subdir
         make_summary_file return_extract_dict (w : World Sys) rd,
    result_of (extract dump self labels_to_use data_dirs data_dirs_validated
                       file_format annotation_file segment output_dir
                       make_output_subdir make_summary_file
                       return_extract_dict w)
    = inr (Some rd) ->
    exists annotation_list st,
      outcome (extract_files E (feature_list self) labels_to_use annotation_list
                             (aggregate0 E)) = inr st
      /\ rd_labels rd = all_labels st
      /\ rd_features rd = features_from_all_files st
      /\ match neuralnet_inputs_all_files st with
         | None => rd_neuralnet_inputs rd = None
         | Some lists =>
             if make_summary_file then
               exists arrays,
                 outcome (concatenate_inputs E lists) = inr arrays
                 /\ rd_neuralnet_inputs rd = Some (as_arrays arrays)
             else rd_neuralnet_inputs rd = Some (as_lists lists)
         end.
Proof.
  intros E Sys dump self ltu dd ddv ff af sgm od mk ms rt w rd Hr.
  unfold extract in Hr.
  apply xbind_result in Hr. destruct Hr as (w1 & t1 & [] & _ & Hr).
  apply xbind_result in Hr. destruct Hr as (w2 & t2 & [] & _ & Hr).
  apply xbind_result in Hr. destruct Hr as (w3 & t3 & od' & _ & Hr).
  apply xbind_result in Hr. destruct Hr as (w4 & t4 & found & _ & Hr).
  apply xbind_result in Hr. destruct Hr as (w5 & t5 & annots & _ & Hr).
  apply xbind_result in Hr. destruct Hr as (w6 & t6 & st & Hst & Hr).
  apply xbind_result in Hr. destruct Hr as (w7 & t7 & summary & Hs & Hr).
  apply lift_returned in Hst. destruct Hst as [Hst _].
  exists annots, st. rewrite Hst. split; [reflexivity|].
  unfold result_of, xret in Hr. simpl in Hr.
  destruct rt; [|discriminate]. injection Hr as <-.
  split; [reflexivity|]. split; [reflexivity|].
  cbn [rd_neuralnet_inputs]. unfold returned_inputs.
  destruct (neuralnet_inputs_all_files st) as [lists|] eqn:Hnn; [|reflexivity].
  destruct ms.
  - apply xbind_returned in Hs. destruct Hs as (w8 & t8 & c & t9 & Hs & Hc & _).
    unfold xret in Hc. injection Hc as _ _ <-.
    apply make_summary_returned in Hs. destruct Hs as (_ & _ & Hs).
    destruct (num_samples_block_inputs st c lists Hs Hnn) as (arrays & Ha & Hc).
    exists arrays. rewrite Hc. auto.
  - unfold xret in Hs. injection Hs as _ _ <-. reflexivity.
Qed.

Lemma returned_tensors_follow_summary_witness :
  let self :=
    @Build_FeatureExtractor DemoSystem.E DemoSystem.sys tt
      (Some [("threshold"%string, 1500%Z)]) ["flatwindow"; "duration"]%string None in
  exists rd,
    result_of (extract DemoSystem.dump self "ab" None false None
                       (Some "annotation.csv"%string) false (Some "/out"%string)
                       false true true DemoSystem.world0)
    = inr (Some rd)
    /\ exists annotation_list st,
         outcome (extract_files DemoSystem.E (feature_list self) "ab"
                                annotation_list (aggregate0 DemoSystem.E))
         = inr st
         /\ rd_labels rd = all_labels st
         /\ rd_features rd = features_from_all_files st
         /\ match neuralnet_inputs_all_files st with
            | None => rd_neuralnet_inputs rd = None
            | Some lists =>
                exists arrays,
                  outcome (concatenate_inputs DemoSystem.E lists) = inr arrays
                  /\ rd_neuralnet_inputs rd = Some (as_arrays arrays)
            end.
Proof.
  intros self. eexists. split; [vm_compute; reflexivity|].
  apply (returned_tensors_follow_summary
           DemoSystem.E DemoSystem.sys DemoSystem.dump self "ab" None false None
           (Some "annotation.csv"%string) false (Some "/out"%string) false true
           true DemoSystem.world0).
  vm_compute. reflexivity.
Defined.

(* ------------------------------------------------------------------ *)
(** ** The data source of [extract] *)

Section DataSource.

Context {E : Collaborators} {Sys : System E}.
Variable dump : summary_dict E Sys -> string -> World Sys -> error + World Sys.

Lemma xbind_act {B} (f : World Sys -> error + World Sys) (k : unit -> X Sys B)
    w w' :
  f w = inr w' -> xbind (act f) k w = k tt w'.
Proof. unfold xbind, act. intros ->. now destruct (k tt w') as [[w2 t2] r]. Qed.

Lemma prepare_output_dir_run od mk (w : World Sys) :
  prepare_output_dir Sys od mk w
  = ((world_after (prepare_output_dir Sys od mk w), []),
     result_of (prepare_output_dir Sys od mk w)).
Proof.
  pose proof (prepare_output_dir_events od mk w) as H.
  destruct (prepare_output_dir Sys od mk w) as [[w1 t] r].
  unfold events_of in H. simpl in H. now subst.
Qed.

(** The run of [extract] after its two checks and the output directory. *)
Lemma extract_after_output_dir (self : FeatureExtractor Sys) ltu dd ddv ff af
    sgm od mk ms rt (w w1 : World Sys) od' :
  truthy_list dd && truthy_str af = false ->
  (sgm = true -> segment_params self <> None) ->
  prepare_output_dir Sys od mk w = ((w1, []), inr od') ->
  extract dump self ltu dd ddv ff af sgm od mk ms rt w
  = (found <~ get_annotation_list self dd ddv ff af sgm ;;
     annotation_list <~ lift (read_local "annotation_list" (snd found)) ;;
     st <~ lift (extract_files E (feature_list self) ltu annotation_list
                               (aggregate0 E)) ;;
     summary <~
       (if ms then
          counted <~ make_summary dump self ltu (fst found) od'
                                  annotation_list st ;;
          xret (Some counted)
        else xret None) ;;
     xret (if rt then
             Some {| rd_labels := all_labels st;
                     rd_features := features_from_all_files st;
                     rd_neuralnet_inputs := returned_inputs summary st |}
           else None)) w1.
Proof.
  intros Hboth Hseg Hod. unfold extract. rewrite Hboth, xbind_xret.
  assert (Hcheck : (if sgm then
                      match segment_params self with
                      | None => xraise (of_exn ValueError)
                      | Some _ => xret tt
                      end
                    else xret tt) = (xret tt : X Sys unit)).
  { destruct sgm; [|reflexivity].
    destruct (segment_params self); [reflexivity|]. now destruct Hseg. }
  rewrite Hcheck, xbind_xret.
  rewrite (xbind_value _ _ _ _ _ _ Hod). simpl app.
  now destruct (xbind _ _ w1) as [[w2 t2] r].
Qed.

End DataSource.

(** X16: called with neither directories nor an annotation file (both
    absent or empty), and not stopped by the check of the segmenting
    parameters, [extract] makes the output directory as in any other call
    and then raises on the unbound [annotation_list] of line 287; only an
    error of making the directory comes before. *)
Theorem extract_without_data_source :
  forall (E : Collaborators) (Sys : System E) dump (self : FeatureExtractor Sys)
         labels_to_use data_dirs data_dirs_validated file_format
         annotation_file segment output_dir make_output_subdir
         make_summary_file return_extract_dict (w : World Sys),
    truthy_list data_dirs = false ->
    truthy_str annotation_file = false ->
    (segment = true -> segment_params self <> None) ->
    extract dump self labels_to_use data_dirs data_dirs_validated file_format
            annotation_file segment output_dir make_output_subdir
            make_summary_file return_extract_dict w
    = ((world_after (prepare_output_dir Sys output_dir make_output_subdir w), []),
       match result_of (prepare_output_dir Sys output_dir make_output_subdir w) with
       | inl e => inl e
       | inr _ => inl (of_exn (UnboundLocalError "annotation_list"))
       end).
Proof.
  intros E Sys dump self ltu dd ddv ff af sgm od mk ms rt w Hdd Haf Hseg.
  pose proof (prepare_output_dir_run od mk w) as Hrun.
  destruct (prepare_output_dir Sys od mk w) as [[w1 t] [e|od']] eqn:Hod;
    unfold world_after, result_of in *; cbn [fst snd] in *; injection Hrun as ->.
  - unfold extract. rewrite Hdd. cbn [andb]. rewrite xbind_xret.
    assert (Hcheck : (if sgm then
                        match segment_params self with
                        | None => xraise (of_exn ValueError)
                        | Some _ => xret tt
                        end
                      else xret tt) = (xret tt : X Sys unit)).
    { destruct sgm; [|reflexivity].
      destruct (segment_params self); [reflexivity|]. now destruct Hseg. }
    rewrite Hcheck, xbind_xret. now apply xbind_raised.
  - rewrite (extract_after_output_dir dump self ltu dd ddv ff af sgm od mk ms rt
               w w1 od'); [|now rewrite Hdd|exact Hseg|exact Hod].
    unfold get_annotation_list. rewrite Hdd, Haf, xbind_xret.
    reflexivity.
Qed.

Lemma extract_without_data_source_witness :
  let r := extract DemoSystem.dump DemoSystem.plain "all" None false None None
                   false (Some "out"%string) true true true DemoSystem.world0 in
  result_of r = inl (of_exn (UnboundLocalError "annotation_list"))
  /\ isdir DemoSystem.sys (world_after r)
           "/home/user/out/extract_output_170101_120000" = true.
Proof.
  intros r. subst r.
  rewrite (extract_without_data_source
             DemoSystem.E DemoSystem.sys DemoSystem.dump DemoSystem.plain "all"
             None false None None false (Some "out"%string) true true true
             DemoSystem.world0 eq_refl eq_refl);
    [split; reflexivity | discriminate].
Defined.

(* ------------------------------------------------------------------ *)
(** ** The directories of [data_dirs] *)

(** X17: when the validation of [data_dirs] (lines 173-187) goes through, it
    has changed nothing in the world and recorded nothing, every validated
    entry is a directory, and each one is the given entry if that is a
    directory and otherwise the given entry joined to the parent of the
    working directory. *)
Theorem validated_data_dirs_are_directories :
  forall (E : Collaborators) (Sys : System E) (data_dirs : list string)
         (w : World Sys) wt validated,
    validate_data_dirs Sys data_dirs w = (wt, inr validated) ->
    wt = (w, [])
    /\ Forall (fun d => isdir Sys w d = true) validated
    /\ Forall2 (fun given d =>
                  if isdir Sys w given then d = given
                  else d = path_join Sys (dirname Sys (getcwd Sys w))
                                     (normpath Sys given))
               data_dirs validated.
Proof.
  intros E Sys dirs w. induction dirs as [|d dirs IH]; intros wt validated H.
  - cbn [validate_data_dirs] in H. unfold xret in H. injection H as <- <-.
    repeat split; constructor.
  - cbn [validate_data_dirs] in H. rewrite !xbind_ask in H.
    destruct (isdir Sys w d) eqn:Hd.
    + rewrite xbind_xret in H.
      apply xbind_returned in H. destruct H as (w1 & t1 & rest & t2 & Hrest & H & Ht).
      destruct (IH _ _ Hrest) as (Hw & Hall & Hrel). injection Hw as -> ->.
      unfold xret in H. injection H as Hw Ht2 <-. subst t2.
      destruct wt as [w' t']. simpl in *. subst.
      repeat split; constructor; auto. now rewrite Hd.
    + apply xbind_returned in H. destruct H as (w1 & t1 & d' & t2 & Hd' & H & Ht).
      rewrite xbind_ask in Hd'.
      destruct (isdir Sys w (path_join Sys (dirname Sys (getcwd Sys w))
                                       (normpath Sys d))) eqn:Hd2;
        [|discriminate].
      unfold xret in Hd'. injection Hd' as <- <- <-.
      apply xbind_returned in H. destruct H as (w1 & t3 & rest & t4 & Hrest & H & Ht').
      destruct (IH _ _ Hrest) as (Hw & Hall & Hrel). injection Hw as -> ->.
      unfold xret in H. injection H as Hw Ht4 <-. subst t4.
      destruct wt as [w' t']. simpl in *. subst.
      repeat split; constructor; auto. now rewrite Hd.
Qed.

Lemma validated_data_dirs_are_directories_witness :
  let w := {| DemoSystem.cwd := "/data/config";
              DemoSystem.directories := ["/data/bird1"; "/data/bird2"]%string;
              DemoSystem.listing := []; DemoSystem.saved := [] |} in
  Forall (fun d => isdir DemoSystem.sys w d = true) ["/data/bird1"; "/data/bird2"]%string.
Proof.
  intros w.
  exact (proj1 (proj2 (validated_data_dirs_are_directories
                         DemoSystem.E DemoSystem.sys ["/data/bird1"; "bird2"]%string
                         w (w, []) ["/data/bird1"; "/data/bird2"]%string eq_refl))).
Defined.

(* ------------------------------------------------------------------ *)
(** ** A file format that is neither [cbin] nor [wav] *)

Section UnknownFormat.

Context {E : Collaborators} {Sys : System E}.

Lemma xbind_assoc {A B C} (m : X Sys A) (k : A -> X Sys B) (k' : B -> X Sys C) w :
  xbind (xbind m k) k' w = xbind m (fun a => xbind (k a) k') w.
Proof.
  unfold xbind. destruct (m w) as [[w1 t1] [e|a]]; [reflexivity|].
  destruct (k a w1) as [[w2 t2] [e|b]]; [reflexivity|].
  destruct (k' b w2) as [[w3 t3] r]. now rewrite app_assoc.
Qed.

Lemma xbind_xret_lift {A B} (a : A) (k : A -> X Sys B) w :
  xbind (lift (ret a)) k w = k a w.
Proof. unfold xbind, lift, ret. simpl. now destruct (k a w) as [[w2 t2] r]. Qed.

Lemma discover_nothing d0 ds (w w' : World Sys) :
  chdir Sys d0 w = inr w' ->
  glob Sys w' "*.cbin" = [] ->
  glob Sys w' "*.wav" = [] ->
  discover_file_format Sys (d0 :: ds) w = ((w', []), inr None).
Proof.
  intros Hcd Hc Hw. unfold discover_file_format.
  rewrite (xbind_act _ _ _ _ Hcd), !xbind_ask, Hc, Hw. reflexivity.
Qed.

Lemma glob_audio_files_unbound d0 ds (w : World Sys) :
  glob_audio_files Sys None (d0 :: ds) w
  = ((w, []), inl (of_exn (UnboundLocalError "search_str"))).
Proof. reflexivity. Qed.

Lemma find_annotation_files_nothing ff dirs (w : World Sys) :
  format_is ff "cbin" = false ->
  format_is ff "wav" = false ->
  Forall (fun d => glob Sys w (path_join Sys d "*.not.mat") = []) dirs ->
  find_annotation_files Sys ff dirs w = ((w, []), inr ([], [])).
Proof.
  intros Hc Hw Hall. induction Hall as [|d dirs Hd Hall IH]; [reflexivity|].
  cbn [find_annotation_files]. rewrite xbind_ask, Hd, Hc, Hw, xbind_xret.
  rewrite (xbind_value _ _ _ _ _ _ IH). reflexivity.
Qed.

Lemma find_annotation_files_cbin ff d dirs (w : World Sys) :
  format_is ff "cbin" = true ->
  glob Sys w (path_join Sys d "*.not.mat") = [] ->
  find_annotation_files Sys ff (d :: dirs) w = ((w, []), inl (of_exn ValueError)).
Proof.
  intros Hc Hd. cbn [find_annotation_files]. rewrite xbind_ask, Hd, Hc.
  reflexivity.
Qed.

End UnknownFormat.

(** X18: segmenting without a file format, in validated directories of
    which the first has neither [.cbin] nor [.wav] files: the format stays
    undetermined, [search_str] is never bound, and [extract] raises on it at
    line 216, after the first directory has become the working directory. *)
Theorem segmenting_undetermined_format :
  forall (E : Collaborators) (Sys : System E) dump (self : FeatureExtractor Sys)
         labels_to_use d0 ds annotation_file output_dir make_output_subdir
         make_summary_file return_extract_dict (w w1 w2 : World Sys) od,
    segment_params self <> None ->
    truthy_str annotation_file = false ->
    prepare_output_dir Sys output_dir make_output_subdir w = ((w1, []), inr od) ->
    chdir Sys d0 w1 = inr w2 ->
    glob Sys w2 "*.cbin" = [] ->
    glob Sys w2 "*.wav" = [] ->
    extract dump self labels_to_use (Some (d0 :: ds)) true None annotation_file
            true output_dir make_output_subdir make_summary_file
            return_extract_dict w
    = ((w2, []), inl (of_exn (UnboundLocalError "search_str"))).
Proof.
  intros E Sys dump self ltu d0 ds af od mk ms rt w w1 w2 od' Hseg Haf Hod Hcd Hc Hw.
  rewrite (extract_after_output_dir dump self ltu (Some (d0 :: ds)) true None af
             true od mk ms rt w w1 od');
    [|simpl; now rewrite Haf|auto|exact Hod].
  apply xbind_raised. unfold get_annotation_list. cbn [truthy_list].
  rewrite xbind_xret.
  rewrite (xbind_value _ _ _ _ _ _ (discover_nothing d0 ds w1 w2 Hcd Hc Hw)).
  reflexivity.
Qed.

Lemma segmenting_undetermined_format_witness :
  result_of (extract DemoSystem.dump DemoSystem.segmenting "all"
                     (Some ["/data/empty"%string]) true None None true None
                     true true true DemoSystem.world0)
  = inl (of_exn (UnboundLocalError "search_str")).
Proof.
  rewrite (segmenting_undetermined_format
             DemoSystem.E DemoSystem.sys DemoSystem.dump DemoSystem.segmenting
             "all" "/data/empty"%string [] None None true true true
             DemoSystem.world0 DemoSystem.world0
             {| DemoSystem.cwd := "/data/empty";
                DemoSystem.directories := DemoSystem.directories DemoSystem.world0;
                DemoSystem.listing := DemoSystem.listing DemoSystem.world0;
                DemoSystem.saved := [] |}
             None);
    [reflexivity | discriminate | reflexivity | reflexivity | reflexivity
     | reflexivity | reflexivity].
Defined.

(** X19: without segmenting, directories without [.not.mat] files are an
    error for the format ['cbin'], and pass for a format that is neither
    ['cbin'] nor ['wav']: for validated directories none of which has such
    files, [extract] without summary file raises the value error of line 254
    when [file_format] is ['cbin'], and for any other format than ['wav'] it
    goes on with an empty [annotation_list] and returns a dict without
    labels, features or tensors. *)
Theorem unknown_format_needs_no_annotation :
  forall (E : Collaborators) (Sys : System E) dump (self : FeatureExtractor Sys)
         labels_to_use d0 ds f annotation_file output_dir make_output_subdir
         return_extract_dict (w w1 : World Sys) od,
    truthy_str annotation_file = false ->
    String.eqb f "wav" = false ->
    prepare_output_dir Sys output_dir make_output_subdir w = ((w1, []), inr od) ->
    Forall (fun d => glob Sys w1 (path_join Sys d "*.not.mat") = []) (d0 :: ds) ->
    extract dump self labels_to_use (Some (d0 :: ds)) true (Some f)
            annotation_file false output_dir make_output_subdir false
            return_extract_dict w
    = ((w1, []),
       if String.eqb f "cbin" then inl (of_exn ValueError)
       else inr (if return_extract_dict then
                   Some {| rd_labels := []; rd_features := None;
                           rd_neuralnet_inputs := None |}
                 else None)).
Proof.
  intros E Sys dump self ltu d0 ds f af od mk rt w w1 od' Haf Hwav Hod Hall.
  rewrite (extract_after_output_dir dump self ltu (Some (d0 :: ds)) true (Some f)
             af false od mk false rt w w1 od');
    [|simpl; now rewrite Haf|discriminate|exact Hod].
  destruct (String.eqb f "cbin") eqn:Hcbin.
  - apply xbind_raised. unfold get_annotation_list. cbn [truthy_list].
    rewrite !xbind_xret. apply xbind_raised, xbind_raised.
    apply find_annotation_files_cbin; [exact Hcbin|].
    now inversion Hall.
  - assert (Hget : get_annotation_list self (Some (d0 :: ds)) true (Some f) af
                                       false w1
                   = ((w1, []), inr (Some f, Some []))).
    { unfold get_annotation_list. cbn [truthy_list]. rewrite !xbind_xret.
      rewrite xbind_assoc.
      rewrite (xbind_value _ _ _ _ _ _
                 (find_annotation_files_nothing (Some f) (d0 :: ds) w1
                    Hcbin Hwav Hall)).
      reflexivity. }
    rewrite (xbind_value _ _ _ _ _ _ Hget). destruct rt; reflexivity.
Qed.

Lemma unknown_format_needs_no_annotation_witness :
  result_of (extract DemoSystem.dump DemoSystem.plain "ab"
                     (Some ["/data/empty"%string]) true (Some "mp3"%string) None
                     false None true false true DemoSystem.world0)
  = inr (Some {| rd_labels := []; rd_features := None;
                 rd_neuralnet_inputs := None |}).
Proof.
  rewrite (unknown_format_needs_no_annotation
             DemoSystem.E DemoSystem.sys DemoSystem.dump DemoSystem.plain "ab"
             "/data/empty"%string [] "mp3"%string None None true true
             DemoSystem.world0 DemoSystem.world0 None);
    [reflexivity | reflexivity | reflexivity | reflexivity
     | repeat constructor].
Defined.

(* ------------------------------------------------------------------ *)
(** ** [extract] on an annotation file *)

(** X20: called with an annotation file whose entries have both sample
    keys, and without summary file, [extract] is its loop over these entries:
    it records the events of the loop, raises what the loop raises, and
    returns the accumulated labels, feature rows and lists of tensors; the
    world is as the step of the output directory left it. *)
Theorem extract_on_annotation_file :
  forall (E : Collaborators) (Sys : System E) dump (self : FeatureExtractor Sys)
         labels_to_use data_dirs data_dirs_validated file_format
         (annotation_file : string) output_dir make_output_subdir
         return_extract_dict (w w1 : World Sys) od
         (annotation_list : list annot) (l : list annotation_dict),
    truthy_list data_dirs = false ->
    annotation_file <> ""%string ->
    prepare_output_dir Sys output_dir make_output_subdir w = ((w1, []), inr od) ->
    csv_to_annot_list Sys annotation_file w1 = inr annotation_list ->
    map complete annotation_list = map Some l ->
    extract dump self labels_to_use data_dirs data_dirs_validated file_format
            (Some annotation_file) false output_dir make_output_subdir false
            return_extract_dict w
    = ((w1, trace (extract_loop E (feature_list self) labels_to_use l
                                (aggregate0 E))),
       match outcome (extract_loop E (feature_list self) labels_to_use l
                                   (aggregate0 E)) with
       | inl e => inl (of_exn e)
       | inr st =>
           inr (if return_extract_dict then
                  Some {| rd_labels := all_labels st;
                          rd_features := features_from_all_files st;
                          rd_neuralnet_inputs :=
                            option_map as_lists (neuralnet_inputs_all_files st) |}
                else None)
       end).
Proof.
  intros E Sys dump self ltu dd ddv ff af od mk rt w w1 od' annots l
         Hdd Haf Hod Hcsv Hl.
  rewrite (extract_after_output_dir dump self ltu dd ddv ff (Some af) false od mk
             false rt w w1 od');
    [|now rewrite Hdd|discriminate|exact Hod].
  assert (Hget : get_annotation_list self dd ddv ff (Some af) false w1
                 = ((w1, []), inr (ff, Some annots))).
  { unfold get_annotation_list. rewrite Hdd. cbn [truthy_str].
    apply String.eqb_neq in Haf. rewrite Haf. cbn [negb].
    unfold xbind, look. now rewrite Hcsv. }
  rewrite (xbind_value _ _ _ _ _ _ Hget). cbn [snd fst read_local].
  unfold world_after, events_of, result_of.
  rewrite xbind_xret_lift.
  rewrite (extract_files_complete E _ ltu annots l _ Hl).
  destruct (extract_loop E (feature_list self) ltu l (aggregate0 E))
    as [t [e|st]]; unfold xbind, lift, xret; simpl; rewrite ?app_nil_r;
    [reflexivity|].
  unfold returned_inputs. destruct rt, (neuralnet_inputs_all_files st); reflexivity.
Qed.

Lemma extract_on_annotation_file_witness :
  result_of (extract DemoSystem.dump DemoSystem.plain "ab" None false None
                     (Some "annotation.csv"%string) false None true false true
                     DemoSystem.world0)
  = inr (Some {| rd_labels := ["a"; "b"]%char;
                 rd_features := Some (arr2 2 [[Num 5; Num 5]; [Num 5; Num 25]]);
                 rd_neuralnet_inputs := None |}).
Proof.
  rewrite (extract_on_annotation_file
             DemoSystem.E DemoSystem.sys DemoSystem.dump DemoSystem.plain "ab"
             None false None "annotation.csv"%string None true true
             DemoSystem.world0 DemoSystem.world0 None
             [DemoSystem.annotated "/data/bird1/a.cbin"]
             [{| ann_filename := "/data/bird1/a.cbin";
                 ann_labels := labels_arr ["a"; "b"; "c"]%char;
                 ann_onsets_Hz := [0; 10; 20]%Z;
                 ann_offsets_Hz := [5; 15; 25]%Z |}]);
    [reflexivity | reflexivity | discriminate | reflexivity | reflexivity
     | reflexivity].
Defined.
